(** * Resilience layer of the research gateway

    A shallow embedding of
      - [src/tools/cost_tracker/tracker.py]  ([RateLimiter], [CircuitBreaker]),
      - [src/tools/cost_tracker/usage.py]    ([UsageTracker]),
      - [src/tools/agent_researcher_tools/models.py] (request validation),
      - [src/tools/agent_researcher_tools/research.py] ([ResearchTool]),
    followed by the properties of the specification that concern them.

    Conventions.
      - [time.time()] is a parameter of every operation that reads the clock.
        Timestamps are integers ([Z], in seconds): the code only compares and
        subtracts them.
      - Python [int] configuration values (threshold, timeout, cap, window) are
        [Z]; nothing in the code restricts their sign.
      - A Python [str] is a [string] whose characters are code points below 256.
      - The [asyncio.Lock] of each object serialises its methods; every method
        is therefore one atomic state transformer. *)

From Stdlib Require Import ZArith Lia Ascii String.
From stdpp Require Import base option list sorting gmap strings.

Local Open Scope Z_scope.

(** ** The Python built-ins the gateway relies on

    [str.strip], [str.startswith], [repr] of a [str], [sorted] on a list of
    [(str, str)] tuples, [str.encode] (UTF-8) and [hashlib.sha256]. They are
    not code of the repository; they are written out so that the model of
    [ResearchTool._cache_key] is executable. *)

Module Py.

Definition ord (c : ascii) : N := N_of_ascii c.

(** [str.isspace] on one character, for code points below 256. *)
Definition isspace (c : ascii) : bool :=
  let n := ord c in
  ((9 <=? n) && (n <=? 13) || (28 <=? n) && (n <=? 32)
   || (n =? 133) || (n =? 160))%N.

Fixpoint lstrip (s : string) : string :=
  match s with
  | EmptyString => EmptyString
  | String c rest => if isspace c then lstrip rest else s
  end.

Fixpoint rstrip (s : string) : string :=
  match s with
  | EmptyString => EmptyString
  | String c rest =>
      match rstrip rest with
      | EmptyString => if isspace c then EmptyString else String c EmptyString
      | kept => String c kept
      end
  end.

Definition strip (s : string) : string := lstrip (rstrip s).

(** [s.startswith(prefix)] *)
Definition startswith (s prefix : string) : bool := String.prefix prefix s.

(** [len(s)] *)
Definition len (s : string) : Z := Z.of_nat (String.length s).

Definition hex_digit (n : N) : ascii :=
  if (n <? 10)%N then ascii_of_N (48 + n) else ascii_of_N (87 + n).

Definition hex2 (n : N) : string :=
  String (hex_digit (n / 16)) (String (hex_digit (n mod 16)) EmptyString).

Fixpoint contains (c : ascii) (s : string) : bool :=
  match s with
  | EmptyString => false
  | String d rest => if Ascii.eqb c d then true else contains c rest
  end.

Definition squote : ascii := "'"%char.
Definition dquote : ascii := "034"%char.
Definition backslash : ascii := "\"%char.

(** The quote [repr] wraps a string in: double quotes only when the string
    has a single quote and no double quote. *)
Definition repr_quote (s : string) : ascii :=
  if contains squote s && negb (contains dquote s) then dquote else squote.

Definition isprintable (c : ascii) : bool :=
  let n := ord c in
  ((32 <=? n) && (n <? 127) || (161 <=? n) && negb (n =? 173))%N.

Definition repr_char (quote c : ascii) : string :=
  let n := ord c in
  if Ascii.eqb c quote || Ascii.eqb c backslash
  then String backslash (String c EmptyString)
  else if (n =? 9)%N then String backslash "t"
  else if (n =? 10)%N then String backslash "n"
  else if (n =? 13)%N then String backslash "r"
  else if isprintable c then String c EmptyString
  else String backslash (String "x" (hex2 n)).

Fixpoint repr_body (quote : ascii) (s : string) : string :=
  match s with
  | EmptyString => EmptyString
  | String c rest => repr_char quote c +:+ repr_body quote rest
  end.

(** [repr(s)] for a [str]. *)
Definition repr (s : string) : string :=
  let q := repr_quote s in
  String q (repr_body q s +:+ String q EmptyString).

Definition hex_value (c : ascii) : N :=
  let n := ord c in
  if (n <? 58)%N then (n - 48)%N else (n - 87)%N.

(** Reads back one character written by [repr_char]: the inverse used to
    show that [repr] can be told apart from what follows it. *)
Definition unrepr_char (quote : ascii) (s : string) : option (ascii * string) :=
  match s with
  | EmptyString => None
  | String c rest =>
      if Ascii.eqb c quote then None
      else if Ascii.eqb c backslash then
        match rest with
        | String "t" rest' => Some (ascii_of_N 9, rest')
        | String "n" rest' => Some (ascii_of_N 10, rest')
        | String "r" rest' => Some (ascii_of_N 13, rest')
        | String "x" (String h (String l rest')) =>
            Some (ascii_of_N (16 * hex_value h + hex_value l), rest')
        | String d rest' => Some (d, rest')
        | EmptyString => None
        end
      else Some (c, rest)
  end.

(** Order of [str] values: by code point, left to right. *)
Definition str_le (a b : string) : Prop := String.leb a b = true.

(** Order of [(str, str)] tuples: first components first. *)
Definition tuple_le (x y : string * string) : Prop :=
  if bool_decide (x.1 = y.1) then str_le x.2 y.2 else str_le x.1 y.1.

#[global] Instance tuple_le_dec : RelDecision tuple_le.
Proof.
  intros x y. unfold tuple_le, str_le.
  destruct (bool_decide (x.1 = y.1)); apply _.
Defined.

(** [sorted(items)] *)
Definition sorted (items : list (string * string)) : list (string * string) :=
  merge_sort tuple_le items.

Definition repr_tuple (kv : string * string) : string :=
  "(" +:+ repr kv.1 +:+ ", " +:+ repr kv.2 +:+ ")".

Fixpoint join (sep : string) (parts : list string) : string :=
  match parts with
  | [] => EmptyString
  | [p] => p
  | p :: rest => p +:+ sep +:+ join sep rest
  end.

(** [str(items)] for a list of [(str, str)] tuples. *)
Definition repr_list (items : list (string * string)) : string :=
  "[" +:+ join ", " (repr_tuple <$> items) +:+ "]".

(** [s.encode()]: UTF-8, for code points below 256. *)
Fixpoint encode (s : string) : list N :=
  match s with
  | EmptyString => []
  | String c rest =>
      let n := ord c in
      if (n <? 128)%N then n :: encode rest
      else (192 + n / 64)%N :: (128 + n mod 64)%N :: encode rest
  end.

End Py.

(** [hashlib.sha256(...).hexdigest()] (FIPS 180-4), on 32-bit words held in
    [N]. *)

Module Sha256.

Local Open Scope N_scope.

Definition mask : N := 0xffffffff.
Definition add (x y : N) : N := N.land (x + y) mask.
Definition rotr (n x : N) : N :=
  N.lor (N.shiftr x n) (N.land (N.shiftl x (32 - n)) mask).
Definition ch (x y z : N) : N :=
  N.lxor (N.land x y) (N.land (N.lxor x mask) z).
Definition maj (x y z : N) : N :=
  N.lxor (N.lxor (N.land x y) (N.land x z)) (N.land y z).
Definition bsig0 (x : N) : N := N.lxor (N.lxor (rotr 2 x) (rotr 13 x)) (rotr 22 x).
Definition bsig1 (x : N) : N := N.lxor (N.lxor (rotr 6 x) (rotr 11 x)) (rotr 25 x).
Definition ssig0 (x : N) : N := N.lxor (N.lxor (rotr 7 x) (rotr 18 x)) (N.shiftr x 3).
Definition ssig1 (x : N) : N := N.lxor (N.lxor (rotr 17 x) (rotr 19 x)) (N.shiftr x 10).

(** The constants of the standard: the first 32 bits of the fractional parts
    of the cube roots (for [K]) and of the square roots (for [H0]) of the
    first primes. *)
Definition is_prime (n : N) : bool :=
  forallb (λ d, negb (n mod d =? 0)) (N.of_nat <$> seq 2 (N.to_nat n - 2)).

Definition primes (count : nat) : list N :=
  take count (filter (λ n, is_prime n = true) (N.of_nat <$> seq 2 310)).

(** The integer cube root of [x], found bit by bit below bit [bits]. *)
Fixpoint cube_root (bits : nat) (x root : N) : N :=
  match bits with
  | O => root
  | S lower =>
      let candidate := root + 2 ^ N.of_nat lower in
      cube_root lower x
        (if candidate * candidate * candidate <=? x then candidate else root)
  end.

Definition K : list N :=
  Eval vm_compute in
    (λ p, N.land (cube_root 40 (p * 2 ^ 96) 0) mask) <$> primes 64.

Definition H0 : list N :=
  Eval vm_compute in
    (λ p, N.land (N.sqrt (p * 2 ^ 64)) mask) <$> primes 8.

(** Big-endian bytes of [x], [n] of them. *)
Fixpoint be_bytes (n : nat) (x : N) : list N :=
  match n with
  | O => []
  | S m => be_bytes m (x / 256) ++ [x mod 256]
  end.

Definition pad (msg : list N) : list N :=
  let len := N.of_nat (length msg) in
  let zeros := N.to_nat ((119 - len mod 64) mod 64) in
  msg ++ [0x80] ++ replicate zeros 0 ++ be_bytes 8 (8 * len).

Fixpoint be_words (n : nat) (bytes : list N) : list N :=
  match n, bytes with
  | S m, a :: b :: c :: d :: rest =>
      (((a * 256 + b) * 256 + c) * 256 + d) :: be_words m rest
  | _, _ => []
  end.

(** The message schedule, most recent word first: [sched] holds
    [W(t-1), W(t-2), ...]. *)
Fixpoint schedule (n : nat) (sched : list N) : list N :=
  match n with
  | O => sched
  | S m =>
      let w i := default 0 (sched !! i) in
      let next :=
        add (add (ssig1 (w 1%nat)) (w 6%nat)) (add (ssig0 (w 14%nat)) (w 15%nat)) in
      schedule m (next :: sched)
  end.

Definition round (v : list N) (kw : N * N) : list N :=
  match v with
  | [a; b; c; d; e; f; g; h] =>
      let t1 := add (add (add h (bsig1 e)) (add (ch e f g) kw.1)) kw.2 in
      let t2 := add (bsig0 a) (maj a b c) in
      [add t1 t2; a; b; c; add d t1; e; f; g]
  | _ => v
  end.

Definition compress (h : list N) (block : list N) : list N :=
  let w := reverse (schedule 48 (reverse (be_words 16 block))) in
  zip_with add h (foldl round h (zip K w)).

Fixpoint blocks (n : nat) (h : list N) (bytes : list N) : list N :=
  match n with
  | O => h
  | S m => blocks m (compress h (take 64 bytes)) (drop 64 bytes)
  end.

Definition digest (msg : list N) : list N :=
  let padded := pad msg in
  blocks (length padded / 64) H0 padded.

Definition hex_word (x : N) : string :=
  foldr (λ b acc, Py.hex2 b +:+ acc) EmptyString (be_bytes 4 x).

Definition hexdigest (msg : list N) : string :=
  foldr (λ x acc, hex_word x +:+ acc) EmptyString (digest msg).

End Sha256.

(** ** tracker.py: the sliding-window rate limiter *)

Module RateLimiter.

Record t := mk {
  _max_requests : Z;
  _window_seconds : Z;
  _requests : gmap string (list Z)
}.

(** [RateLimiter(max_requests, window_seconds)]; [_requests] starts as an
    empty [defaultdict(list)]. *)
Definition init (max_requests window_seconds : Z) : t :=
  mk max_requests window_seconds ∅.

(** [self._requests[user_id]] on a [defaultdict(list)]. *)
Definition requests_of (rl : t) (user_id : string) : list Z :=
  default [] (_requests rl !! user_id).

(** [[t for t in self._requests[user_id] if t > window_start]] *)
Definition prune (window_start : Z) (l : list Z) : list Z :=
  filter (λ t, window_start < t) l.

Definition check (user_id : string) (now : Z) (rl : t) : t * bool :=
  let window_start := now - _window_seconds rl in
  let kept := prune window_start (requests_of rl user_id) in
  if Z.of_nat (length kept) >=? _max_requests rl then
    (mk (_max_requests rl) (_window_seconds rl)
        (<[user_id := kept]> (_requests rl)), false)
  else
    (mk (_max_requests rl) (_window_seconds rl)
        (<[user_id := kept ++ [now]]> (_requests rl)), true).

Definition remaining (user_id : string) (now : Z) (rl : t) : t * Z :=
  let window_start := now - _window_seconds rl in
  let kept := prune window_start (requests_of rl user_id) in
  (mk (_max_requests rl) (_window_seconds rl)
      (<[user_id := kept]> (_requests rl)),
   Z.max 0 (_max_requests rl - Z.of_nat (length kept))).

(** A sequence of [check] calls, each with the key it is made for and the
    clock value it reads; the answers are collected in call order. *)
Fixpoint run (calls : list (string * Z)) (rl : t) : t * list bool :=
  match calls with
  | [] => (rl, [])
  | (user_id, now) :: rest =>
      let '(rl1, ok) := check user_id now rl in
      let '(rl2, oks) := run rest rl1 in
      (rl2, ok :: oks)
  end.

(** The clock values of the calls of [calls] made for [user_id] that were
    admitted, in call order. *)
Fixpoint admitted (user_id : string) (calls : list (string * Z)) (rl : t)
  : list Z :=
  match calls with
  | [] => []
  | (k, now) :: rest =>
      let '(rl1, ok) := check k now rl in
      if bool_decide (k = user_id) && ok
      then now :: admitted user_id rest rl1
      else admitted user_id rest rl1
  end.

(** [check] and [remaining] calls in any order, each with the key it is made
    for and the clock value it reads. *)
Inductive Op :=
| Check (user_id : string) (now : Z)
| Remaining (user_id : string) (now : Z).

Definition step (rl : t) (op : Op) : t :=
  match op with
  | Check user_id now => (check user_id now rl).1
  | Remaining user_id now => (remaining user_id now rl).1
  end.

Definition run_ops (ops : list Op) (rl : t) : t := foldl step rl ops.

End RateLimiter.

(** ** tracker.py: the circuit breaker *)

Module CircuitBreaker.

(** The three values [_state] takes: ["closed"], ["open"], ["half-open"]. *)
Inductive State := closed | open | half_open.

#[global] Instance State_eq_dec : EqDecision State.
Proof. solve_decision. Defined.

Record t := mk {
  _threshold : Z;
  _timeout : Z;
  _failures : Z;
  _last_failure : Z;
  _state : State
}.

Definition init (threshold timeout : Z) : t :=
  mk threshold timeout 0 0 closed.

Definition set_state (s : State) (cb : t) : t :=
  mk (_threshold cb) (_timeout cb) (_failures cb) (_last_failure cb) s.

Definition can_execute (now : Z) (cb : t) : t * bool :=
  match _state cb with
  | closed => (cb, true)
  | open =>
      if now - _last_failure cb >=? _timeout cb
      then (set_state half_open cb, true)
      else (cb, false)
  | half_open => (cb, true)
  end.

Definition record_success (cb : t) : t :=
  mk (_threshold cb) (_timeout cb) 0 (_last_failure cb) closed.

Definition record_failure (now : Z) (cb : t) : t :=
  let failures := _failures cb + 1 in
  mk (_threshold cb) (_timeout cb) failures now
     (if failures >=? _threshold cb then open else _state cb).

(** The three operations as a labelled transition system; each label carries
    the clock value the call reads. *)
Inductive Op :=
| CanExecute (now : Z)
| RecordSuccess
| RecordFailure (now : Z).

Definition step (cb : t) (op : Op) : t :=
  match op with
  | CanExecute now => fst (can_execute now cb)
  | RecordSuccess => record_success cb
  | RecordFailure now => record_failure now cb
  end.

Definition run (ops : list Op) (cb : t) : t := foldl step cb ops.

(** States a breaker can be in: those [run] reaches from [init]. *)
Definition reachable (cb : t) : Prop :=
  ∃ threshold timeout ops, cb = run ops (init threshold timeout).

(** What every reachable state satisfies: a breaker that is not closed has
    counted at least [threshold] failures. *)
Definition tripped_implies_threshold (cb : t) : Prop :=
  _state cb ≠ closed → _threshold cb ≤ _failures cb.

(** The answers of a sequence of [can_execute] calls with no [record_*]
    call in between. *)
Fixpoint poll (nows : list Z) (cb : t) : t * list bool :=
  match nows with
  | [] => (cb, [])
  | now :: rest =>
      let '(cb1, ok) := can_execute now cb in
      let '(cb2, oks) := poll rest cb1 in
      (cb2, ok :: oks)
  end.

End CircuitBreaker.

(** ** Calls and errors observed at the gateway *)

(** The calls a gateway operation makes on its collaborators, in the order
    they happen. The trace is ghost state: it records the calls and has no
    influence on them. *)
Inductive Event :=
| EvCanExecute                      (* CircuitBreaker.can_execute *)
| EvCheck (user_id : string)        (* RateLimiter.check *)
| EvUpstream (attempt : nat)        (* one run of the blocking SDK call *)
| EvYield (chunk : string)          (* a chunk handed to the stream's consumer *)
| EvSetCached (key : string)        (* ResearchTool._set_cached *)
| EvClearCache                      (* UsageTracker.clear_cache *)
| EvRecordSuccess                   (* CircuitBreaker.record_success *)
| EvRecordFailure                   (* CircuitBreaker.record_failure *)
| EvUsageGet.                       (* GET https://api.tavily.com/usage *)

#[global] Instance Event_eq_dec : EqDecision Event.
Proof. solve_decision. Defined.

(** What the blocking SDK calls do. *)
Module Sdk.

(** Exceptions of an SDK call. The retry policy tells [ConnectionError] and
    [TimeoutError] from every other [Exception]. *)
Inductive Error :=
| ConnectionError (msg : string)
| TimeoutError (msg : string)
| OtherError (msg : string).

Definition transient (e : Error) : bool :=
  match e with
  | ConnectionError _ | TimeoutError _ => true
  | OtherError _ => false
  end.

(** [str(e)] *)
Definition str (e : Error) : string :=
  match e with
  | ConnectionError msg | TimeoutError msg | OtherError msg => msg
  end.

Inductive Outcome (A : Type) :=
| Returned (a : A)
| Raised (e : Error).
Arguments Returned {A} a.
Arguments Raised {A} e.

End Sdk.

(** The exceptions a gateway operation raises to its caller. *)
Inductive Error :=
| ValidationError (fields : list string)   (* pydantic.ValidationError *)
| ResearchToolError (msg : string) (cause : option Sdk.Error)
| RateLimitError (msg : string)
| CircuitOpenError (msg : string).

(** A JSON object whose members are integers or strings. *)
Module Json.

Record obj := mk { ints : gmap string Z; strs : gmap string string }.

Definition empty : obj := mk ∅ ∅.

(** [o.get(k, d)] *)
Definition get_int (o : obj) (k : string) (d : Z) : Z := default d (ints o !! k).
Definition get_str (o : obj) (k : string) (d : string) : string :=
  default d (strs o !! k).

End Json.

(** ** usage.py *)

Module KeyUsage.

Record t := mk {
  usage : Z;
  limit : Z;
  search_usage : Z;
  extract_usage : Z;
  crawl_usage : Z;
  map_usage : Z;
  research_usage : Z
}.

Definition remaining (k : t) : Z := Z.max 0 (limit k - usage k).

End KeyUsage.

Module AccountUsage.

Record t := mk {
  current_plan : string;
  plan_usage : Z;
  plan_limit : Z;
  paygo_usage : Z;
  paygo_limit : Z;
  search_usage : Z;
  extract_usage : Z;
  crawl_usage : Z;
  map_usage : Z;
  research_usage : Z
}.

Definition plan_remaining (a : t) : Z := Z.max 0 (plan_limit a - plan_usage a).
Definition paygo_remaining (a : t) : Z := Z.max 0 (paygo_limit a - paygo_usage a).

End AccountUsage.

Module TavilyUsage.

Record t := mk { key : KeyUsage.t; account : AccountUsage.t }.

End TavilyUsage.

Module UsageTracker.

Record t := mk {
  _api_key : string;
  _cached : option TavilyUsage.t
}.

Definition init (api_key : string) : t := mk api_key None.

(** What the GET on the usage endpoint does: it fails (transport error or
    [raise_for_status]) or yields the JSON document [data]. *)
Inductive Response :=
| HttpError (msg : string)
| HttpJson (data : gmap string Json.obj).

(** The snapshot built from [data], with the defaults of the [get] calls. *)
Definition snapshot_of (data : gmap string Json.obj) : TavilyUsage.t :=
  let key_data := default Json.empty (data !! "key"%string) in
  let account_data := default Json.empty (data !! "account"%string) in
  TavilyUsage.mk
    (KeyUsage.mk
       (Json.get_int key_data "usage" 0)
       (Json.get_int key_data "limit" 0)
       (Json.get_int key_data "search_usage" 0)
       (Json.get_int key_data "extract_usage" 0)
       (Json.get_int key_data "crawl_usage" 0)
       (Json.get_int key_data "map_usage" 0)
       (Json.get_int key_data "research_usage" 0))
    (AccountUsage.mk
       (Json.get_str account_data "current_plan" "unknown")
       (Json.get_int account_data "plan_usage" 0)
       (Json.get_int account_data "plan_limit" 0)
       (Json.get_int account_data "paygo_usage" 0)
       (Json.get_int account_data "paygo_limit" 0)
       (Json.get_int account_data "search_usage" 0)
       (Json.get_int account_data "extract_usage" 0)
       (Json.get_int account_data "crawl_usage" 0)
       (Json.get_int account_data "map_usage" 0)
       (Json.get_int account_data "research_usage" 0)).

(** [fetch(force)]; [resp] is what the endpoint does if it is asked. The
    result is the new tracker, the calls made, and the exception message or
    the snapshot returned. *)
Definition fetch (force : bool) (resp : Response) (ut : t)
  : t * list Event * (string + TavilyUsage.t) :=
  match _cached ut, force with
  | Some snapshot, false => (ut, [], inr snapshot)
  | _, _ =>
      match resp with
      | HttpError msg => (ut, [EvUsageGet], inl msg)
      | HttpJson data =>
          let snapshot := snapshot_of data in
          (mk (_api_key ut) (Some snapshot), [EvUsageGet], inr snapshot)
      end
  end.

Definition clear_cache (ut : t) : t := mk (_api_key ut) None.

Definition can_use (operation : string) (count : Z) (resp : Response) (ut : t)
  : t * list Event * (string + bool) :=
  match fetch false resp ut with
  | (ut1, tr, inr usage) =>
      (ut1, tr, inr (negb (KeyUsage.remaining (TavilyUsage.key usage) <? count)))
  | (ut1, tr, inl msg) => (ut1, tr, inl msg)
  end.

(** The dictionary [get_remaining] returns. *)
Record Remaining := mk_remaining {
  key_remaining : Z;
  plan_remaining : Z;
  paygo_remaining : Z
}.

Definition get_remaining (resp : Response) (ut : t)
  : t * list Event * (string + Remaining) :=
  match fetch false resp ut with
  | (ut1, tr, inr usage) =>
      (ut1, tr,
       inr (mk_remaining
              (KeyUsage.remaining (TavilyUsage.key usage))
              (AccountUsage.plan_remaining (TavilyUsage.account usage))
              (AccountUsage.paygo_remaining (TavilyUsage.account usage))))
  | (ut1, tr, inl msg) => (ut1, tr, inl msg)
  end.

End UsageTracker.

(** ** models.py *)

Module ResearchModel.

Inductive t := MINI | PRO | AUTO.

Definition value (m : t) : string :=
  match m with MINI => "mini" | PRO => "pro" | AUTO => "auto" end.

End ResearchModel.

Module Source.

Record t := mk { url : string; title : string; favicon : option string }.

End Source.

Module ResearchResult.

Record t := mk {
  request_id : string;
  status : string;
  content : string;
  sources : list Source.t;
  model : string;
  cached : bool
}.

(** [r.cached = b] *)
Definition set_cached (b : bool) (r : t) : t :=
  mk (request_id r) (status r) (content r) (sources r) (model r) b.

End ResearchResult.

Module SearchResult.

Record t := mk {
  query : string;
  answer : option string;
  results : list Json.obj;
  response_time : Z;
  cached : bool
}.

Definition set_cached (b : bool) (r : t) : t :=
  mk (query r) (answer r) (results r) (response_time r) b.

End SearchResult.

Module ExtractResult.

Record t := mk { results : list Json.obj; failed_results : list string }.

End ExtractResult.

(** The [query] validator shared by [ResearchRequest] and [SearchRequest]:
    the error message of the [ValueError], or the stripped query. *)
Definition query_not_empty (v : string) : string + string :=
  if bool_decide (v = ""%string) || bool_decide (Py.strip v = ""%string)
  then inl "query cannot be empty"%string
  else if 10000 <? Py.len v then inl "query too long"%string
  else inr (Py.strip v).

(** Whether a validator returned rather than raised. *)
Definition is_ok {A B : Type} (r : A + B) : bool :=
  match r with inr _ => true | inl _ => false end.

(** [Field(ge=lo, le=hi)] *)
Definition in_range (lo hi n : Z) : bool := (lo <=? n) && (n <=? hi).

(** The names of the fields whose check failed, in field order. *)
Definition failed_fields (checks : list (string * bool)) : list string :=
  (filter (λ c, c.2 = false) checks).*1.

Module ResearchRequest.

Record t := mk {
  query : string;
  model : ResearchModel.t;
  max_results : Z;
  include_domains : list string;
  exclude_domains : list string
}.

(** [ResearchRequest(query=..., model=..., ...)] *)
Definition validate (query : string) (model : ResearchModel.t) (max_results : Z)
    (include_domains exclude_domains : list string) : Error + t :=
  let q := query_not_empty query in
  let errors := failed_fields [("query"%string, is_ok q);
                               ("max_results"%string, in_range 1 50 max_results)] in
  match q, errors with
  | inr stripped, [] =>
      inr (mk stripped model max_results include_domains exclude_domains)
  | _, _ => inl (ValidationError errors)
  end.

End ResearchRequest.

Module SearchRequest.

Record t := mk {
  query : string;
  search_depth : string;
  max_results : Z;
  include_domains : list string;
  exclude_domains : list string;
  include_answer : bool;
  include_raw_content : bool
}.

(** [pattern="^(basic|advanced)$"] *)
Definition depth_ok (d : string) : bool :=
  bool_decide (d = "basic"%string) || bool_decide (d = "advanced"%string).

Definition validate (query search_depth : string) (max_results : Z)
    (include_domains exclude_domains : list string)
    (include_answer include_raw_content : bool) : Error + t :=
  let q := query_not_empty query in
  let errors := failed_fields [("query"%string, is_ok q);
                               ("search_depth"%string, depth_ok search_depth);
                               ("max_results"%string, in_range 1 50 max_results)] in
  match q, errors with
  | inr stripped, [] =>
      inr (mk stripped search_depth max_results include_domains exclude_domains
              include_answer include_raw_content)
  | _, _ => inl (ValidationError errors)
  end.

End SearchRequest.

Module ExtractRequest.

Record t := mk { urls : list string; include_images : bool }.

(** The [urls] validator: the message of the [ValueError] for the first URL
    that has neither scheme, or the list. *)
Fixpoint urls_valid (v : list string) : string + list string :=
  match v with
  | [] => inr []
  | url :: rest =>
      if Py.startswith url "http://" || Py.startswith url "https://"
      then match urls_valid rest with
           | inr _ => inr v
           | inl msg => inl msg
           end
      else inl ("invalid URL: " +:+ url)%string
  end.

Definition validate (urls : list string) (include_images : bool) : Error + t :=
  if in_range 1 20 (Z.of_nat (length urls)) && is_ok (urls_valid urls)
  then inr (mk urls include_images)
  else inl (ValidationError ["urls"%string]).

(** [url.startswith(("http://", "https://"))] *)
Definition has_scheme (url : string) : bool :=
  Py.startswith url "http://" || Py.startswith url "https://".

End ExtractRequest.

(** ** research.py *)

(** The settings [ResearchTool.__init__] reads from [config]. *)
Module Config.

Record t := mk {
  tavily_api_key : string;
  research_rate_limit_per_minute : Z;
  circuit_breaker_threshold : Z;
  circuit_breaker_timeout : Z
}.

End Config.

Module ResearchTool.

(** What the cache holds: results of [research] and of [search]. *)
Inductive Cached :=
| CachedResearch (r : ResearchResult.t)
| CachedSearch (r : SearchResult.t).

(** [cached.cached = True] *)
Definition mark (c : Cached) : Cached :=
  match c with
  | CachedResearch r => CachedResearch (ResearchResult.set_cached true r)
  | CachedSearch r => CachedSearch (SearchResult.set_cached true r)
  end.

Definition cached_flag (c : Cached) : bool :=
  match c with
  | CachedResearch r => ResearchResult.cached r
  | CachedSearch r => SearchResult.cached r
  end.

(** A cache entry [{"data": data, "ts": ts}]. *)
Record Entry := mk_entry { data : Cached; ts : Z }.

Record t := mk {
  _cache : gmap string Entry;
  _rate_limiter : RateLimiter.t;
  _circuit_breaker : CircuitBreaker.t;
  _usage_tracker : UsageTracker.t
}.

(** The tool [ResearchTool()] builds in a fresh process: the three
    singletons are created with the configured values and the window of 60
    seconds, and the cache is empty. *)
Definition create (config : Config.t) : t :=
  mk ∅
     (RateLimiter.init (Config.research_rate_limit_per_minute config) 60)
     (CircuitBreaker.init (Config.circuit_breaker_threshold config)
                          (Config.circuit_breaker_timeout config))
     (UsageTracker.init (Config.tavily_api_key config)).

(** [ResearchTool()] *)
Definition init (config : Config.t) : Error + t :=
  if bool_decide (Config.tavily_api_key config = ""%string)
  then inl (ResearchToolError "TAVILY_API_KEY is required" None)
  else inr (create config).

(** The clock values one call reads, by the place that reads them. *)
Record Clock := mk_clock {
  at_can_execute : Z;
  at_check : Z;
  at_get_cached : Z;
  at_set_cached : Z;
  at_record_failure : Z
}.

(** *** The monad of a gateway call

    A call transforms the tool, appends to the trace, and returns a value or
    raises; a raise keeps the state changes made so far. *)
Definition M (A : Type) : Type := t → t * list Event * (Error + A).

Definition ret {A : Type} (a : A) : M A := λ st, (st, [], inr a).

Definition raise {A : Type} (e : Error) : M A := λ st, (st, [], inl e).

Definition bind {A B : Type} (m : M A) (k : A → M B) : M B :=
  λ st,
    match m st with
    | (st1, tr1, inl e) => (st1, tr1, inl e)
    | (st1, tr1, inr a) =>
        match k a st1 with
        | (st2, tr2, r) => (st2, tr1 ++ tr2, r)
        end
    end.

#[global] Instance M_ret : MRet M := @ret.
#[global] Instance M_bind : MBind M := λ A B k m, bind m k.

Definition emit (ev : Event) : M unit := λ st, (st, [ev], inr tt).

(** A pydantic model constructor: its error is raised as it is. *)
Definition validated {A : Type} (r : Error + A) : M A :=
  match r with
  | inl e => raise e
  | inr a => ret a
  end.

(** *** The collaborators, lifted to the tool *)

Definition can_execute (now : Z) : M bool :=
  λ st,
    match CircuitBreaker.can_execute now (_circuit_breaker st) with
    | (cb, ok) =>
        (mk (_cache st) (_rate_limiter st) cb (_usage_tracker st),
         [EvCanExecute], inr ok)
    end.

Definition record_success : M unit :=
  λ st,
    (mk (_cache st) (_rate_limiter st)
        (CircuitBreaker.record_success (_circuit_breaker st)) (_usage_tracker st),
     [EvRecordSuccess], inr tt).

Definition record_failure (now : Z) : M unit :=
  λ st,
    (mk (_cache st) (_rate_limiter st)
        (CircuitBreaker.record_failure now (_circuit_breaker st))
        (_usage_tracker st),
     [EvRecordFailure], inr tt).

Definition check (user_id : string) (now : Z) : M bool :=
  λ st,
    match RateLimiter.check user_id now (_rate_limiter st) with
    | (rl, ok) =>
        (mk (_cache st) rl (_circuit_breaker st) (_usage_tracker st),
         [EvCheck user_id], inr ok)
    end.

Definition clear_cache : M unit :=
  λ st,
    (mk (_cache st) (_rate_limiter st) (_circuit_breaker st)
        (UsageTracker.clear_cache (_usage_tracker st)),
     [EvClearCache], inr tt).

(** *** The cache *)

(** The string [data] that [_cache_key] hashes. *)
Definition _cache_key_data (prefix : string) (kwargs : list (string * string))
  : string :=
  (prefix +:+ ":" +:+ Py.repr_list (Py.sorted kwargs))%string.

Definition _cache_key (prefix : string) (kwargs : list (string * string))
  : string :=
  let data := _cache_key_data prefix kwargs in
  Sha256.hexdigest (Py.encode data).

(** The lookup of [_get_cached] on the cache alone. *)
Definition lookup_valid (cache : gmap string Entry) (key : string) (now : Z)
  : option Cached :=
  match cache !! key with
  | Some entry => if now - ts entry <? 3600 then Some (data entry) else None
  | None => None
  end.

Definition _get_cached (key : string) (now : Z) : M (option Cached) :=
  λ st, (st, [], inr (lookup_valid (_cache st) key now)).

Definition _set_cached (key : string) (d : Cached) (now : Z) : M unit :=
  λ st,
    (mk (<[key := mk_entry d now]> (_cache st)) (_rate_limiter st)
        (_circuit_breaker st) (_usage_tracker st),
     [EvSetCached key], inr tt).

(** [cached.cached = True] on the object returned by [_get_cached]: the
    object is the one the cache entry holds, so the entry changes with it. *)
Definition mark_cached (key : string) : M unit :=
  λ st,
    (mk (alter (λ e, mk_entry (mark (data e)) (ts e)) key (_cache st))
        (_rate_limiter st) (_circuit_breaker st) (_usage_tracker st),
     [], inr tt).

(** *** Admission *)

Definition _check_limits (user_id : string) (clk : Clock) : M unit :=
  ok ← can_execute (at_can_execute clk);
  if negb ok then raise (CircuitOpenError "Service temporarily unavailable")
  else
    ok ← check user_id (at_check clk);
    if negb ok
    then raise (RateLimitError ("Rate limit exceeded for user " +:+ user_id))
    else ret tt.

(** *** The retry policy and the bridge

    [@retry(stop=stop_after_attempt(3), retry=retry_if_exception_type(
    (ConnectionError, TimeoutError)), reraise=True)]: [body n] is what the
    [n]-th run of the decorated function does; attempts are numbered from 1.
    The result is the runs made and the final outcome. *)
Fixpoint retry_from {A : Type} (more : nat) (attempt : nat)
    (body : nat → Sdk.Outcome A) : list Event * Sdk.Outcome A :=
  match body attempt with
  | Sdk.Returned a => ([EvUpstream attempt], Sdk.Returned a)
  | Sdk.Raised e =>
      if Sdk.transient e then
        match more with
        | O => ([EvUpstream attempt], Sdk.Raised e)
        | S fewer =>
            match retry_from fewer (S attempt) body with
            | (tr, o) => (EvUpstream attempt :: tr, o)
            end
        end
      else ([EvUpstream attempt], Sdk.Raised e)
  end.

Definition with_retry {A : Type} (body : nat → Sdk.Outcome A)
  : list Event * Sdk.Outcome A :=
  retry_from 2 1 body.

(** A call that is not decorated runs once. *)
Definition once {A : Type} (body : Sdk.Outcome A) : list Event * Sdk.Outcome A :=
  ([EvUpstream 1], body).

(** [await loop.run_in_executor(self._executor, f, ...)] inside the [try]:
    the outcome of [f] is handed to the [try] statement. *)
Definition run_in_executor {A : Type} (f : list Event * Sdk.Outcome A)
  : M (Sdk.Outcome A) :=
  λ st, (st, f.1, inr f.2).

(** The [except Exception as e] branch shared by the operations. *)
Definition failed {A : Type} (what : string) (e : Sdk.Error) (clk : Clock) : M A :=
  record_failure (at_record_failure clk);;
  raise (ResearchToolError (what +:+ " failed: " +:+ Sdk.str e) (Some e)).

(** *** research *)

(** What the two SDK calls of [_research_sync] deliver, with the defaults of
    the [get] calls applied. *)
Record SdkResearch := mk_sdk_research {
  sdk_request_id : string;
  sdk_status : string;
  sdk_content : string;
  sdk_sources : list Source.t
}.

Definition _research_sync (req : ResearchRequest.t)
    (upstream : Sdk.Outcome SdkResearch) : Sdk.Outcome ResearchResult.t :=
  match upstream with
  | Sdk.Raised e => Sdk.Raised e
  | Sdk.Returned r =>
      Sdk.Returned
        (ResearchResult.mk (sdk_request_id r) (sdk_status r) (sdk_content r)
           (sdk_sources r) (ResearchModel.value (ResearchRequest.model req))
           false)
  end.

Definition research (query : string) (model : ResearchModel.t) (max_results : Z)
    (include_domains exclude_domains : option (list string))
    (user_id session_id : string)
    (clk : Clock) (upstream : nat → Sdk.Outcome SdkResearch) : M Cached :=
  req ← validated (ResearchRequest.validate query model max_results
                      (default [] include_domains) (default [] exclude_domains));
  _check_limits user_id clk;;
  let cache_key :=
    _cache_key "research"
      [("query"%string, ResearchRequest.query req);
       ("model"%string, ResearchModel.value (ResearchRequest.model req))] in
  cached ← _get_cached cache_key (at_get_cached clk);
  match cached with
  | Some hit => mark_cached cache_key;; ret (mark hit)
  | None =>
      outcome ← run_in_executor
                   (with_retry (λ n, _research_sync req (upstream n)));
      match outcome with
      | Sdk.Returned result =>
          _set_cached cache_key (CachedResearch result) (at_set_cached clk);;
          clear_cache;;
          record_success;;
          ret (CachedResearch result)
      | Sdk.Raised e => failed "Research" e clk
      end
  end.

(** *** research_stream *)

(** What the streaming SDK call delivers: the decoded chunks it yields, and
    the exception that ends the iteration if it does not end by exhaustion. *)
Record SdkStream := mk_sdk_stream {
  sdk_chunks : list string;
  sdk_failure : option Sdk.Error
}.

Fixpoint yield_all (chunks : list string) : M unit :=
  match chunks with
  | [] => ret tt
  | chunk :: rest => emit (EvYield chunk);; yield_all rest
  end.

(** How the consumer of the generator stops it before its end, if it does.
    [AtCall]: the consumer's task is cancelled while the generator awaits
    the SDK call; [started] says whether a worker thread had taken the call
    by then (a call still queued is cancelled with the task, a call that
    runs is not). [AtChunk]: the generator is closed, or the task cancelled,
    while the generator is suspended at the [yield] of the chunk with this
    index, counted from 0. The generator then gets [CancelledError] or
    [GeneratorExit] inside its [try]; neither is an [Exception], so the
    [except] clause does not run. *)
Inductive Stop :=
| AtCall (started : bool)
| AtChunk (index : nat).

(** The chunks handed over before the consumer stops the generator, when the
    stream has the chunk it is stopped at. *)
Definition taken (stop : option Stop) (chunks : list string)
  : option (list string) :=
  match stop with
  | Some (AtChunk index) =>
      if bool_decide (index < length chunks)%nat
      then Some (take (S index) chunks)
      else None
  | _ => None
  end.

(** The generator with its consumer: [stop] is [None] when the consumer
    takes every chunk and lets the generator run to its end. The result
    says whether the generator ran to its end. *)
Definition research_stream (query : string) (model : ResearchModel.t)
    (user_id session_id : string)
    (clk : Clock) (upstream : Sdk.Outcome SdkStream) (stop : option Stop)
  : M bool :=
  req ← validated (ResearchRequest.validate query model 10 [] []);
  _check_limits user_id clk;;
  match stop with
  | Some (AtCall started) =>
      (if started then emit (EvUpstream 1) else ret tt);;
      ret false
  | _ =>
      outcome ← run_in_executor (once upstream);
      match outcome with
      | Sdk.Returned stream =>
          match taken stop (sdk_chunks stream) with
          | Some chunks => yield_all chunks;; ret false
          | None =>
              yield_all (sdk_chunks stream);;
              match sdk_failure stream with
              | None => clear_cache;; record_success;; ret true
              | Some e => failed "Research stream" e clk
              end
          end
      | Sdk.Raised e => failed "Research stream" e clk
      end
  end.

(** *** search *)

Record SdkSearch := mk_sdk_search {
  sdk_query : option string;
  sdk_answer : option string;
  sdk_results : list Json.obj;
  sdk_response_time : Z
}.

Definition _search_sync (req : SearchRequest.t)
    (upstream : Sdk.Outcome SdkSearch) : Sdk.Outcome SearchResult.t :=
  match upstream with
  | Sdk.Raised e => Sdk.Raised e
  | Sdk.Returned r =>
      Sdk.Returned
        (SearchResult.mk (default (SearchRequest.query req) (sdk_query r))
           (sdk_answer r) (sdk_results r) (sdk_response_time r) false)
  end.

Definition search (query search_depth : string) (max_results : Z)
    (include_domains exclude_domains : option (list string))
    (include_answer include_raw_content : bool)
    (user_id session_id : string)
    (clk : Clock) (upstream : nat → Sdk.Outcome SdkSearch) : M Cached :=
  req ← validated (SearchRequest.validate query search_depth max_results
                      (default [] include_domains) (default [] exclude_domains)
                      include_answer include_raw_content);
  _check_limits user_id clk;;
  let cache_key :=
    _cache_key "search"
      [("query"%string, SearchRequest.query req);
       ("depth"%string, SearchRequest.search_depth req)] in
  cached ← _get_cached cache_key (at_get_cached clk);
  match cached with
  | Some hit => mark_cached cache_key;; ret (mark hit)
  | None =>
      outcome ← run_in_executor
                   (with_retry (λ n, _search_sync req (upstream n)));
      match outcome with
      | Sdk.Returned result =>
          _set_cached cache_key (CachedSearch result) (at_set_cached clk);;
          clear_cache;;
          record_success;;
          ret (CachedSearch result)
      | Sdk.Raised e => failed "Search" e clk
      end
  end.

(** *** extract *)

Definition _extract_sync (req : ExtractRequest.t)
    (upstream : Sdk.Outcome ExtractResult.t) : Sdk.Outcome ExtractResult.t :=
  upstream.

Definition extract (urls : list string) (include_images : bool)
    (user_id session_id : string)
    (clk : Clock) (upstream : nat → Sdk.Outcome ExtractResult.t)
  : M ExtractResult.t :=
  req ← validated (ExtractRequest.validate urls include_images);
  _check_limits user_id clk;;
  outcome ← run_in_executor
               (with_retry (λ n, _extract_sync req (upstream n)));
  match outcome with
  | Sdk.Returned result => clear_cache;; record_success;; ret result
  | Sdk.Raised e => failed "Extract" e clk
  end.

(** *** get_context and qna *)

(** [not query or not query.strip()] *)
Definition blank (query : string) : bool :=
  bool_decide (query = ""%string) || bool_decide (Py.strip query = ""%string).

Definition get_context (query : string) (max_tokens : Z)
    (user_id session_id : string)
    (clk : Clock) (upstream : Sdk.Outcome string) : M string :=
  if blank query then raise (ResearchToolError "query cannot be empty" None)
  else
    _check_limits user_id clk;;
    outcome ← run_in_executor (once upstream);
    match outcome with
    | Sdk.Returned result => clear_cache;; record_success;; ret result
    | Sdk.Raised e => failed "Get context" e clk
    end.

Definition qna (query : string) (user_id session_id : string)
    (clk : Clock) (upstream : Sdk.Outcome string) : M string :=
  if blank query then raise (ResearchToolError "query cannot be empty" None)
  else
    _check_limits user_id clk;;
    outcome ← run_in_executor (once upstream);
    match outcome with
    | Sdk.Returned result => clear_cache;; record_success;; ret result
    | Sdk.Raised e => failed "QnA" e clk
    end.

(** [get_usage(force)] *)
Definition get_usage (force : bool) (resp : UsageTracker.Response)
  : t → t * list Event * (string + TavilyUsage.t) :=
  λ st,
    match UsageTracker.fetch force resp (_usage_tracker st) with
    | (ut, tr, r) =>
        (mk (_cache st) (_rate_limiter st) (_circuit_breaker st) ut, tr, r)
    end.

(** [get_remaining_credits()] *)
Definition get_remaining_credits (resp : UsageTracker.Response)
  : t → t * list Event * (string + UsageTracker.Remaining) :=
  λ st,
    match UsageTracker.get_remaining resp (_usage_tracker st) with
    | (ut, tr, r) =>
        (mk (_cache st) (_rate_limiter st) (_circuit_breaker st) ut, tr, r)
    end.

End ResearchTool.

(** ** The gateway operations as one family

    [Call] is a call of one of the six public operations with its arguments
    and with what the SDK does when it is run; [invoke] dispatches it. A
    call of [research_stream] comes with what its consumer does as well:
    [ResearchStream] is the stream consumed to its end, [ResearchStreamStopped]
    the stream its consumer stops. The five other operations are awaited to
    their end. *)

Module Gateway.

Import ResearchTool.

Inductive Call :=
| Research (query : string) (model : ResearchModel.t) (max_results : Z)
    (include_domains exclude_domains : option (list string))
    (upstream : nat → Sdk.Outcome SdkResearch)
| ResearchStream (query : string) (model : ResearchModel.t)
    (upstream : Sdk.Outcome SdkStream)
| Search (query search_depth : string) (max_results : Z)
    (include_domains exclude_domains : option (list string))
    (include_answer include_raw_content : bool)
    (upstream : nat → Sdk.Outcome SdkSearch)
| Extract (urls : list string) (include_images : bool)
    (upstream : nat → Sdk.Outcome ExtractResult.t)
| GetContext (query : string) (max_tokens : Z) (upstream : Sdk.Outcome string)
| Qna (query : string) (upstream : Sdk.Outcome string)
| ResearchStreamStopped (query : string) (model : ResearchModel.t)
    (upstream : Sdk.Outcome SdkStream) (stop : Stop).

Inductive Reply :=
| Result (c : Cached)             (* research, search *)
| Extracted (r : ExtractResult.t) (* extract *)
| Text (s : string)               (* get_context, qna *)
| Exhausted                       (* research_stream ran to its end *)
| Stopped.                        (* research_stream was stopped by its consumer *)

Definition ended (complete : bool) : Reply :=
  if complete then Exhausted else Stopped.

Definition reply {A : Type} (f : A → Reply) (m : M A) : M Reply :=
  λ st,
    match m st with
    | (st1, tr, inl e) => (st1, tr, inl e)
    | (st1, tr, inr a) => (st1, tr, inr (f a))
    end.

Definition invoke (c : Call) (user_id session_id : string) (clk : Clock)
  : M Reply :=
  match c with
  | Research q m n incl excl up =>
      reply Result (research q m n incl excl user_id session_id clk up)
  | ResearchStream q m up =>
      reply ended (research_stream q m user_id session_id clk up None)
  | Search q d n incl excl ans raw up =>
      reply Result (search q d n incl excl ans raw user_id session_id clk up)
  | Extract urls images up =>
      reply Extracted (extract urls images user_id session_id clk up)
  | GetContext q n up =>
      reply Text (get_context q n user_id session_id clk up)
  | Qna q up => reply Text (qna q user_id session_id clk up)
  | ResearchStreamStopped q m up stop =>
      reply ended (research_stream q m user_id session_id clk up (Some stop))
  end.

(** The operation's name in the message of the error that wraps an SDK
    failure. *)
Definition label (c : Call) : string :=
  match c with
  | Research _ _ _ _ _ _ => "Research"
  | ResearchStream _ _ _ => "Research stream"
  | Search _ _ _ _ _ _ _ _ => "Search"
  | Extract _ _ _ => "Extract"
  | GetContext _ _ _ => "Get context"
  | Qna _ _ => "QnA"
  | ResearchStreamStopped _ _ _ _ => "Research stream"
  end.

Definition forget {A : Type} (o : Sdk.Outcome A) : Sdk.Outcome unit :=
  match o with
  | Sdk.Returned _ => Sdk.Returned tt
  | Sdk.Raised e => Sdk.Raised e
  end.

Definition raised {A : Type} (o : Sdk.Outcome A) : option Sdk.Error :=
  match o with
  | Sdk.Returned _ => None
  | Sdk.Raised e => Some e
  end.

(** The SDK call and the chunks handed over by a stream that its consumer
    stops, when the stream gets to the point where it is stopped. *)
Definition stopped (c : Call) : option (list Event) :=
  match c with
  | ResearchStreamStopped _ _ up stop =>
      match stop, up with
      | AtCall started, _ => Some (if started then [EvUpstream 1] else [])
      | AtChunk _, Sdk.Returned stream =>
          match taken (Some stop) (sdk_chunks stream) with
          | Some chunks => Some (EvUpstream 1 :: (EvYield <$> chunks))
          | None => None
          end
      | AtChunk _, Sdk.Raised _ => None
      end
  | _ => None
  end.

(** The exception the SDK part of a call ends with, if it ends with one:
    after the retry policy for the decorated functions, and at the end of the
    iteration for the stream. A stream stopped by its consumer ends with
    none. *)
Definition failure (c : Call) : option Sdk.Error :=
  match c with
  | Research _ _ _ _ _ up => raised (with_retry (λ n, forget (up n))).2
  | Search _ _ _ _ _ _ _ up => raised (with_retry (λ n, forget (up n))).2
  | Extract _ _ up => raised (with_retry (λ n, forget (up n))).2
  | ResearchStream _ _ up =>
      match up with
      | Sdk.Raised e => Some e
      | Sdk.Returned stream => sdk_failure stream
      end
  | GetContext _ _ up => raised up
  | Qna _ up => raised up
  | ResearchStreamStopped _ _ up _ =>
      match stopped c with
      | Some _ => None
      | None =>
          match up with
          | Sdk.Raised e => Some e
          | Sdk.Returned stream => sdk_failure stream
          end
      end
  end.

(** The runs of the SDK call and the chunks yielded, once the call of [c]
    gets to the SDK and is not stopped. *)
Definition runs (c : Call) : list Event :=
  match c with
  | Research _ _ _ _ _ up => (with_retry (λ n, forget (up n))).1
  | Search _ _ _ _ _ _ _ up => (with_retry (λ n, forget (up n))).1
  | Extract _ _ up => (with_retry (λ n, forget (up n))).1
  | ResearchStream _ _ up =>
      EvUpstream 1 ::
      match up with
      | Sdk.Raised _ => []
      | Sdk.Returned stream => EvYield <$> sdk_chunks stream
      end
  | GetContext _ _ _ => [EvUpstream 1]
  | Qna _ _ => [EvUpstream 1]
  | ResearchStreamStopped _ _ up _ =>
      EvUpstream 1 ::
      match up with
      | Sdk.Raised _ => []
      | Sdk.Returned stream => EvYield <$> sdk_chunks stream
      end
  end.

(** What a call returns when its SDK part ends with a result: the result
    built from what the SDK delivers. *)
Definition answer (c : Call) : option Reply :=
  match c with
  | Research _ m _ _ _ up =>
      match (with_retry up).2 with
      | Sdk.Returned r =>
          Some (Result (CachedResearch
                  (ResearchResult.mk (sdk_request_id r) (sdk_status r)
                     (sdk_content r) (sdk_sources r) (ResearchModel.value m)
                     false)))
      | Sdk.Raised _ => None
      end
  | Search q _ _ _ _ _ _ up =>
      match (with_retry up).2 with
      | Sdk.Returned r =>
          Some (Result (CachedSearch
                  (SearchResult.mk (default (Py.strip q) (sdk_query r))
                     (sdk_answer r) (sdk_results r) (sdk_response_time r)
                     false)))
      | Sdk.Raised _ => None
      end
  | Extract _ _ up =>
      match (with_retry up).2 with
      | Sdk.Returned r => Some (Extracted r)
      | Sdk.Raised _ => None
      end
  | GetContext _ _ up | Qna _ up =>
      match up with
      | Sdk.Returned text => Some (Text text)
      | Sdk.Raised _ => None
      end
  | ResearchStream _ _ _ | ResearchStreamStopped _ _ _ _ =>
      match failure c with
      | None => Some Exhausted
      | Some _ => None
      end
  end.

(** The cache key of a call of a cached operation. *)
Definition cache_key (c : Call) : option string :=
  match c with
  | Research q m _ _ _ _ =>
      Some (_cache_key "research"
              [("query"%string, Py.strip q); ("model"%string, ResearchModel.value m)])
  | Search q d _ _ _ _ _ _ =>
      Some (_cache_key "search"
              [("query"%string, Py.strip q); ("depth"%string, d)])
  | _ => None
  end.

(** The errors raised by the validation step: pydantic's, and the check of
    [get_context] and [qna], which has no cause. *)
Definition is_validation (e : Error) : bool :=
  match e with
  | ValidationError _ => true
  | ResearchToolError _ None => true
  | _ => false
  end.

Definition is_sdk_event (ev : Event) : bool :=
  match ev with
  | EvUpstream _ | EvYield _ => true
  | _ => false
  end.

(** Whether the validation step of the operation lets the call through. *)
Definition valid (c : Call) : bool :=
  match c with
  | Research q m n incl excl _ =>
      is_ok (ResearchRequest.validate q m n (default [] incl) (default [] excl))
  | ResearchStream q m _ => is_ok (ResearchRequest.validate q m 10 [] [])
  | Search q d n incl excl ans raw _ =>
      is_ok (SearchRequest.validate q d n (default [] incl) (default [] excl)
               ans raw)
  | Extract urls images _ => is_ok (ExtractRequest.validate urls images)
  | GetContext q _ _ => negb (blank q)
  | Qna q _ => negb (blank q)
  | ResearchStreamStopped q m _ _ =>
      is_ok (ResearchRequest.validate q m 10 [] [])
  end.

(** The answers of the two admission checks of [_check_limits] on [st]. *)
Definition breaker_lets (clk : Clock) (st : t) : bool :=
  (CircuitBreaker.can_execute (at_can_execute clk) (_circuit_breaker st)).2.

Definition limiter_lets (user_id : string) (clk : Clock) (st : t) : bool :=
  (RateLimiter.check user_id (at_check clk) (_rate_limiter st)).2.

(** The valid entry the cache has for the call, if the operation is cached
    and there is one. *)
Definition cache_hit (c : Call) (clk : Clock) (st : t) : option Cached :=
  match cache_key c with
  | Some key => lookup_valid (_cache st) key (at_get_cached clk)
  | None => None
  end.

(** The tool after the two admission checks of [_check_limits]. *)
Definition admitted (user_id : string) (clk : Clock) (st : t) : t :=
  mk (_cache st)
     (RateLimiter.check user_id (at_check clk) (_rate_limiter st)).1
     (CircuitBreaker.can_execute (at_can_execute clk) (_circuit_breaker st)).1
     (_usage_tracker st).

(** The cache after [cached.cached = True] on the entry of [key]. *)
Definition marked (key : string) (cache : gmap string Entry) : gmap string Entry :=
  alter (λ e, mk_entry (mark (data e)) (ts e)) key cache.

(** The cache after the result [r] of a call of [c] has been stored. *)
Definition stored (c : Call) (clk : Clock) (r : Reply)
    (cache : gmap string Entry) : gmap string Entry :=
  match cache_key c, r with
  | Some key, Result d => <[key := mk_entry d (at_set_cached clk)]> cache
  | _, _ => cache
  end.

Definition store_events (c : Call) : list Event :=
  match cache_key c with
  | Some key => [EvSetCached key]
  | None => []
  end.

(** A result that does not come from the cache. A stream that its
    consumer stops has no result. *)
Definition fresh (r : Reply) : bool :=
  match r with
  | Result d => negb (cached_flag d)
  | Stopped => false
  | _ => true
  end.

(** The ways a call goes, each with the final state, the trace and the
    result it has: the six ways of a call that runs to its end, and the way
    of a stream that its consumer stops. *)
Inductive Path (c : Call) (user_id : string) (clk : Clock) (st : t)
  : t → list Event → Error + Reply → Prop :=
| path_invalid e :
    valid c = false →
    is_validation e = true →
    Path c user_id clk st st [] (inl e)
| path_open :
    valid c = true →
    breaker_lets clk st = false →
    Path c user_id clk st st [EvCanExecute]
      (inl (CircuitOpenError "Service temporarily unavailable"))
| path_limited :
    valid c = true →
    breaker_lets clk st = true →
    limiter_lets user_id clk st = false →
    Path c user_id clk st (admitted user_id clk st)
      [EvCanExecute; EvCheck user_id]
      (inl (RateLimitError ("Rate limit exceeded for user " +:+ user_id)))
| path_hit key hit :
    valid c = true →
    breaker_lets clk st = true →
    limiter_lets user_id clk st = true →
    cache_key c = Some key →
    cache_hit c clk st = Some hit →
    Path c user_id clk st
      (let a := admitted user_id clk st in
       mk (marked key (_cache a)) (_rate_limiter a) (_circuit_breaker a)
          (_usage_tracker a))
      [EvCanExecute; EvCheck user_id]
      (inr (Result (mark hit)))
| path_success r :
    valid c = true →
    breaker_lets clk st = true →
    limiter_lets user_id clk st = true →
    cache_hit c clk st = None →
    failure c = None →
    fresh r = true →
    stopped c = None →
    answer c = Some r →
    Path c user_id clk st
      (let a := admitted user_id clk st in
       mk (stored c clk r (_cache a)) (_rate_limiter a)
          (CircuitBreaker.record_success (_circuit_breaker a))
          (UsageTracker.clear_cache (_usage_tracker a)))
      ([EvCanExecute; EvCheck user_id] ++ runs c ++ store_events c
       ++ [EvClearCache; EvRecordSuccess])
      (inr r)
| path_failure e :
    valid c = true →
    breaker_lets clk st = true →
    limiter_lets user_id clk st = true →
    cache_hit c clk st = None →
    failure c = Some e →
    Path c user_id clk st
      (let a := admitted user_id clk st in
       mk (_cache a) (_rate_limiter a)
          (CircuitBreaker.record_failure (at_record_failure clk)
             (_circuit_breaker a))
          (_usage_tracker a))
      ([EvCanExecute; EvCheck user_id] ++ runs c ++ [EvRecordFailure])
      (inl (ResearchToolError (label c +:+ " failed: " +:+ Sdk.str e) (Some e)))
| path_stopped events :
    valid c = true →
    breaker_lets clk st = true →
    limiter_lets user_id clk st = true →
    cache_key c = None →
    cache_hit c clk st = None →
    failure c = None →
    stopped c = Some events →
    Path c user_id clk st (admitted user_id clk st)
      ([EvCanExecute; EvCheck user_id] ++ events)
      (inr Stopped).

(** A call with the caller's identity and the clock values it reads. *)
Record Request := mk_request {
  req_call : Call;
  req_user : string;
  req_session : string;
  req_clock : Clock
}.

(** Calls served one after the other; the results are collected in call
    order. *)
Fixpoint serve (reqs : list Request) (st : t) : t * list (Error + Reply) :=
  match reqs with
  | [] => (st, [])
  | r :: rest =>
      match invoke (req_call r) (req_user r) (req_session r) (req_clock r) st with
      | (st1, _, res) =>
          match serve rest st1 with
          | (st2, results) => (st2, res :: results)
          end
      end
  end.

End Gateway.

(** ** The objects of the process *)

(** The module globals [_rate_limiter] and [_circuit_breaker] of tracker.py
    and [_usage_tracker] of usage.py, each [None] until its accessor is
    first called, and the class attribute [ResearchTool._cache]. A tool
    refers to these objects; the value of a tool is their state. *)
Module Process.

Record t := mk {
  _rate_limiter : option RateLimiter.t;
  _circuit_breaker : option CircuitBreaker.t;
  _usage_tracker : option UsageTracker.t;
  _cache : gmap string ResearchTool.Entry
}.

(** The process before any accessor has been called. *)
Definition start : t := mk None None None ∅.

Definition get_rate_limiter (max_requests window_seconds : Z) (p : t)
  : t * RateLimiter.t :=
  match _rate_limiter p with
  | None =>
      let rl := RateLimiter.init max_requests window_seconds in
      (mk (Some rl) (_circuit_breaker p) (_usage_tracker p) (_cache p), rl)
  | Some rl => (p, rl)
  end.

Definition get_circuit_breaker (threshold timeout : Z) (p : t)
  : t * CircuitBreaker.t :=
  match _circuit_breaker p with
  | None =>
      let cb := CircuitBreaker.init threshold timeout in
      (mk (_rate_limiter p) (Some cb) (_usage_tracker p) (_cache p), cb)
  | Some cb => (p, cb)
  end.

Definition get_usage_tracker (api_key : string) (p : t) : t * UsageTracker.t :=
  match _usage_tracker p with
  | None =>
      let ut := UsageTracker.init api_key in
      (mk (_rate_limiter p) (_circuit_breaker p) (Some ut) (_cache p), ut)
  | Some ut => (p, ut)
  end.

(** [ResearchTool()], with the settings [config] holds when it runs. *)
Definition construct (config : Config.t) (p : t)
  : t * (Error + ResearchTool.t) :=
  if bool_decide (Config.tavily_api_key config = ""%string)
  then (p, inl (ResearchToolError "TAVILY_API_KEY is required" None))
  else
    let '(p1, rl) :=
      get_rate_limiter (Config.research_rate_limit_per_minute config) 60 p in
    let '(p2, cb) :=
      get_circuit_breaker (Config.circuit_breaker_threshold config)
        (Config.circuit_breaker_timeout config) p1 in
    let '(p3, ut) := get_usage_tracker (Config.tavily_api_key config) p2 in
    (p3, inr (ResearchTool.mk (_cache p3) rl cb ut)).

(** The process in which the objects of a tool are in the state [st]. *)
Definition holding (st : ResearchTool.t) : t :=
  mk (Some (ResearchTool._rate_limiter st))
     (Some (ResearchTool._circuit_breaker st))
     (Some (ResearchTool._usage_tracker st))
     (ResearchTool._cache st).

End Process.

(** ** Concrete runs *)

Module Scenario.

Import ResearchTool Gateway.

(** The default settings of [config], and settings with a cap of one
    request, a threshold of one failure and a timeout of five seconds. *)
Definition defaults : Config.t := Config.mk "tvly-key" 30 5 60.
Definition tight : Config.t := Config.mk "tvly-key" 1 1 5.
Definition one_strike : Config.t := Config.mk "tvly-key" 30 1 60.

(** A call all of whose clock readings are [now]. *)
Definition at_time (now : Z) : Clock := mk_clock now now now now now.

Definition report : SdkResearch :=
  mk_sdk_research "req-1" "completed" "findings" [].

Definition answers (n : nat) : Sdk.Outcome SdkResearch := Sdk.Returned report.

Definition times_out {A : Type} (n : nat) : Sdk.Outcome A :=
  Sdk.Raised (Sdk.TimeoutError "timed out").

Definition breaks : Sdk.Outcome string := Sdk.Raised (Sdk.OtherError "boom").

(** [research("x", model=pro)] *)
Definition research_x : Call :=
  Research "x" ResearchModel.PRO 10 None None answers.

(** The result of [research_x] as [_research_sync] builds it. *)
Definition findings : Cached :=
  CachedResearch (ResearchResult.mk "req-1" "completed" "findings" [] "pro" false).

(** A document of the usage endpoint: 120 of 1000 credits used. *)
Definition quota : gmap string Json.obj :=
  {[ "key"%string :=
       Json.mk {[ "usage"%string := 120; "limit"%string := 1000 ]} ∅ ]}.

(** The tool after the call [c] made by user [u1] at time [now]. *)
Definition after (c : Call) (now : Z) (st : t) : t :=
  (invoke c "u1" "s1" (at_time now) st).1.1.

End Scenario.

(** * Proof tools *)

(** Closed goals made of equations between values of the model: both sides
    are evaluated. *)
Ltac by_computation := vm_compute; repeat split; reflexivity.

(** * Properties of the circuit breaker *)

Section BreakerProperties.

Import CircuitBreaker.

Lemma step_preserves_tripped cb op :
  tripped_implies_threshold cb → tripped_implies_threshold (step cb op).
Proof.
  unfold tripped_implies_threshold.
  destruct cb as [th to f lf s], op as [now| |now]; simpl; intros Hinv.
  - unfold can_execute; simpl. destruct s; simpl; try done.
    destruct (now - lf >=? to); simpl; auto.
  - done.
  - destruct (Z.geb_spec (f + 1) th) as [Hge|Hlt]; [lia|].
    intros Hs. specialize (Hinv Hs). lia.
Qed.

Lemma run_preserves_tripped ops cb :
  tripped_implies_threshold cb → tripped_implies_threshold (run ops cb).
Proof.
  revert cb. induction ops as [|op ops IH]; intros cb Hinv; [done|].
  apply IH, step_preserves_tripped, Hinv.
Qed.

Lemma reachable_tripped cb : reachable cb → tripped_implies_threshold cb.
Proof.
  intros (threshold & timeout & ops & ->).
  apply run_preserves_tripped. intros Hs. by destruct Hs.
Qed.

Lemma last_cons_indep (x : Z) (l : list Z) (d d' : Z) :
  List.last (x :: l) d = List.last (x :: l) d'.
Proof. revert x. induction l as [|y l IH]; intros x; [done|]. apply (IH y). Qed.

(** Failures recorded one after the other on a closed breaker are counted,
    and the last one is remembered. *)
Lemma run_failures nows cb :
  let cb' := run (RecordFailure <$> nows) cb in
  _threshold cb' = _threshold cb
  ∧ _timeout cb' = _timeout cb
  ∧ _failures cb' = _failures cb + Z.of_nat (length nows)
  ∧ _last_failure cb' = List.last nows (_last_failure cb).
Proof.
  revert cb. induction nows as [|now nows IH]; intros cb.
  - simpl. repeat split; lia.
  - change (run (RecordFailure <$> now :: nows) cb)
      with (run (RecordFailure <$> nows) (record_failure now cb)).
    destruct (IH (record_failure now cb)) as (Hth & Hto & Hf & Hl).
    cbv zeta. rewrite Hth, Hto, Hf, Hl. simpl _threshold. simpl _timeout.
    simpl _failures. simpl _last_failure.
    repeat split; try (rewrite length_cons; lia).
    destruct nows as [|x l]; [done|].
    change (List.last (now :: x :: l) (_last_failure cb))
      with (List.last (x :: l) (_last_failure cb)).
    apply last_cons_indep.
Qed.

Lemma run_snoc ops op cb : run (ops ++ [op]) cb = step (run ops cb) op.
Proof. unfold run. by rewrite foldl_app. Qed.

(** C1. From a closed breaker with no failure counted, [threshold] calls of
    [record_failure] in a row leave the breaker open, and [can_execute]
    answers false as long as fewer than [timeout] seconds have passed since
    the last of them. From a half-open state, [record_success] sets the
    count to zero and closes the breaker, and [record_failure] stores the
    clock as the time of the last failure, adds one to the count and opens
    the breaker again. *)
Theorem breaker_trips_and_recovers (cb : t) (nows : list Z) (last : Z) :
  _state cb = closed →
  _failures cb = 0 →
  Z.of_nat (length (nows ++ [last])) = _threshold cb →
  let tripped := run (RecordFailure <$> (nows ++ [last])) cb in
  (_state tripped = open
   ∧ _failures tripped = _threshold cb
   ∧ _last_failure tripped = last
   ∧ ∀ now, now - last < _timeout cb → can_execute now tripped = (tripped, false))
  ∧ ∀ probing, reachable probing → _state probing = half_open →
      record_success probing
      = mk (_threshold probing) (_timeout probing) 0 (_last_failure probing) closed
      ∧ ∀ now, record_failure now probing
               = mk (_threshold probing) (_timeout probing)
                    (_failures probing + 1) now open.
Proof.
  intros Hclosed Hzero Hlen tripped. split.
  - destruct (run_failures (nows ++ [last]) cb) as (Hth & Hto & Hf & Hl).
    fold tripped in Hth, Hto, Hf, Hl.
    rewrite last_last in Hl. rewrite Hzero, Hlen in Hf. simpl in Hf.
    assert (Hopen : _state tripped = open).
    { subst tripped. rewrite fmap_app. simpl. rewrite run_snoc. simpl.
      destruct (run_failures nows cb) as (Hth' & _ & Hf' & _).
      rewrite Hth', Hf', Hzero.
      rewrite length_app in Hlen. simpl in Hlen.
      destruct (Z.geb_spec (0 + Z.of_nat (length nows) + 1) (_threshold cb)); [done|lia]. }
    repeat split; try done.
    intros now Hnow. unfold can_execute. rewrite Hopen, Hl, Hto.
    destruct (Z.geb_spec (now - last) (_timeout cb)); [lia|done].
  - intros probing Hreach Hhalf. split; [done|].
    intros now. unfold record_failure. simpl.
    pose proof (reachable_tripped probing Hreach) as Hinv.
    unfold tripped_implies_threshold in Hinv. rewrite Hhalf in Hinv.
    destruct (Z.geb_spec (_failures probing + 1) (_threshold probing)); [done|].
    assert (_threshold probing ≤ _failures probing) by (by apply Hinv). lia.
Qed.

Lemma breaker_trips_and_recovers_witness :
  let cb := init 2 5 in
  let tripped := run [RecordFailure 10; RecordFailure 11] cb in
  (_state tripped = open
   ∧ _failures tripped = 2
   ∧ _last_failure tripped = 11
   ∧ ∀ now, now - 11 < 5 → can_execute now tripped = (tripped, false))
  ∧ ∀ probing, reachable probing → _state probing = half_open →
      record_success probing
      = mk (_threshold probing) (_timeout probing) 0 (_last_failure probing) closed
      ∧ ∀ now, record_failure now probing
               = mk (_threshold probing) (_timeout probing)
                    (_failures probing + 1) now open.
Proof.
  exact (breaker_trips_and_recovers (init 2 5) [10] 11 eq_refl eq_refl eq_refl).
Defined.

(** Scenario B of the specification: threshold 2 and timeout 5. *)
Example breaker_scenario_b :
  let tripped := run [RecordFailure 100; RecordFailure 100] (init 2 5) in
  _state tripped = open
  ∧ (can_execute 100 tripped).2 = false
  ∧ can_execute 106 tripped = (set_state half_open tripped, true).
Proof. by_computation. Qed.

(** C4. Along every sequence of [can_execute], [record_success] and
    [record_failure] calls from the initial closed state: when the state is
    open, the failure count is at least the threshold; and a call that moves
    the breaker into the half-open state is a [can_execute] on an open
    breaker made at least [timeout] seconds after the last failure. *)
Theorem breaker_invariant (threshold timeout : Z) (ops : list Op) :
  let cb := run ops (init threshold timeout) in
  (_state cb = open → _threshold cb ≤ _failures cb)
  ∧ ∀ op, _state cb ≠ half_open → _state (step cb op) = half_open →
      ∃ now, op = CanExecute now
             ∧ _state cb = open
             ∧ _timeout cb ≤ now - _last_failure cb.
Proof.
  intros cb. split.
  - intros Hopen.
    apply (reachable_tripped cb); [by exists threshold, timeout, ops|].
    by rewrite Hopen.
  - intros op Hnot Hhalf. destruct op as [now| |now]; simpl in Hhalf.
    + exists now. unfold can_execute in Hhalf.
      destruct (_state cb) eqn:Hs; simpl in Hhalf; [congruence| |congruence].
      destruct (Z.geb_spec (now - _last_failure cb) (_timeout cb)) as [Hge|Hlt].
      * split; [done|]. split; [done|lia].
      * simpl in Hhalf. congruence.
    + done.
    + destruct (_failures cb + 1 >=? _threshold cb); [done|]. congruence.
Qed.

(** C10. [record_success] is defined on every state; whatever the state
    was, the count is zero and the breaker is closed afterwards, the other
    fields are kept, and the next [can_execute] answers true. *)
Theorem record_success_closes (cb : t) :
  let cb' := record_success cb in
  _failures cb' = 0
  ∧ _state cb' = closed
  ∧ _threshold cb' = _threshold cb
  ∧ _timeout cb' = _timeout cb
  ∧ _last_failure cb' = _last_failure cb
  ∧ ∀ now, can_execute now cb' = (cb', true).
Proof. by repeat split. Qed.

(** A success reported to an open breaker that let no probe through. *)
Example record_success_on_open :
  let tripped := run [RecordFailure 1; RecordFailure 2] (init 2 60) in
  _state tripped = open
  ∧ record_success tripped = mk 2 60 0 2 closed.
Proof. by_computation. Qed.

(** Answers of an open breaker that is polled: false before the timeout has
    passed, true from the first poll after it. *)
Lemma poll_early cb early rest :
  _state cb = open →
  Forall (λ now, now - _last_failure cb < _timeout cb) early →
  poll (early ++ rest) cb
  = ((poll rest cb).1, replicate (length early) false ++ (poll rest cb).2).
Proof.
  intros Hopen. induction 1 as [|now early Hnow _ IH]; simpl.
  - by destruct (poll rest cb).
  - unfold can_execute at 1. rewrite Hopen.
    destruct (Z.geb_spec (now - _last_failure cb) (_timeout cb)); [lia|].
    by rewrite IH.
Qed.

Lemma poll_half_open cb later :
  _state cb = half_open →
  poll later cb = (cb, replicate (length later) true).
Proof.
  intros Hhalf. induction later as [|now later IH]; simpl; [done|].
  unfold can_execute. rewrite Hhalf. by rewrite IH.
Qed.

(** C2, as the code has it. An open breaker answers false to every
    [can_execute] made before [timeout] seconds have passed since the last
    failure; the first [can_execute] made after that answers true and makes
    the breaker half-open; and every later [can_execute], until the next
    [record_success] or [record_failure], answers true as well. *)
Theorem open_breaker_polling (cb : t) (early : list Z) (probe : Z) (later : list Z) :
  _state cb = open →
  Forall (λ now, now - _last_failure cb < _timeout cb) early →
  _timeout cb ≤ probe - _last_failure cb →
  poll (early ++ probe :: later) cb
  = (set_state half_open cb,
     replicate (length early) false ++ true :: replicate (length later) true).
Proof.
  intros Hopen Hearly Hprobe.
  rewrite (poll_early cb early (probe :: later) Hopen Hearly). simpl.
  unfold can_execute at 1 2. rewrite Hopen.
  destruct (Z.geb_spec (probe - _last_failure cb) (_timeout cb)); [|lia].
  by rewrite (poll_half_open (set_state half_open cb) later eq_refl).
Qed.

Lemma open_breaker_polling_witness :
  poll ([101; 104] ++ 105 :: [106; 107]) (mk 2 5 2 100 open)
  = (set_state half_open (mk 2 5 2 100 open),
     replicate 2 false ++ true :: replicate 2 true).
Proof.
  apply (open_breaker_polling (mk 2 5 2 100 open) [101; 104] 105 [106; 107]).
  - reflexivity.
  - repeat constructor.
  - simpl. lia.
Defined.

(** The breaker of scenario B, polled three times after the timeout with no
    outcome reported in between: the three calls are let through. *)
Lemma half_open_admits_every_call :
  let tripped := run [RecordFailure 100; RecordFailure 100] (init 2 5) in
  _state tripped = open
  ∧ (poll [106; 107; 108] tripped).2 = [true; true; true]
  ∧ _state (poll [106; 107; 108] tripped).1 = half_open.
Proof. by_computation. Qed.

End BreakerProperties.

(** * Properties of the rate limiter *)

Section LimiterProperties.

Import RateLimiter.

Lemma geb_true_iff a b : (a >=? b) = true ↔ b ≤ a.
Proof. destruct (Z.geb_spec a b); split; intros; (done || lia). Qed.

Lemma geb_false_iff a b : (a >=? b) = false ↔ a < b.
Proof. destruct (Z.geb_spec a b); split; intros; (done || lia). Qed.

Lemma prune_prune w1 w2 l : w1 ≤ w2 → prune w2 (prune w1 l) = prune w2 l.
Proof.
  intros Hw. unfold prune. rewrite list_filter_filter.
  apply list_filter_iff. intros t. lia.
Qed.

Lemma prune_app w l1 l2 : prune w (l1 ++ l2) = prune w l1 ++ prune w l2.
Proof. apply filter_app. Qed.

Lemma prune_length_mono w1 w2 l :
  w1 ≤ w2 → (length (prune w2 l) ≤ length (prune w1 l))%nat.
Proof. intros Hw. rewrite <- (prune_prune w1 w2 l Hw). apply length_filter. Qed.

Lemma prune_all_expired w l : Forall (λ t, t ≤ w) l → prune w l = [].
Proof.
  induction 1 as [|t l Ht _ IH]; [done|].
  unfold prune in *. rewrite filter_cons_False by lia. done.
Qed.

Lemma requests_of_init max_requests window user_id :
  requests_of (init max_requests window) user_id = [].
Proof. unfold requests_of, init. simpl. by rewrite lookup_empty. Qed.

Lemma check_config user_id now rl :
  _max_requests (check user_id now rl).1 = _max_requests rl
  ∧ _window_seconds (check user_id now rl).1 = _window_seconds rl.
Proof. unfold check. by case_match. Qed.

(** The answer of [check] is decided by the timestamps of the key that are
    still in the window. *)
Lemma check_answer user_id now rl :
  (check user_id now rl).2
  = negb (Z.of_nat (length (prune (now - _window_seconds rl)
                              (requests_of rl user_id)))
          >=? _max_requests rl).
Proof. unfold check. by case_match. Qed.

Lemma check_requests_same user_id now rl :
  requests_of (check user_id now rl).1 user_id
  = prune (now - _window_seconds rl) (requests_of rl user_id)
    ++ (if (check user_id now rl).2 then [now] else []).
Proof.
  unfold check. case_match; unfold requests_of; simpl;
    rewrite lookup_insert_eq; simpl; by rewrite ?app_nil_r.
Qed.

Lemma check_requests_other user_id other now rl :
  other ≠ user_id →
  requests_of (check other now rl).1 user_id = requests_of rl user_id.
Proof.
  intros Hne. unfold check. case_match; unfold requests_of; simpl;
    by rewrite lookup_insert_ne.
Qed.

Lemma run_config calls rl :
  _max_requests (run calls rl).1 = _max_requests rl
  ∧ _window_seconds (run calls rl).1 = _window_seconds rl.
Proof.
  revert rl. induction calls as [|[k now] calls IH]; intros rl; [done|].
  simpl. destruct (check k now rl) as [rl1 ok] eqn:Hc.
  destruct (run calls rl1) as [rl2 oks] eqn:Hr. simpl.
  destruct (IH rl1) as [Hm Hw]. rewrite Hr in Hm, Hw. simpl in Hm, Hw.
  destruct (check_config k now rl) as [Hm1 Hw1]. rewrite Hc in Hm1, Hw1.
  simpl in Hm1, Hw1. split; congruence.
Qed.

(** Seen through a window that starts no earlier than any window used so
    far, the timestamps kept for a key are those the key had at the start
    followed by the clock values of its admitted calls. *)
Lemma run_requests calls rl user_id w :
  Forall (λ c, c.2 - _window_seconds rl ≤ w) calls →
  prune w (requests_of (run calls rl).1 user_id)
  = prune w (requests_of rl user_id ++ admitted user_id calls rl).
Proof.
  revert rl. induction calls as [|[k now] calls IH]; intros rl Hw.
  - simpl. by rewrite app_nil_r.
  - apply Forall_cons in Hw as [Hnow Hw]. simpl in Hnow. simpl.
    pose proof (check_config k now rl) as [_ Hwin].
    pose proof (check_requests_same k now rl) as Hsame.
    pose proof (check_requests_other user_id k now rl) as Hother.
    destruct (check k now rl) as [rl1 ok] eqn:Hc. simpl in *.
    specialize (IH rl1). rewrite Hwin in IH. specialize (IH Hw).
    destruct (run calls rl1) as [rl2 oks] eqn:Hr. simpl in *.
    rewrite IH, !prune_app.
    destruct (decide (k = user_id)) as [->|Hne].
    + rewrite Hsame, prune_app, prune_prune by lia.
      rewrite bool_decide_eq_true_2 by done. simpl.
      rewrite <- app_assoc. f_equal.
      destruct ok; simpl; [|done].
      by rewrite <- prune_app.
    + rewrite Hother by done. rewrite bool_decide_eq_false_2 by done. done.
Qed.

Lemma admitted_snoc user_id calls k now rl :
  admitted user_id (calls ++ [(k, now)]) rl
  = admitted user_id calls rl
    ++ (if bool_decide (k = user_id) && (check k now (run calls rl).1).2
        then [now] else []).
Proof.
  revert rl. induction calls as [|[k' now'] calls IH]; intros rl; simpl.
  - destruct (check k now rl) as [rl1 ok]. simpl. by case_match.
  - destruct (check k' now' rl) as [rl1 ok] eqn:Hc.
    rewrite IH. destruct (run calls rl1) as [rl2 oks] eqn:Hr. simpl.
    by case_match.
Qed.

(** The admitted calls of a key that fall into one trailing window never
    outnumber the cap, when the clock does not go back. *)
Lemma admitted_bounded max_requests window calls user_id now :
  0 ≤ max_requests →
  StronglySorted Z.le (calls.*2 ++ [now]) →
  Z.of_nat (length (prune (now - window)
                      (admitted user_id calls (init max_requests window))))
  ≤ max_requests.
Proof.
  intros Hmax. revert now.
  induction calls as [|[k t] calls IH] using rev_ind; intros now Hsorted.
  - simpl. lia.
  - rewrite fmap_app in Hsorted. simpl in Hsorted.
    apply StronglySorted_app in Hsorted as (Hle & Hcalls & _).
    assert (t ≤ now) as Htnow.
    { apply (Hle t now); [apply elem_of_app; right|]; apply list_elem_of_singleton; done. }
    assert (StronglySorted Z.le (calls.*2 ++ [now])) as Hsorted_now.
    { apply StronglySorted_app. split_and!.
      - intros x1 x2 Hx1 Hx2. apply Hle; [|done]. apply elem_of_app. by left.
      - by apply StronglySorted_app in Hcalls as (_ & ? & _).
      - repeat constructor. }
    rewrite admitted_snoc.
    destruct (bool_decide (k = user_id) && _) eqn:Hadm.
    + apply andb_true_iff in Hadm as [Hk Hok].
      apply bool_decide_eq_true in Hk as ->.
      rewrite check_answer in Hok. apply negb_true_iff in Hok.
      destruct (run_config calls (init max_requests window)) as [Hm Hw].
      rewrite Hm, Hw in Hok. simpl in Hok.
      apply geb_false_iff in Hok.
      rewrite run_requests in Hok.
      2:{ apply Forall_forall. intros [k' t'] Hin. simpl.
          assert (t' ≤ t); [|lia].
          apply StronglySorted_app in Hcalls as (Hle' & _ & _).
          apply (Hle' t' t); [|set_solver].
          apply list_elem_of_fmap. by exists (k', t'). }
      rewrite requests_of_init in Hok. simpl in Hok.
      rewrite prune_app, length_app.
      pose proof (prune_length_mono (t - window) (now - window)
                    (admitted user_id calls (init max_requests window))
                    ltac:(lia)) as Hmono.
      pose proof (length_filter (λ t0, now - window < t0) [t]) as Hone.
      simpl in Hone. unfold prune in *. lia.
    + rewrite app_nil_r. by apply IH.
Qed.

(** C3. For every key of a limiter with a positive cap, along calls whose
    clock values do not decrease, where an admitted call is within the
    window that ends now when its clock value is later than now minus the
    window: the admitted calls of the key within the window are at most
    [max_requests]; when they are exactly [max_requests], the next [check]
    of the key answers false, and in general [check] answers true exactly
    when they are fewer than [max_requests]; when [check] answers true the
    list kept for the key has at most [max_requests] entries; when no
    admitted call of the key is within the window any more, [check] answers
    true, and once every admitted call of the key is [window] seconds old or
    older the key starts afresh: [check] answers true and the list kept is
    the new clock value alone. With cap 2 and window 60, three checks of one
    key within the same window are answered true, true, false, and a fourth
    check 60 seconds or more after the first is answered true. *)
Theorem rate_limiter_sliding_window (max_requests window : Z)
    (calls : list (string * Z)) (user_id : string) (now : Z) :
  0 < max_requests →
  StronglySorted Z.le (calls.*2 ++ [now]) →
  let rl := (run calls (init max_requests window)).1 in
  let granted := admitted user_id calls (init max_requests window) in
  let within := filter (λ t, now - window < t) granted in
  Z.of_nat (length within) ≤ max_requests
  ∧ (Z.of_nat (length within) = max_requests → (check user_id now rl).2 = false)
  ∧ ((check user_id now rl).2 = true
     ↔ Z.of_nat (length within) < max_requests)
  ∧ ((check user_id now rl).2 = true →
     Z.of_nat (length (requests_of (check user_id now rl).1 user_id))
     ≤ max_requests)
  ∧ (within = [] → (check user_id now rl).2 = true)
  ∧ ((∀ t, t ∈ granted → t + window ≤ now) →
     (check user_id now rl).2 = true
     ∧ requests_of (check user_id now rl).1 user_id = [now])
  ∧ ∀ t1 t2 t3, t1 ≤ t2 → t2 ≤ t3 → t3 - 60 < t1 →
      (run [(user_id, t1); (user_id, t2); (user_id, t3)] (init 2 60)).2
      = [true; true; false]
      ∧ ∀ t4, t3 ≤ t4 → t1 + 60 ≤ t4 →
          (run [(user_id, t1); (user_id, t2); (user_id, t3); (user_id, t4)]
               (init 2 60)).2
          = [true; true; false; true].
Proof.
  intros Hmax Hsorted rl granted within.
  destruct (run_config calls (init max_requests window)) as [Hm Hw].
  fold rl in Hm, Hw. simpl in Hm, Hw.
  assert (prune (now - window) (requests_of rl user_id) = within) as Hkept.
  { subst rl within granted.
    rewrite run_requests; [by rewrite requests_of_init|].
    apply Forall_forall. intros [k t] Hin. simpl.
    apply StronglySorted_app in Hsorted as (Hle & _ & _).
    assert (t ≤ now); [|lia].
    apply (Hle t now); [|set_solver]. apply list_elem_of_fmap. by exists (k, t). }
  assert ((check user_id now rl).2 = true
          ↔ Z.of_nat (length within) < max_requests) as Hanswer.
  { rewrite check_answer, Hm, Hw, Hkept, negb_true_iff, geb_false_iff. lia. }
  assert (Z.of_nat (length within) ≤ max_requests) as Hbound.
  { apply (admitted_bounded max_requests window calls user_id now); [lia|done]. }
  split_and!.
  - done.
  - intros Hfull. apply not_true_is_false. rewrite Hanswer. lia.
  - done.
  - intros Hok. rewrite check_requests_same, Hok, length_app, Hw, Hkept. simpl.
    apply Hanswer in Hok. lia.
  - intros Hnone. apply Hanswer. rewrite Hnone. simpl. lia.
  - intros Hold.
    assert (within = []) as Hnone.
    { subst within. clear Hkept Hanswer Hbound.
      induction granted as [|t l IH]; [done|].
      rewrite filter_cons_False.
      - apply IH. intros t' Hin. apply Hold. by right.
      - specialize (Hold t ltac:(by left)). lia. }
    assert ((check user_id now rl).2 = true) as Hok.
    { apply Hanswer. rewrite Hnone. simpl. lia. }
    split; [done|].
    by rewrite check_requests_same, Hok, Hw, Hkept, Hnone.
  - intros t1 t2 t3 H12 H23 H31.
    assert (∀ l : gmap string (list Z),
              (<[user_id := [t1; t2]]> l : gmap string (list Z)) !! user_id
              = Some [t1; t2]) as Hlook.
    { intros l. apply lookup_insert_eq. }
    split.
    + unfold run, check, requests_of, prune, init. simpl.
      rewrite lookup_empty. simpl. rewrite lookup_insert_eq. simpl.
      rewrite filter_cons_True by lia. simpl.
      rewrite lookup_insert_eq. simpl.
      rewrite !filter_cons_True by lia. done.
    + intros t4 H34 H14.
      unfold run, check, requests_of, prune, init. simpl.
      rewrite lookup_empty. simpl. rewrite lookup_insert_eq. simpl.
      rewrite filter_cons_True by lia. simpl.
      rewrite lookup_insert_eq. simpl.
      rewrite !filter_cons_True by lia. simpl.
      rewrite lookup_insert_eq. simpl.
      rewrite (filter_cons_False _ t1) by lia.
      destruct (decide (t4 - 60 < t2)).
      * rewrite filter_cons_True by done. done.
      * rewrite filter_cons_False by done. done.
Qed.

Lemma rate_limiter_sliding_window_witness :
  let calls := [("u1"%string, 100); ("u2"%string, 101); ("u1"%string, 102)] in
  let rl := (run calls (init 2 60)).1 in
  let granted := admitted "u1" calls (init 2 60) in
  let within := filter (λ t, 103 - 60 < t) granted in
  Z.of_nat (length within) ≤ 2
  ∧ (Z.of_nat (length within) = 2 → (check "u1" 103 rl).2 = false)
  ∧ ((check "u1" 103 rl).2 = true ↔ Z.of_nat (length within) < 2)
  ∧ ((check "u1" 103 rl).2 = true →
     Z.of_nat (length (requests_of (check "u1" 103 rl).1 "u1")) ≤ 2)
  ∧ (within = [] → (check "u1" 103 rl).2 = true)
  ∧ ((∀ t, t ∈ granted → t + 60 ≤ 103) →
     (check "u1" 103 rl).2 = true
     ∧ requests_of (check "u1" 103 rl).1 "u1" = [103])
  ∧ ∀ t1 t2 t3, t1 ≤ t2 → t2 ≤ t3 → t3 - 60 < t1 →
      (run [("u1"%string, t1); ("u1"%string, t2); ("u1"%string, t3)]
           (init 2 60)).2
      = [true; true; false]
      ∧ ∀ t4, t3 ≤ t4 → t1 + 60 ≤ t4 →
          (run [("u1"%string, t1); ("u1"%string, t2); ("u1"%string, t3);
                ("u1"%string, t4)] (init 2 60)).2
          = [true; true; false; true].
Proof.
  apply (rate_limiter_sliding_window 2 60
           [("u1"%string, 100); ("u2"%string, 101); ("u1"%string, 102)]
           "u1" 103).
  - lia.
  - simpl. repeat constructor; lia.
Defined.

(** Scenario A of the specification, and the window running out. *)
Example limiter_scenario_a :
  (run [("u1"%string, 1000); ("u1"%string, 1000); ("u1"%string, 1000);
        ("u1"%string, 1059); ("u1"%string, 1060)] (init 2 60)).2
  = [true; true; false; false; true].
Proof. by_computation. Qed.

End LimiterProperties.

(** * Properties of the gateway *)

Section GatewayProperties.

Import ResearchTool Gateway.

Local Opaque _cache_key.

Lemma tool_eta st :
  mk (_cache st) (_rate_limiter st) (_circuit_breaker st) (_usage_tracker st) = st.
Proof. by destruct st. Qed.

(** A breaker that refuses is left as it was. *)
Lemma can_execute_refused now cb :
  (CircuitBreaker.can_execute now cb).2 = false →
  (CircuitBreaker.can_execute now cb).1 = cb.
Proof.
  unfold CircuitBreaker.can_execute.
  destruct (CircuitBreaker._state cb); try done.
  by destruct (_ >=? _).
Qed.

Lemma check_limits_run user_id clk st :
  _check_limits user_id clk st
  = if breaker_lets clk st then
      if limiter_lets user_id clk st
      then (admitted user_id clk st, [EvCanExecute; EvCheck user_id], inr tt)
      else (admitted user_id clk st, [EvCanExecute; EvCheck user_id],
            inl (RateLimitError ("Rate limit exceeded for user " +:+ user_id)))
    else (st, [EvCanExecute],
          inl (CircuitOpenError "Service temporarily unavailable")).
Proof.
  unfold _check_limits, breaker_lets, limiter_lets, admitted.
  unfold mbind, M_bind, bind, can_execute, check.
  pose proof (can_execute_refused (at_can_execute clk) (_circuit_breaker st)) as Href.
  destruct (CircuitBreaker.can_execute _ _) as [cb [|]]; simpl in *.
  - destruct (RateLimiter.check _ _ _) as [rl [|]]; simpl; done.
  - rewrite Href by done. by rewrite tool_eta.
Qed.

Lemma retry_from_through {A B : Type} (f : nat → Sdk.Outcome A)
    (g : nat → Sdk.Outcome B) more attempt :
  (∀ n, forget (f n) = forget (g n)) →
  (retry_from more attempt f).1 = (retry_from more attempt g).1
  ∧ forget (retry_from more attempt f).2 = forget (retry_from more attempt g).2.
Proof.
  intros Hfg. revert attempt.
  induction more as [|more IH]; intros attempt; simpl;
    specialize (Hfg attempt) as Hn;
    destruct (f attempt) as [a|e], (g attempt) as [b|e']; simplify_eq/=; try done.
  - by destruct (Sdk.transient e').
  - destruct (Sdk.transient e'); [|done].
    destruct (IH (S attempt)) as [H1 H2].
    destruct (retry_from more (S attempt) f), (retry_from more (S attempt) g).
    simpl in *. by subst.
Qed.

(** What a decorated function does under the retry policy, read off the
    call: its runs are [runs c] and it raises what [failure c] says. *)
Lemma with_retry_outcome {A : Type} (body : nat → Sdk.Outcome A)
    (up : nat → Sdk.Outcome unit) :
  (∀ n, forget (body n) = up n) →
  (with_retry body).1 = (with_retry up).1
  ∧ raised (with_retry body).2 = raised (with_retry up).2.
Proof.
  intros Hup. unfold with_retry.
  destruct (retry_from_through body up 2 1) as [H1 H2].
  { intros n. rewrite Hup. by destruct (up n) as [[]|]. }
  split; [done|].
  destruct (retry_from 2 1 body).2, (retry_from 2 1 up).2; simplify_eq/=; done.
Qed.

Lemma retry_from_returned {A : Type} (body : nat → Sdk.Outcome A) more attempt a :
  (retry_from more attempt body).2 = Sdk.Returned a →
  ∃ n, body n = Sdk.Returned a.
Proof.
  revert attempt. induction more as [|more IH]; intros attempt; simpl;
    destruct (body attempt) as [a'|e] eqn:Hb; simpl.
  - intros [= ->]. by exists attempt.
  - by destruct (Sdk.transient e).
  - intros [= ->]. by exists attempt.
  - destruct (Sdk.transient e); [|done].
    specialize (IH (S attempt)).
    destruct (retry_from more (S attempt) body). simpl in *. done.
Qed.

Lemma with_retry_returned {A : Type} (body : nat → Sdk.Outcome A) a :
  (with_retry body).2 = Sdk.Returned a → ∃ n, body n = Sdk.Returned a.
Proof. apply retry_from_returned. Qed.

Lemma retry_from_map {A B : Type} (f : Sdk.Outcome A → Sdk.Outcome B)
    (up : nat → Sdk.Outcome A) more attempt :
  (∀ e, f (Sdk.Raised e) = Sdk.Raised e) →
  (∀ a, ∃ b, f (Sdk.Returned a) = Sdk.Returned b) →
  (retry_from more attempt (λ n, f (up n))).2
  = f (retry_from more attempt up).2.
Proof.
  intros Hraised Hreturned. revert attempt.
  induction more as [|more IH]; intros attempt; simpl;
    destruct (up attempt) as [a|e] eqn:Hup.
  - destruct (Hreturned a) as [b Hb]. by rewrite Hb.
  - rewrite Hraised. destruct (Sdk.transient e); simpl; by rewrite Hraised.
  - destruct (Hreturned a) as [b Hb]. by rewrite Hb.
  - rewrite Hraised. destruct (Sdk.transient e); simpl; [|by rewrite Hraised].
    specialize (IH (S attempt)).
    destruct (retry_from more (S attempt) (λ n, f (up n))),
      (retry_from more (S attempt) up). done.
Qed.

Lemma with_retry_map {A B : Type} (f : Sdk.Outcome A → Sdk.Outcome B)
    (up : nat → Sdk.Outcome A) :
  (∀ e, f (Sdk.Raised e) = Sdk.Raised e) →
  (∀ a, ∃ b, f (Sdk.Returned a) = Sdk.Returned b) →
  (with_retry (λ n, f (up n))).2 = f (with_retry up).2.
Proof. apply retry_from_map. Qed.

Lemma Path_eq c user_id clk st st1 tr1 st2 tr2 r :
  Path c user_id clk st st1 tr1 r → st1 = st2 → tr1 = tr2 →
  Path c user_id clk st st2 tr2 r.
Proof. by intros ? <- <-. Qed.

Lemma research_validate_ok q m n incl excl req :
  ResearchRequest.validate q m n incl excl = inr req →
  ResearchRequest.query req = Py.strip q ∧ ResearchRequest.model req = m.
Proof.
  unfold ResearchRequest.validate, query_not_empty.
  repeat case_match; intros; simplify_eq; done.
Qed.

Lemma research_validate_error q m n incl excl e :
  ResearchRequest.validate q m n incl excl = inl e → is_validation e = true.
Proof.
  unfold ResearchRequest.validate. repeat case_match; intros; by simplify_eq.
Qed.

Lemma invoke_research_path q m n incl excl up user_id session_id clk st :
  let c := Research q m n incl excl up in
  match invoke c user_id session_id clk st with
  | (st', tr, r) => Path c user_id clk st st' tr r
  end.
Proof.
  intros c. unfold invoke, reply, research. simpl.
  unfold mbind, M_bind, bind at 1.
  destruct (ResearchRequest.validate _ _ _ _ _) as [e|req] eqn:Hv; simpl.
  - apply path_invalid; [simpl; by rewrite Hv|].
    by eapply research_validate_error.
  - assert (valid c = true) as Hvalid by (simpl; by rewrite Hv).
    apply research_validate_ok in Hv as [Hq Hm]. rewrite Hq, Hm.
    unfold bind at 1. rewrite check_limits_run.
    destruct (breaker_lets clk st) eqn:Hb; [|by apply path_open].
    destruct (limiter_lets user_id clk st) eqn:Hl; [|by apply path_limited].
    unfold bind, _get_cached, mark_cached, run_in_executor, _set_cached,
      clear_cache, record_success, failed, record_failure, mbind, M_bind, bind,
      ret, raise.
    set (key := _cache_key "research" _).
    assert (cache_key c = Some key) as Hkey by done.
    assert (cache_hit c clk st = lookup_valid (_cache st) key (at_get_cached clk))
      as Hlook by done.
    change (_cache (admitted user_id clk st)) with (_cache st).
    destruct (lookup_valid (_cache st) key (at_get_cached clk)) as [hit|] eqn:Hhit.
    { simpl. by eapply path_hit. }
    destruct (with_retry_outcome (λ n, _research_sync req (up n))
                (λ n, forget (up n))) as [Hruns Hfail].
    { intros k. by destruct (up k). }
    pose proof (with_retry_returned (λ n, _research_sync req (up n))) as Hret.
    pose proof (with_retry_map (_research_sync req) up) as Hmap.
    destruct (with_retry (λ n, _research_sync req (up n))) as [tr [result|e]];
      simpl in *.
    + eapply Path_eq;
        [apply (path_success c user_id clk st (Result (CachedResearch result)))| |];
        try done.
      * destruct (Hret result eq_refl) as [k Hk].
        destruct (up k); simplify_eq/=. done.
      * specialize (Hmap ltac:(done) ltac:(by eexists)).
        unfold c, answer.
        destruct (with_retry up).2 as [sdk|e]; simpl in Hmap; [|done].
        injection Hmap as ->. by rewrite Hm.
      * simpl. by rewrite Hruns.
    + eapply Path_eq; [by apply (path_failure c user_id clk st e)|done|].
      simpl. by rewrite Hruns.
Qed.


Lemma search_validate_ok q d n incl excl ans raw req :
  SearchRequest.validate q d n incl excl ans raw = inr req →
  SearchRequest.query req = Py.strip q ∧ SearchRequest.search_depth req = d.
Proof.
  unfold SearchRequest.validate, query_not_empty.
  repeat case_match; intros; simplify_eq; done.
Qed.

Lemma search_validate_error q d n incl excl ans raw e :
  SearchRequest.validate q d n incl excl ans raw = inl e →
  is_validation e = true.
Proof.
  unfold SearchRequest.validate. repeat case_match; intros; by simplify_eq.
Qed.

Lemma invoke_search_path q d n incl excl ans raw up user_id session_id clk st :
  let c := Search q d n incl excl ans raw up in
  match invoke c user_id session_id clk st with
  | (st', tr, r) => Path c user_id clk st st' tr r
  end.
Proof.
  intros c. unfold invoke, reply, search. simpl.
  unfold mbind, M_bind, bind at 1.
  destruct (SearchRequest.validate _ _ _ _ _ _ _) as [e|req] eqn:Hv; simpl.
  - apply path_invalid; [simpl; by rewrite Hv|].
    by eapply search_validate_error.
  - assert (valid c = true) as Hvalid by (simpl; by rewrite Hv).
    apply search_validate_ok in Hv as [Hq Hd]. rewrite Hq, Hd.
    unfold bind at 1. rewrite check_limits_run.
    destruct (breaker_lets clk st) eqn:Hb; [|by apply path_open].
    destruct (limiter_lets user_id clk st) eqn:Hl; [|by apply path_limited].
    unfold bind, _get_cached, mark_cached, run_in_executor, _set_cached,
      clear_cache, record_success, failed, record_failure, mbind, M_bind, bind,
      ret, raise.
    set (key := _cache_key "search" _).
    assert (cache_key c = Some key) as Hkey by done.
    assert (cache_hit c clk st = lookup_valid (_cache st) key (at_get_cached clk))
      as Hlook by done.
    change (_cache (admitted user_id clk st)) with (_cache st).
    destruct (lookup_valid (_cache st) key (at_get_cached clk)) as [hit|] eqn:Hhit.
    { simpl. by eapply path_hit. }
    destruct (with_retry_outcome (λ n, _search_sync req (up n))
                (λ n, forget (up n))) as [Hruns Hfail].
    { intros k. by destruct (up k). }
    pose proof (with_retry_returned (λ n, _search_sync req (up n))) as Hret.
    pose proof (with_retry_map (_search_sync req) up) as Hmap.
    destruct (with_retry (λ n, _search_sync req (up n))) as [tr [result|e]];
      simpl in *.
    + eapply Path_eq;
        [apply (path_success c user_id clk st (Result (CachedSearch result)))| |];
        try done.
      * destruct (Hret result eq_refl) as [k Hk].
        destruct (up k); simplify_eq/=. done.
      * specialize (Hmap ltac:(done) ltac:(by eexists)).
        unfold c, answer.
        destruct (with_retry up).2 as [sdk|e]; simpl in Hmap; [|done].
        injection Hmap as ->. by rewrite Hq.
      * simpl. by rewrite Hruns.
    + eapply Path_eq; [by apply (path_failure c user_id clk st e)|done|].
      simpl. by rewrite Hruns.
Qed.

Lemma extract_validate_error urls images e :
  ExtractRequest.validate urls images = inl e → is_validation e = true.
Proof.
  unfold ExtractRequest.validate. repeat case_match; intros; by simplify_eq.
Qed.

Lemma invoke_extract_path urls images up user_id session_id clk st :
  let c := Extract urls images up in
  match invoke c user_id session_id clk st with
  | (st', tr, r) => Path c user_id clk st st' tr r
  end.
Proof.
  intros c. unfold invoke, reply, extract. simpl.
  unfold mbind, M_bind, bind at 1.
  destruct (ExtractRequest.validate _ _) as [e|req] eqn:Hv; simpl.
  - apply path_invalid; [simpl; by rewrite Hv|].
    by eapply extract_validate_error.
  - assert (valid c = true) as Hvalid by (simpl; by rewrite Hv).
    unfold bind at 1. rewrite check_limits_run.
    destruct (breaker_lets clk st) eqn:Hb; [|by apply path_open].
    destruct (limiter_lets user_id clk st) eqn:Hl; [|by apply path_limited].
    unfold bind, run_in_executor, clear_cache, record_success, failed,
      record_failure, mbind, M_bind, bind, ret, raise, _extract_sync.
    destruct (with_retry_outcome up (λ n, forget (up n))) as [Hruns Hfail];
      [done|].
    destruct (with_retry up) as [tr [result|e]] eqn:Hup; simpl in *.
    + eapply Path_eq;
        [apply (path_success c user_id clk st (Extracted result))| |];
        try done.
      * simpl. by rewrite Hup.
      * simpl. by rewrite Hruns.
    + eapply Path_eq; [by apply (path_failure c user_id clk st e)|done|].
      simpl. by rewrite Hruns.
Qed.

Lemma yield_all_run chunks st :
  yield_all chunks st = (st, EvYield <$> chunks, inr tt).
Proof.
  induction chunks as [|chunk chunks IH]; [done|].
  simpl. unfold mbind, M_bind, bind, emit. by rewrite IH.
Qed.

(** The stream from the SDK call on, when its consumer does not stop it. *)
Lemma stream_runs_to_end c q m up user_id session_id clk st
    (stop : option Stop) :
  valid c = true →
  breaker_lets clk st = true →
  limiter_lets user_id clk st = true →
  cache_key c = None →
  stopped c = None →
  label c = "Research stream"%string →
  failure c = match up with
              | Sdk.Raised e => Some e
              | Sdk.Returned stream => sdk_failure stream
              end →
  runs c = EvUpstream 1 :: match up with
                           | Sdk.Raised _ => []
                           | Sdk.Returned stream => EvYield <$> sdk_chunks stream
                           end →
  answer c = match failure c with None => Some Exhausted | Some _ => None end →
  match stop with Some (AtCall _) => False | _ => True end →
  match up with
  | Sdk.Returned stream => taken stop (sdk_chunks stream) = None
  | Sdk.Raised _ => True
  end →
  ResearchRequest.validate q m 10 [] [] ≠ inl (ValidationError []) →
  is_ok (ResearchRequest.validate q m 10 [] []) = true →
  match reply ended (research_stream q m user_id session_id clk up stop) st with
  | (st', tr, r) => Path c user_id clk st st' tr r
  end.
Proof.
  intros Hvalid Hb Hl Hkey Hstop Hlabel Hfail Hruns Hanswer Hcall Htaken _ Hv.
  assert (cache_hit c clk st = None) as Hmiss.
  { unfold cache_hit. by rewrite Hkey. }
  unfold reply, research_stream. rewrite <- Hlabel.
  unfold mbind, M_bind, bind at 1.
  destruct (ResearchRequest.validate _ _ _ _ _) as [e|req]; [done|]. simpl.
  unfold bind at 1. rewrite check_limits_run, Hb, Hl.
  assert (∀ k : M bool,
            match stop with
            | Some (AtCall started) =>
                (if started then emit (EvUpstream 1) else ret tt);; ret false
            | _ => k
            end = k) as ->.
  { intros k. by destruct stop as [[?|?]|]. }
  unfold bind at 1. unfold run_in_executor, once. simpl.
  destruct up as [[chunks [e|]]|e]; simpl in *; rewrite ?Htaken.
  - unfold bind at 1. rewrite yield_all_run.
    unfold failed, record_failure, mbind, M_bind, bind, raise. simpl.
    eapply Path_eq; [by apply (path_failure c user_id clk st e)|done|].
    rewrite Hruns. simpl. by rewrite <- ?app_assoc.
  - unfold bind at 1. rewrite yield_all_run.
    unfold clear_cache, record_success, mbind, M_bind, bind, ret. simpl.
    eapply Path_eq;
      [apply (path_success c user_id clk st Exhausted)| |]; try done.
    + by rewrite Hanswer, Hfail.
    + unfold stored. by rewrite Hkey.
    + rewrite Hruns. unfold store_events. rewrite Hkey. simpl.
      by rewrite <- ?app_assoc.
  - unfold failed, record_failure, mbind, M_bind, bind, raise. simpl.
    eapply Path_eq; [by apply (path_failure c user_id clk st e)|done|].
    by rewrite Hruns.
Qed.

Lemma stream_validation q m user_id session_id clk up stop st c :
  valid c = is_ok (ResearchRequest.validate q m 10 [] []) →
  is_ok (ResearchRequest.validate q m 10 [] []) = false →
  match reply ended (research_stream q m user_id session_id clk up stop) st with
  | (st', tr, r) => Path c user_id clk st st' tr r
  end.
Proof.
  intros Hvalid Hv. unfold reply, research_stream.
  unfold mbind, M_bind, bind at 1.
  destruct (ResearchRequest.validate _ _ _ _ _) as [e|req] eqn:Hreq; [|done].
  simpl. apply path_invalid; [by rewrite Hvalid|].
  by eapply research_validate_error.
Qed.

Lemma stream_admission q m user_id session_id clk up stop st c :
  valid c = true →
  is_ok (ResearchRequest.validate q m 10 [] []) = true →
  breaker_lets clk st && limiter_lets user_id clk st = false →
  match reply ended (research_stream q m user_id session_id clk up stop) st with
  | (st', tr, r) => Path c user_id clk st st' tr r
  end.
Proof.
  intros Hvalid Hv Hrefused. unfold reply, research_stream.
  unfold mbind, M_bind, bind at 1.
  destruct (ResearchRequest.validate _ _ _ _ _) as [e|req]; [done|]. simpl.
  unfold bind at 1. rewrite check_limits_run.
  destruct (breaker_lets clk st) eqn:Hb; [|by apply path_open].
  destruct (limiter_lets user_id clk st) eqn:Hl; [done|by apply path_limited].
Qed.

Lemma invoke_stream_path q m up user_id session_id clk st :
  let c := ResearchStream q m up in
  match invoke c user_id session_id clk st with
  | (st', tr, r) => Path c user_id clk st st' tr r
  end.
Proof.
  intros c.
  change (invoke c user_id session_id clk st)
    with (reply ended (research_stream q m user_id session_id clk up None) st).
  destruct (is_ok (ResearchRequest.validate q m 10 [] [])) eqn:Hv;
    [|by apply stream_validation].
  destruct (breaker_lets clk st && limiter_lets user_id clk st) eqn:Hadm;
    [|by apply stream_admission].
  apply andb_true_iff in Hadm as [Hb Hl].
  apply stream_runs_to_end; try done.
  - by destruct up.
  - intros Heq. by rewrite Heq in Hv.
Qed.

Lemma invoke_stopped_stream_path q m up stop user_id session_id clk st :
  let c := ResearchStreamStopped q m up stop in
  match invoke c user_id session_id clk st with
  | (st', tr, r) => Path c user_id clk st st' tr r
  end.
Proof.
  intros c.
  change (invoke c user_id session_id clk st)
    with (reply ended
            (research_stream q m user_id session_id clk up (Some stop)) st).
  destruct (is_ok (ResearchRequest.validate q m 10 [] [])) eqn:Hv;
    [|by apply stream_validation].
  destruct (breaker_lets clk st && limiter_lets user_id clk st) eqn:Hadm;
    [|by apply stream_admission].
  apply andb_true_iff in Hadm as [Hb Hl].
  assert (valid c = true) as Hvalid by done.
  destruct (stopped c) as [events|] eqn:Hstopped.
  - assert (failure c = None) as Hfail.
    { unfold failure. subst c. by rewrite Hstopped. }
    unfold reply, research_stream.
    unfold mbind, M_bind, bind at 1.
    destruct (ResearchRequest.validate _ _ _ _ _) as [e|req]; [done|]. simpl.
    unfold bind at 1. rewrite check_limits_run, Hb, Hl.
    destruct stop as [started|index].
    + simpl in Hstopped. injection Hstopped as <-.
      unfold mbind, M_bind, bind, emit, ret.
      destruct started; simpl;
        (eapply Path_eq; [by eapply (path_stopped c user_id clk st)|done|done]).
    + unfold bind at 1. unfold run_in_executor, once. simpl.
      destruct up as [stream|e]; [|done].
      pose proof Hstopped as Hevents. unfold c in Hevents.
      simpl in Hevents. simpl.
      destruct (bool_decide (index < length (sdk_chunks stream))%nat);
        [|done].
      injection Hevents as <-.
      unfold mbind, M_bind, bind. rewrite yield_all_run. unfold ret. simpl.
      eapply Path_eq; [by eapply (path_stopped c user_id clk st)|done|].
      simpl. by rewrite app_nil_r.
  - apply stream_runs_to_end; try done.
    + unfold failure. subst c. by rewrite Hstopped.
    + by destruct stop.
    + destruct up as [stream|e]; [|done]. simpl in Hstopped.
      destruct stop as [started|index]; [done|]. simpl in *.
      by destruct (bool_decide (index < length (sdk_chunks stream))%nat).
    + intros Heq. by rewrite Heq in Hv.
Qed.

Lemma invoke_get_context_path q n up user_id session_id clk st :
  let c := GetContext q n up in
  match invoke c user_id session_id clk st with
  | (st', tr, r) => Path c user_id clk st st' tr r
  end.
Proof.
  intros c. unfold invoke, reply, get_context. simpl.
  destruct (blank q) eqn:Hv; simpl.
  - apply path_invalid; [simpl; by rewrite Hv|done].
  - assert (valid c = true) as Hvalid by (simpl; by rewrite Hv).
    unfold mbind, M_bind, bind at 1. rewrite check_limits_run.
    destruct (breaker_lets clk st) eqn:Hb; [|by apply path_open].
    destruct (limiter_lets user_id clk st) eqn:Hl; [|by apply path_limited].
    unfold bind, run_in_executor, once, clear_cache, record_success, failed,
      record_failure, mbind, M_bind, bind, ret, raise.
    destruct up as [result|e]; simpl.
    + by apply (path_success c user_id clk st (Text result)).
    + by apply (path_failure c user_id clk st e).
Qed.

Lemma invoke_qna_path q up user_id session_id clk st :
  let c := Qna q up in
  match invoke c user_id session_id clk st with
  | (st', tr, r) => Path c user_id clk st st' tr r
  end.
Proof.
  intros c. unfold invoke, reply, qna. simpl.
  destruct (blank q) eqn:Hv; simpl.
  - apply path_invalid; [simpl; by rewrite Hv|done].
  - assert (valid c = true) as Hvalid by (simpl; by rewrite Hv).
    unfold mbind, M_bind, bind at 1. rewrite check_limits_run.
    destruct (breaker_lets clk st) eqn:Hb; [|by apply path_open].
    destruct (limiter_lets user_id clk st) eqn:Hl; [|by apply path_limited].
    unfold bind, run_in_executor, once, clear_cache, record_success, failed,
      record_failure, mbind, M_bind, bind, ret, raise.
    destruct up as [result|e]; simpl.
    + by apply (path_success c user_id clk st (Text result)).
    + by apply (path_failure c user_id clk st e).
Qed.

Lemma path_of_match c user_id clk st (x : t * list Event * (Error + Reply)) :
  match x with (st', tr, r) => Path c user_id clk st st' tr r end →
  Path c user_id clk st x.1.1 x.1.2 x.2.
Proof. by destruct x as [[??]?]. Qed.

(** Every call of every operation goes one of these ways. *)
Lemma invoke_path c user_id session_id clk st :
  Path c user_id clk st
    (invoke c user_id session_id clk st).1.1
    (invoke c user_id session_id clk st).1.2
    (invoke c user_id session_id clk st).2.
Proof.
  apply path_of_match.
  destruct c as [q m n incl excl up|q m up|q d n incl excl ans raw up
                |urls images up|q n up|q up|q m up stop].
  - apply invoke_research_path.
  - apply invoke_stream_path.
  - apply invoke_search_path.
  - apply invoke_extract_path.
  - apply invoke_get_context_path.
  - apply invoke_qna_path.
  - apply invoke_stopped_stream_path.
Qed.


(** The admission checks change neither the cache nor the usage snapshot;
    of the breaker they change the state at most, from open to half-open. *)
Lemma admitted_breaker user_id clk st :
  let cb := _circuit_breaker st in
  let cb' := _circuit_breaker (admitted user_id clk st) in
  CircuitBreaker._threshold cb' = CircuitBreaker._threshold cb
  ∧ CircuitBreaker._timeout cb' = CircuitBreaker._timeout cb
  ∧ CircuitBreaker._failures cb' = CircuitBreaker._failures cb
  ∧ CircuitBreaker._last_failure cb' = CircuitBreaker._last_failure cb
  ∧ (CircuitBreaker._state cb' = CircuitBreaker._state cb
     ∨ CircuitBreaker._state cb = CircuitBreaker.open
       ∧ CircuitBreaker._state cb' = CircuitBreaker.half_open
       ∧ CircuitBreaker._timeout cb
         ≤ at_can_execute clk - CircuitBreaker._last_failure cb).
Proof.
  simpl. unfold CircuitBreaker.can_execute.
  destruct (_circuit_breaker st) as [th to f lf s]; simpl.
  destruct s; simpl; try by (split_and!; auto).
  destruct (Z.geb_spec (at_can_execute clk - lf) to); simpl;
    split_and!; auto.
Qed.

Lemma runs_sdk c : Forall (λ ev, is_sdk_event ev = true) (runs c).
Proof.
  assert (∀ (up : nat → Sdk.Outcome unit) more attempt,
            Forall (λ ev, is_sdk_event ev = true) (retry_from more attempt up).1)
    as Hretry.
  { intros up more. induction more as [|more IH]; intros attempt; simpl.
    - destruct (up attempt) as [|e]; [|destruct (Sdk.transient e)];
        by repeat constructor.
    - destruct (up attempt) as [|e]; [by repeat constructor|].
      destruct (Sdk.transient e); [|by repeat constructor].
      specialize (IH (S attempt)).
      destruct (retry_from more (S attempt) up). simpl in *. by constructor. }
  destruct c as [q m n incl excl up|q m up|q d n incl excl ans raw up
                |urls images up|q n up|q up|q m up stop]; simpl;
    try apply Hretry; try by repeat constructor.
  - constructor; [done|]. destruct up as [stream|e]; [|constructor].
    apply Forall_fmap. by apply Forall_true.
  - constructor; [done|]. destruct up as [stream|e]; [|constructor].
    apply Forall_fmap. by apply Forall_true.
Qed.

(** The events of one kind in a trace. *)
Lemma count_in_runs c ev :
  is_sdk_event ev = false → filter (λ x, x = ev) (runs c) = [].
Proof.
  intros Hev. pose proof (runs_sdk c) as Hruns.
  induction Hruns as [|x l Hx _ IH]; [done|].
  rewrite filter_cons_False; [done|]. intros ->. congruence.
Qed.

(** C7, as the code has it. A call that fails validation raises before any
    check: the tool is untouched and no call is made. A call the breaker
    refuses leaves the tool untouched as well. A call the limiter refuses
    reaches neither the retry policy nor the SDK and calls neither
    [record_success] nor [record_failure]: the failure count and the time of
    the last failure are kept, but the [can_execute] before it may have moved
    an open breaker to half-open, and the timestamps of the key are pruned.
    [extract] with the URL [ftp://bad] fails validation. *)
Theorem rejections_leave_resilience_state
    (c : Call) (user_id session_id : string) (clk : Clock) (st : t) :
  (valid c = false →
   ∃ e, invoke c user_id session_id clk st = (st, [], inl e)
        ∧ is_validation e = true)
  ∧ (valid c = true → breaker_lets clk st = false →
     invoke c user_id session_id clk st
     = (st, [EvCanExecute],
        inl (CircuitOpenError "Service temporarily unavailable")))
  ∧ (valid c = true → breaker_lets clk st = true →
     limiter_lets user_id clk st = false →
     let st' := admitted user_id clk st in
     invoke c user_id session_id clk st
     = (st', [EvCanExecute; EvCheck user_id],
        inl (RateLimitError ("Rate limit exceeded for user " +:+ user_id)))
     ∧ _cache st' = _cache st
     ∧ _usage_tracker st' = _usage_tracker st
     ∧ CircuitBreaker._failures (_circuit_breaker st')
       = CircuitBreaker._failures (_circuit_breaker st)
     ∧ CircuitBreaker._last_failure (_circuit_breaker st')
       = CircuitBreaker._last_failure (_circuit_breaker st)
     ∧ (CircuitBreaker._state (_circuit_breaker st')
        = CircuitBreaker._state (_circuit_breaker st)
        ∨ CircuitBreaker._state (_circuit_breaker st) = CircuitBreaker.open
          ∧ CircuitBreaker._state (_circuit_breaker st')
            = CircuitBreaker.half_open)
     ∧ RateLimiter.requests_of (_rate_limiter st') user_id
       = RateLimiter.prune
           (at_check clk - RateLimiter._window_seconds (_rate_limiter st))
           (RateLimiter.requests_of (_rate_limiter st) user_id))
  ∧ ∀ images upstream,
      invoke (Extract ["ftp://bad"%string] images upstream)
        user_id session_id clk st
      = (st, [], inl (ValidationError ["urls"%string])).
Proof.
  pose proof (invoke_path c user_id session_id clk st) as HP.
  destruct (invoke c user_id session_id clk st) as [[st' tr] r].
  simpl in HP. split_and!.
  - intros Hv. destruct HP; try congruence. by eexists.
  - intros Hv Hb. destruct HP; congruence.
  - intros Hv Hb Hl. destruct HP; try congruence.
    destruct (admitted_breaker user_id clk st) as (_ & _ & Hf & Hlf & Hs).
    split_and!; try done.
    + destruct Hs as [?|(? & ? & _)]; auto.
    + unfold limiter_lets in Hl. simpl.
      rewrite check_requests_same, Hl. by rewrite app_nil_r.
  - done.
Qed.

Lemma rejections_leave_resilience_state_witness :
  let c := Qna "what is new" (Sdk.Returned "nothing"%string) in
  let clk := mk_clock 10 10 10 10 10 in
  let st := mk ∅ (RateLimiter.mk 1 60 {[ "u1"%string := [0] ]})
              (CircuitBreaker.mk 1 5 1 0 CircuitBreaker.open)
              (UsageTracker.init "key") in
  let st' := admitted "u1" clk st in
  invoke c "u1" "s1" clk st
  = (st', [EvCanExecute; EvCheck "u1"],
     inl (RateLimitError ("Rate limit exceeded for user " +:+ "u1")))
  ∧ _cache st' = _cache st
  ∧ _usage_tracker st' = _usage_tracker st
  ∧ CircuitBreaker._failures (_circuit_breaker st')
    = CircuitBreaker._failures (_circuit_breaker st)
  ∧ CircuitBreaker._last_failure (_circuit_breaker st')
    = CircuitBreaker._last_failure (_circuit_breaker st)
  ∧ (CircuitBreaker._state (_circuit_breaker st')
     = CircuitBreaker._state (_circuit_breaker st)
     ∨ CircuitBreaker._state (_circuit_breaker st) = CircuitBreaker.open
       ∧ CircuitBreaker._state (_circuit_breaker st')
         = CircuitBreaker.half_open)
  ∧ RateLimiter.requests_of (_rate_limiter st') "u1"
    = RateLimiter.prune
        (at_check clk - RateLimiter._window_seconds (_rate_limiter st))
        (RateLimiter.requests_of (_rate_limiter st) "u1").
Proof.
  apply (rejections_leave_resilience_state
           (Qna "what is new" (Sdk.Returned "nothing"%string)) "u1" "s1"
           (mk_clock 10 10 10 10 10)
           (mk ∅ (RateLimiter.mk 1 60 {[ "u1"%string := [0] ]})
              (CircuitBreaker.mk 1 5 1 0 CircuitBreaker.open)
              (UsageTracker.init "key"))); by_computation.
Defined.


Lemma invoke_path_eq c user_id session_id clk st st' tr r :
  invoke c user_id session_id clk st = (st', tr, r) →
  Path c user_id clk st st' tr r.
Proof.
  intros H. pose proof (invoke_path c user_id session_id clk st) as HP.
  by rewrite H in HP.
Qed.

Lemma invoke_hit c user_id session_id clk st hit :
  valid c = true →
  breaker_lets clk st = true →
  limiter_lets user_id clk st = true →
  cache_hit c clk st = Some hit →
  ∃ key, cache_key c = Some key
         ∧ invoke c user_id session_id clk st
           = (let a := admitted user_id clk st in
              mk (marked key (_cache a)) (_rate_limiter a) (_circuit_breaker a)
                 (_usage_tracker a),
              [EvCanExecute; EvCheck user_id], inr (Result (mark hit))).
Proof.
  intros Hv Hb Hl Hhit.
  pose proof (invoke_path c user_id session_id clk st) as HP.
  destruct (invoke c user_id session_id clk st) as [[st' tr] r].
  simpl in HP. destruct HP; try congruence.
  exists key. split; [done|]. congruence.
Qed.

Lemma mark_cached_flag d : cached_flag (mark d) = true.
Proof. by destruct d. Qed.

(** C5, as the code has it. For the cached operations: when the request is
    valid, the breaker and the limiter let it through, and the cache has an
    entry for its key that is younger than 3600 seconds, the call returns
    that entry's result with the cached flag set, runs no SDK call, reports
    no outcome to the breaker and leaves the usage snapshot as it is; the
    admission checks made before the lookup are the only changes besides the
    flag. In particular a [research] call that follows, within the 3600
    seconds, a [research] call with the same query and model that got its
    result from the SDK, and that the limiter lets through, returns that
    result with the cached flag set and runs no SDK call. *)
Theorem cache_hit_short_circuits :
  (∀ c user_id session_id clk st hit,
     valid c = true →
     breaker_lets clk st = true →
     limiter_lets user_id clk st = true →
     cache_hit c clk st = Some hit →
     let out := invoke c user_id session_id clk st in
     out.2 = inr (Result (mark hit))
     ∧ cached_flag (mark hit) = true
     ∧ out.1.2 = [EvCanExecute; EvCheck user_id]
     ∧ _usage_tracker out.1.1 = _usage_tracker st
     ∧ _circuit_breaker out.1.1 = _circuit_breaker (admitted user_id clk st)
     ∧ _rate_limiter out.1.1 = _rate_limiter (admitted user_id clk st)
     ∧ ∃ key, cache_key c = Some key
              ∧ _cache out.1.1 = marked key (_cache st))
  ∧ (∀ q m n1 incl1 excl1 up1 n2 incl2 excl2 up2
       user1 session1 clk1 user2 session2 clk2 st st1 tr1 d,
     let first := Research q m n1 incl1 excl1 up1 in
     let second := Research q m n2 incl2 excl2 up2 in
     invoke first user1 session1 clk1 st = (st1, tr1, inr (Result d)) →
     cached_flag d = false →
     valid second = true →
     limiter_lets user2 clk2 st1 = true →
     at_get_cached clk2 - at_set_cached clk1 < 3600 →
     let out := invoke second user2 session2 clk2 st1 in
     out.2 = inr (Result (mark d))
     ∧ cached_flag (mark d) = true
     ∧ out.1.2 = [EvCanExecute; EvCheck user2]).
Proof.
  split.
  - intros c user_id session_id clk st hit Hv Hb Hl Hhit out.
    destruct (invoke_hit c user_id session_id clk st hit Hv Hb Hl Hhit)
      as (key & Hkey & Heq).
    subst out. rewrite Heq. simpl.
    split_and!; try done; [apply mark_cached_flag|by exists key].
  - intros q m n1 incl1 excl1 up1 n2 incl2 excl2 up2
      user1 session1 clk1 user2 session2 clk2 st st1 tr1 d first second
      Hfirst Hfresh Hv Hl Httl out.
    apply invoke_path_eq in Hfirst.
    remember (inr (Result d)) as r eqn:Hr.
    destruct Hfirst as [| | |key hit| | |]; simplify_eq.
    { by rewrite mark_cached_flag in Hfresh. }
    set (st1 := mk _ _ _ _) in *.
    assert (breaker_lets clk2 st1 = true) as Hb by done.
    assert (cache_hit second clk2 st1 = Some d) as Hhit.
    { unfold cache_hit, lookup_valid. simpl.
      change (stored first clk1 (Result d) (_cache st))
        with (<[_cache_key "research"
                  [("query"%string, Py.strip q);
                   ("model"%string, ResearchModel.value m)]
                := mk_entry d (at_set_cached clk1)]> (_cache st)).
      rewrite lookup_insert_eq. simpl.
      destruct (Z.ltb_spec (at_get_cached clk2 - at_set_cached clk1) 3600);
        [done|lia]. }
    destruct (invoke_hit second user2 session2 clk2 st1 d Hv Hb Hl Hhit)
      as (key & Hkey & Heq).
    subst out. rewrite Heq. simpl. split_and!; try done. apply mark_cached_flag.
Qed.

(** C6. For every operation: when the call gets to the SDK and the SDK call
    ends with an exception (after the retry policy where the function is
    decorated), [record_failure] is called once and [record_success] not at
    all, the caller gets a [ResearchToolError] that wraps the exception, and
    nothing is stored: the cache is the one the call started with. A
    decorated function ends with the exception of its first run when that is
    not transient, and with the exception of its third run when the first
    two are transient and the third raises too. *)
Theorem upstream_failure_recorded_once :
  (∀ c user_id session_id clk st e,
     valid c = true →
     breaker_lets clk st = true →
     limiter_lets user_id clk st = true →
     cache_hit c clk st = None →
     failure c = Some e →
     let out := invoke c user_id session_id clk st in
     out.2 = inl (ResearchToolError (label c +:+ " failed: " +:+ Sdk.str e)
                    (Some e))
     ∧ out.1.2 = [EvCanExecute; EvCheck user_id] ++ runs c ++ [EvRecordFailure]
     ∧ filter (λ ev, ev = EvRecordFailure) out.1.2 = [EvRecordFailure]
     ∧ filter (λ ev, ev = EvRecordSuccess) out.1.2 = []
     ∧ (∀ key, filter (λ ev, ev = EvSetCached key) out.1.2 = [])
     ∧ _cache out.1.1 = _cache st
     ∧ _usage_tracker out.1.1 = _usage_tracker st
     ∧ _circuit_breaker out.1.1
       = CircuitBreaker.record_failure (at_record_failure clk)
           (_circuit_breaker (admitted user_id clk st)))
  ∧ (∀ (A : Type) (body : nat → Sdk.Outcome A) e,
       body 1%nat = Sdk.Raised e → Sdk.transient e = false →
       with_retry body = ([EvUpstream 1], Sdk.Raised e))
  ∧ (∀ (A : Type) (body : nat → Sdk.Outcome A) e1 e2 e3,
       body 1%nat = Sdk.Raised e1 → Sdk.transient e1 = true →
       body 2%nat = Sdk.Raised e2 → Sdk.transient e2 = true →
       body 3%nat = Sdk.Raised e3 →
       with_retry body
       = ([EvUpstream 1; EvUpstream 2; EvUpstream 3], Sdk.Raised e3)).
Proof.
  split_and!.
  - intros c user_id session_id clk st e Hv Hb Hl Hmiss Hfail out.
    pose proof (invoke_path c user_id session_id clk st) as HP.
    fold out in HP. destruct out as [[st' tr] r]. simpl in *.
    destruct HP; try congruence.
    assert (e0 = e) as -> by congruence.
    split_and!; try done.
    + rewrite !filter_app, (count_in_runs c EvRecordFailure) by done. done.
    + rewrite !filter_app, (count_in_runs c EvRecordSuccess) by done. done.
    + intros key.
      rewrite !filter_app, (count_in_runs c (EvSetCached key)) by done. done.
  - intros A body e H1 Ht. unfold with_retry. simpl. by rewrite H1, Ht.
  - intros A body e1 e2 e3 H1 Ht1 H2 Ht2 H3. unfold with_retry. simpl.
    rewrite H1, Ht1, H2, Ht2, H3. by destruct (Sdk.transient e3).
Qed.

(** C8, as the code has it. [fetch] without [force] on a tracker that has a
    snapshot returns it and makes no request. [fetch] with [force], or on a
    tracker without a snapshot, makes the request; when the request returns
    a document, the snapshot stored and returned is built from the document
    alone, and when the request fails the tracker is left as it was. Every
    operation that returns a result that is not taken from the result cache
    has called [clear_cache]: the tracker has no snapshot afterwards and the
    next [fetch] makes the request. *)
Theorem usage_snapshot_caching :
  (∀ ut snapshot resp,
     UsageTracker._cached ut = Some snapshot →
     UsageTracker.fetch false resp ut = (ut, [], inr snapshot))
  ∧ (∀ ut force,
       force = true ∨ UsageTracker._cached ut = None →
       (∀ data,
          UsageTracker.fetch force (UsageTracker.HttpJson data) ut
          = (UsageTracker.mk (UsageTracker._api_key ut)
               (Some (UsageTracker.snapshot_of data)),
             [EvUsageGet], inr (UsageTracker.snapshot_of data)))
       ∧ ∀ msg,
          UsageTracker.fetch force (UsageTracker.HttpError msg) ut
          = (ut, [EvUsageGet], inl msg))
  ∧ (∀ c user_id session_id clk st st' tr r,
       invoke c user_id session_id clk st = (st', tr, inr r) →
       fresh r = true →
       EvClearCache ∈ tr
       ∧ UsageTracker._cached (_usage_tracker st') = None
       ∧ ∀ force resp,
           (UsageTracker.fetch force resp (_usage_tracker st')).1.2
           = [EvUsageGet]).
Proof.
  split_and!.
  - intros ut snapshot resp Hc. unfold UsageTracker.fetch. by rewrite Hc.
  - intros ut force Hf. unfold UsageTracker.fetch.
    split; intros; destruct Hf as [-> | ->]; by destruct (UsageTracker._cached ut).
  - intros c user_id session_id clk st st' tr r Hinv Hfresh.
    apply invoke_path_eq in Hinv.
    remember (inr r) as res eqn:Hr.
    destruct Hinv as [| | |key hit|r0| |]; simplify_eq.
    { simpl in Hfresh. by rewrite mark_cached_flag in Hfresh. }
    split_and!.
    + rewrite !elem_of_app. do 3 right. apply list_elem_of_here.
    + done.
    + intros force resp. unfold UsageTracker.fetch. simpl.
      by destruct force, resp.
Qed.

End GatewayProperties.

(** * Properties of the cache key *)

Section CacheKeyProperties.

Import ResearchTool Gateway.

Lemma str_le_trans a b c : Py.str_le a b → Py.str_le b c → Py.str_le a c.
Proof.
  unfold Py.str_le, String.leb. revert b c.
  induction a as [|x a IH]; intros [|y b] [|z c]; simpl; try done.
  unfold Ascii.compare.
  destruct (N.compare_spec (N_of_ascii x) (N_of_ascii y)) as [Hxy|Hxy|Hxy];
    destruct (N.compare_spec (N_of_ascii y) (N_of_ascii z)) as [Hyz|Hyz|Hyz];
    destruct (N.compare_spec (N_of_ascii x) (N_of_ascii z)) as [Hxz|Hxz|Hxz];
    try done; try lia.
  apply IH.
Qed.

Lemma tuple_le_spec x y :
  Py.tuple_le x y
  ↔ (x.1 = y.1 ∧ Py.str_le x.2 y.2) ∨ (x.1 ≠ y.1 ∧ Py.str_le x.1 y.1).
Proof. unfold Py.tuple_le. case_bool_decide; tauto. Qed.

#[local] Instance tuple_le_total : Total Py.tuple_le.
Proof.
  intros x y. rewrite !tuple_le_spec. unfold Py.str_le.
  destruct (decide (x.1 = y.1)) as [Heq|Hne].
  - destruct (String.leb_total x.2 y.2); [left; left|right; left]; done.
  - destruct (String.leb_total x.1 y.1);
      [left; right|right; right]; split; congruence.
Qed.

#[local] Instance tuple_le_antisym : AntiSymm (=) Py.tuple_le.
Proof.
  intros [k1 v1] [k2 v2]. rewrite !tuple_le_spec. unfold Py.str_le. simpl.
  intros [[-> H1]|[Hne H1]] [[Heq H2]|[Hne' H2]]; try congruence.
  - f_equal. by apply String.leb_antisym.
  - destruct Hne. by apply String.leb_antisym.
Qed.

#[local] Instance tuple_le_trans : Transitive Py.tuple_le.
Proof.
  intros [k1 v1] [k2 v2] [k3 v3]. rewrite !tuple_le_spec. simpl.
  intros [[-> H1]|[Hne H1]] [[-> H2]|[Hne' H2]].
  - left. split; [done|]. by eapply str_le_trans.
  - by right.
  - by right.
  - right. split; [|by eapply str_le_trans].
    intros ->. destruct Hne. by apply String.leb_antisym.
Qed.

(** [sorted] puts the items of a call in one order, whatever the order they
    are given in. *)
Lemma sorted_permutation kw1 kw2 : kw1 ≡ₚ kw2 → Py.sorted kw1 = Py.sorted kw2.
Proof.
  intros Hperm. unfold Py.sorted.
  apply (StronglySorted_unique Py.tuple_le).
  - apply StronglySorted_merge_sort; apply _.
  - apply StronglySorted_merge_sort; apply _.
  - by rewrite !merge_sort_Permutation.
Qed.

Lemma append_cons c s t : (String c s +:+ t)%string = String c (s +:+ t)%string.
Proof. reflexivity. Qed.

Lemma append_nil_l s : ("" +:+ s)%string = s.
Proof. reflexivity. Qed.

Lemma append_assoc (a b c : string) : ((a +:+ b) +:+ c = a +:+ (b +:+ c))%string.
Proof.
  induction a as [|x a IH]; [done|]. by rewrite !append_cons, IH.
Qed.

Lemma unrepr_repr_char quote c rest :
  quote = Py.squote ∨ quote = Py.dquote →
  Py.unrepr_char quote (Py.repr_char quote c +:+ rest)%string = Some (c, rest).
Proof.
  intros [-> | ->];
    destruct c as [[] [] [] [] [] [] [] []]; reflexivity.
Qed.

Lemma unrepr_closing_quote quote rest : Py.unrepr_char quote (String quote rest) = None.
Proof. simpl. by rewrite Ascii.eqb_refl. Qed.

Lemma repr_body_inj quote a b rest_a rest_b :
  quote = Py.squote ∨ quote = Py.dquote →
  (Py.repr_body quote a +:+ String quote rest_a
   = Py.repr_body quote b +:+ String quote rest_b)%string →
  a = b ∧ rest_a = rest_b.
Proof.
  intros Hq. revert b.
  induction a as [|c a IH]; intros [|d b]; simpl Py.repr_body;
    rewrite ?append_assoc, ?append_nil_l; intros Heq.
  - by injection Heq.
  - apply (f_equal (Py.unrepr_char quote)) in Heq.
    by rewrite unrepr_closing_quote, unrepr_repr_char in Heq.
  - apply (f_equal (Py.unrepr_char quote)) in Heq.
    by rewrite unrepr_closing_quote, unrepr_repr_char in Heq.
  - apply (f_equal (Py.unrepr_char quote)) in Heq.
    rewrite !unrepr_repr_char in Heq by done.
    injection Heq as -> Heq. destruct (IH b Heq) as [-> ->]. done.
Qed.

Lemma repr_quote_cases s :
  Py.repr_quote s = Py.squote ∨ Py.repr_quote s = Py.dquote.
Proof. unfold Py.repr_quote. destruct (_ && _); auto. Qed.

(** [repr] is a prefix code: what follows a [repr] can be told from it. *)
Lemma repr_inj a b rest_a rest_b :
  (Py.repr a +:+ rest_a = Py.repr b +:+ rest_b)%string →
  a = b ∧ rest_a = rest_b.
Proof.
  unfold Py.repr. rewrite !append_cons, !append_assoc, !append_cons.
  rewrite !append_nil_l.
  intros Heq. injection Heq as Hq Heq. rewrite <- Hq in Heq.
  eapply repr_body_inj; [apply repr_quote_cases|done].
Qed.

Lemma sorted_research q m :
  Py.sorted [("query"%string, q); ("model"%string, m)]
  = [("model"%string, m); ("query"%string, q)].
Proof. reflexivity. Qed.

Lemma sorted_search q d :
  Py.sorted [("query"%string, q); ("depth"%string, d)]
  = [("depth"%string, d); ("query"%string, q)].
Proof. reflexivity. Qed.

Lemma cache_key_data_two prefix k1 v1 k2 v2 :
  (prefix +:+ ":" +:+ Py.repr_list [(k1, v1); (k2, v2)]
   = (prefix +:+ ":[(" +:+ Py.repr k1 +:+ ", ")
     +:+ (Py.repr v1 +:+ ("), (" +:+ Py.repr k2 +:+ ", ")
     +:+ (Py.repr v2 +:+ ")]")))%string.
Proof.
  unfold Py.repr_list, Py.repr_tuple. simpl.
  rewrite !append_assoc. reflexivity.
Qed.

Lemma cache_key_data_inj prefix k1 k2 v1 v2 w1 w2 :
  Py.sorted [(k1, v1); (k2, v2)] = [(k2, v2); (k1, v1)] →
  Py.sorted [(k1, w1); (k2, w2)] = [(k2, w2); (k1, w1)] →
  _cache_key_data prefix [(k1, v1); (k2, v2)]
  = _cache_key_data prefix [(k1, w1); (k2, w2)] →
  v1 = w1 ∧ v2 = w2.
Proof.
  unfold _cache_key_data. intros -> ->. rewrite !cache_key_data_two.
  intros Heq. apply (inj (String.app _)) in Heq.
  apply repr_inj in Heq as [-> Heq].
  apply (inj (String.app _)) in Heq.
  apply repr_inj in Heq as [-> _]. done.
Qed.

(** C9, as the code has it. The cache key is a function of the operation
    name and of the sorted items it is given: the same items in any order
    give the same key. [research] gives it the stripped query and the model,
    [search] the stripped query and the depth, and nothing else: two calls of
    one operation that agree on these have the same key whatever their other
    parameters are. The string that is hashed tells the query and the model
    or depth: calls of one operation that differ in one of them hash
    different strings. *)
Theorem cache_key_canonical :
  (∀ prefix kwargs1 kwargs2,
     kwargs1 ≡ₚ kwargs2 → _cache_key prefix kwargs1 = _cache_key prefix kwargs2)
  ∧ (∀ q1 q2 m n1 n2 incl1 incl2 excl1 excl2 up1 up2,
       Py.strip q1 = Py.strip q2 →
       cache_key (Research q1 m n1 incl1 excl1 up1)
       = cache_key (Research q2 m n2 incl2 excl2 up2))
  ∧ (∀ q1 q2 d n1 n2 incl1 incl2 excl1 excl2 ans1 ans2 raw1 raw2 up1 up2,
       Py.strip q1 = Py.strip q2 →
       cache_key (Search q1 d n1 incl1 excl1 ans1 raw1 up1)
       = cache_key (Search q2 d n2 incl2 excl2 ans2 raw2 up2))
  ∧ (∀ q1 q2 m1 m2,
       _cache_key_data "research"
         [("query"%string, q1); ("model"%string, ResearchModel.value m1)]
       = _cache_key_data "research"
           [("query"%string, q2); ("model"%string, ResearchModel.value m2)] →
       q1 = q2 ∧ m1 = m2)
  ∧ (∀ q1 q2 d1 d2,
       _cache_key_data "search" [("query"%string, q1); ("depth"%string, d1)]
       = _cache_key_data "search" [("query"%string, q2); ("depth"%string, d2)] →
       q1 = q2 ∧ d1 = d2).
Proof.
  split_and!.
  - intros prefix kwargs1 kwargs2 Hperm. unfold _cache_key, _cache_key_data.
    by rewrite (sorted_permutation kwargs1 kwargs2 Hperm).
  - intros. simpl. congruence.
  - intros. simpl. congruence.
  - intros q1 q2 m1 m2 Heq.
    apply cache_key_data_inj in Heq as [Hq Hm];
      [|apply sorted_research|apply sorted_research].
    split; [done|]. by destruct m1, m2.
  - intros q1 q2 d1 d2 Heq.
    by apply cache_key_data_inj in Heq;
      [|apply sorted_search|apply sorted_search].
Qed.

Lemma cache_key_canonical_witness :
  _cache_key "research" [("query", "x"); ("model", "pro")]%string
  = _cache_key "research" [("model", "pro"); ("query", "x")]%string.
Proof.
  apply (proj1 cache_key_canonical). apply perm_swap.
Defined.

(** Test vectors of the standard and of [hashlib] for the digest, and the
    string [research] hashes in scenario C. *)
Example sha256_abc :
  Sha256.hexdigest (Py.encode "abc")
  = "ba7816bf8f01cfea414140de5dae2223b00361a396177a9cb410ff61f20015ad"%string.
Proof. by_computation. Qed.

Example sha256_two_blocks :
  Sha256.hexdigest (replicate 70 97%N)
  = "6bd5e5034855a11241f0dee8fc72850ffd9955b28347a86428b5fa19119f6ad0"%string.
Proof. by_computation. Qed.

Example sha256_two_byte_character :
  Sha256.hexdigest (Py.encode (String (ascii_of_N 233) EmptyString))
  = "4a99557e4033c3539de2eb65472017cad5f9557f7a0625a09f1c3f6e2ba69c4c"%string.
Proof. by_computation. Qed.

Example research_key_data :
  ("research" +:+ ":"
   +:+ Py.repr_list (Py.sorted [("query", "x"); ("model", "pro")]))%string
  = "research:[('model', 'pro'), ('query', 'x')]"%string.
Proof. by_computation. Qed.

(** The key of scenario C, as [hashlib] computes it. *)
Example research_cache_key_value :
  cache_key (Research "x" ResearchModel.PRO 10 None None
               (λ _, Sdk.Raised (Sdk.OtherError "")))
  = Some "241364e9c5ad3ab5affb4f2247ee40fc303e7af837044c648ab852d84362dc44"%string.
Proof. by_computation. Qed.

End CacheKeyProperties.

(** * Concrete runs of the gateway *)

Section GatewayRuns.

Import ResearchTool Gateway Scenario.

(** With a threshold of one failure: a [research] call is answered and
    cached, a failing [qna] call opens the breaker, and the same [research]
    call is then refused although its entry is valid; after the timeout the
    call is served from the cache and the breaker, which was open, is left
    half-open. *)
Lemma cached_call_passes_admission_first :
  let st := after (Qna "q" breaks) 1 (after research_x 0 (create one_strike)) in
  cache_hit research_x (at_time 2) st = Some findings
  ∧ (invoke research_x "u1" "s1" (at_time 2) st).2
    = inl (CircuitOpenError "Service temporarily unavailable")
  ∧ CircuitBreaker._state (_circuit_breaker st) = CircuitBreaker.open
  ∧ cache_hit research_x (at_time 100) st = Some findings
  ∧ (invoke research_x "u1" "s1" (at_time 100) st).2
    = inr (Result (mark findings))
  ∧ CircuitBreaker._state (_circuit_breaker (after research_x 100 st))
    = CircuitBreaker.half_open.
Proof. by_computation. Qed.

(** With a cap of one request, a threshold of one failure and a timeout of
    five seconds: a failing [qna] call at time 0 opens the breaker; the call
    at time 10 is refused by the limiter, and the breaker, which was open, is
    half-open afterwards. *)
Lemma limiter_rejection_moves_breaker :
  let st := after (Qna "q" breaks) 0 (create tight) in
  CircuitBreaker._state (_circuit_breaker st) = CircuitBreaker.open
  ∧ (invoke (Qna "q" breaks) "u1" "s1" (at_time 10) st).1.2
    = [EvCanExecute; EvCheck "u1"]
  ∧ (invoke (Qna "q" breaks) "u1" "s1" (at_time 10) st).2
    = inl (RateLimitError "Rate limit exceeded for user u1")
  ∧ CircuitBreaker._state (_circuit_breaker (after (Qna "q" breaks) 10 st))
    = CircuitBreaker.half_open.
Proof. by_computation. Qed.

(** Two [research] calls that differ in [max_results] and in the domains to
    include have one key, and the second is served the result of the first. *)
Lemma cache_key_ignores_other_parameters :
  let other :=
    Research "x" ResearchModel.PRO 50 (Some ["arxiv.org"%string]) None
      times_out in
  cache_key research_x = cache_key other
  ∧ invoke other "u1" "s1" (at_time 1) (after research_x 0 (create defaults))
    = (after other 1 (after research_x 0 (create defaults)),
       [EvCanExecute; EvCheck "u1"], inr (Result (mark findings))).
Proof. by_computation. Qed.

(** Scenario C of the specification. *)
Example research_twice :
  (invoke research_x "u1" "s1" (at_time 0) (create defaults)).1.2
  = [EvCanExecute; EvCheck "u1"; EvUpstream 1;
     EvSetCached "241364e9c5ad3ab5affb4f2247ee40fc303e7af837044c648ab852d84362dc44";
     EvClearCache; EvRecordSuccess]
  ∧ (invoke research_x "u1" "s1" (at_time 0)
       (after research_x 0 (create defaults))).1.2
    = [EvCanExecute; EvCheck "u1"]
  ∧ (invoke research_x "u1" "s1" (at_time 0)
       (after research_x 0 (create defaults))).2
    = inr (Result (mark findings)).
Proof. by_computation. Qed.

(** A transient failure on the three runs. *)
Example extract_times_out :
  invoke (Extract ["https://example.org"%string] false times_out)
    "u1" "s1" (at_time 7) (create defaults)
  = (mk ∅ (RateLimiter.mk 30 60 {[ "u1"%string := [7] ]})
        (CircuitBreaker.mk 5 60 1 7 CircuitBreaker.closed)
        (UsageTracker.init "tvly-key"),
     [EvCanExecute; EvCheck "u1"; EvUpstream 1; EvUpstream 2; EvUpstream 3;
      EvRecordFailure],
     inl (ResearchToolError "Extract failed: timed out"
            (Some (Sdk.TimeoutError "timed out")))).
Proof. by_computation. Qed.

Lemma cache_hit_short_circuits_witness :
  let st := after research_x 0 (create defaults) in
  let out := invoke research_x "u1" "s1" (at_time 1) st in
  out.2 = inr (Result (mark findings))
  ∧ cached_flag (mark findings) = true
  ∧ out.1.2 = [EvCanExecute; EvCheck "u1"]
  ∧ _usage_tracker out.1.1 = _usage_tracker st
  ∧ _circuit_breaker out.1.1 = _circuit_breaker (admitted "u1" (at_time 1) st)
  ∧ _rate_limiter out.1.1 = _rate_limiter (admitted "u1" (at_time 1) st)
  ∧ ∃ key, cache_key research_x = Some key
           ∧ _cache out.1.1 = marked key (_cache st).
Proof.
  apply (proj1 cache_hit_short_circuits research_x "u1" "s1" (at_time 1)
           (after research_x 0 (create defaults)) findings);
    by_computation.
Defined.

Lemma upstream_failure_recorded_once_witness :
  let c := Extract ["https://example.org"%string] false times_out in
  let st := create defaults in
  let out := invoke c "u1" "s1" (at_time 7) st in
  out.2 = inl (ResearchToolError
                 (label c +:+ " failed: " +:+ Sdk.str (Sdk.TimeoutError "timed out"))
                 (Some (Sdk.TimeoutError "timed out")))
  ∧ out.1.2 = [EvCanExecute; EvCheck "u1"] ++ runs c ++ [EvRecordFailure]
  ∧ filter (λ ev, ev = EvRecordFailure) out.1.2 = [EvRecordFailure]
  ∧ filter (λ ev, ev = EvRecordSuccess) out.1.2 = []
  ∧ (∀ key, filter (λ ev, ev = EvSetCached key) out.1.2 = [])
  ∧ _cache out.1.1 = _cache st
  ∧ _usage_tracker out.1.1 = _usage_tracker st
  ∧ _circuit_breaker out.1.1
    = CircuitBreaker.record_failure (at_record_failure (at_time 7))
        (_circuit_breaker (admitted "u1" (at_time 7) st)).
Proof.
  apply (proj1 upstream_failure_recorded_once
           (Extract ["https://example.org"%string] false times_out)
           "u1" "s1" (at_time 7) (create defaults)
           (Sdk.TimeoutError "timed out"));
    by_computation.
Defined.

Lemma usage_snapshot_caching_witness :
  EvClearCache ∈ (invoke research_x "u1" "s1" (at_time 0) (create defaults)).1.2
  ∧ UsageTracker._cached
      (_usage_tracker (after research_x 0 (create defaults))) = None
  ∧ ∀ force resp,
      (UsageTracker.fetch force resp
         (_usage_tracker (after research_x 0 (create defaults)))).1.2
      = [EvUsageGet].
Proof.
  refine (proj2 (proj2 usage_snapshot_caching) research_x "u1" "s1" (at_time 0)
            (create defaults) (after research_x 0 (create defaults))
            (invoke research_x "u1" "s1" (at_time 0) (create defaults)).1.2
            (Result findings) _ _);
    by_computation.
Defined.

(** A usage snapshot fetched between two [research] calls of scenario C is
    still there after the second call, which is served from the result
    cache, and the next [fetch] returns it without a request; and a forced
    [fetch] whose request fails leaves the snapshot in place. *)
Lemma cache_hit_keeps_usage_snapshot :
  let st1 := after research_x 0 (create defaults) in
  let st2 := (get_usage false (UsageTracker.HttpJson quota) st1).1.1 in
  let st3 := after research_x 1 st2 in
  UsageTracker._cached (_usage_tracker st1) = None
  ∧ UsageTracker._cached (_usage_tracker st2)
    = Some (UsageTracker.snapshot_of quota)
  ∧ (invoke research_x "u1" "s1" (at_time 1) st2).2
    = inr (Result (mark findings))
  ∧ UsageTracker._cached (_usage_tracker st3)
    = Some (UsageTracker.snapshot_of quota)
  ∧ UsageTracker.fetch false (UsageTracker.HttpJson ∅) (_usage_tracker st3)
    = (_usage_tracker st3, [], inr (UsageTracker.snapshot_of quota))
  ∧ UsageTracker.fetch true (UsageTracker.HttpError "503") (_usage_tracker st3)
    = (_usage_tracker st3, [EvUsageGet], inl "503"%string).
Proof. by_computation. Qed.

Lemma breaker_invariant_witness :
  let cb := CircuitBreaker.run
              [CircuitBreaker.RecordFailure 1; CircuitBreaker.RecordFailure 2]
              (CircuitBreaker.init 2 5) in
  (CircuitBreaker._state cb = CircuitBreaker.open →
   CircuitBreaker._threshold cb ≤ CircuitBreaker._failures cb)
  ∧ ∀ op, CircuitBreaker._state cb ≠ CircuitBreaker.half_open →
      CircuitBreaker._state (CircuitBreaker.step cb op)
      = CircuitBreaker.half_open →
      ∃ now, op = CircuitBreaker.CanExecute now
             ∧ CircuitBreaker._state cb = CircuitBreaker.open
             ∧ CircuitBreaker._timeout cb
               ≤ now - CircuitBreaker._last_failure cb.
Proof.
  exact (breaker_invariant 2 5
           [CircuitBreaker.RecordFailure 1; CircuitBreaker.RecordFailure 2]).
Defined.

End GatewayRuns.

(** * Further properties of the rate limiter *)

Section LimiterQueries.

Import RateLimiter.

Lemma prune_idem w l : prune w (prune w l) = prune w l.
Proof. apply prune_prune. lia. Qed.

Lemma remaining_config user_id now rl :
  _max_requests (remaining user_id now rl).1 = _max_requests rl
  ∧ _window_seconds (remaining user_id now rl).1 = _window_seconds rl.
Proof. done. Qed.

Lemma remaining_requests_same user_id now rl :
  requests_of (remaining user_id now rl).1 user_id
  = prune (now - _window_seconds rl) (requests_of rl user_id).
Proof. unfold remaining, requests_of. simpl. by rewrite lookup_insert_eq. Qed.

Lemma remaining_requests_other user_id other now rl :
  other ≠ user_id →
  requests_of (remaining other now rl).1 user_id = requests_of rl user_id.
Proof.
  intros Hne. unfold remaining, requests_of. simpl. by rewrite lookup_insert_ne.
Qed.

(** X1. [remaining] answers the number of calls [check] would still admit
    at the same clock value: it is never negative and never above the cap,
    it is positive exactly when [check] admits, and asking it records
    nothing: the [check] that follows does what it would have done without
    it, and the lists of the other keys are as they were. *)
Theorem remaining_agrees_with_check (user_id : string) (now : Z) (rl : t) :
  let asked := remaining user_id now rl in
  0 ≤ asked.2
  ∧ asked.2 ≤ Z.max 0 (_max_requests rl)
  ∧ (0 < asked.2 ↔ (check user_id now rl).2 = true)
  ∧ check user_id now asked.1 = check user_id now rl
  ∧ ∀ other, other ≠ user_id →
      requests_of asked.1 other = requests_of rl other.
Proof.
  intros asked. split_and!.
  - subst asked. simpl. lia.
  - subst asked. simpl. lia.
  - subst asked. rewrite check_answer. simpl. rewrite negb_true_iff, geb_false_iff.
    lia.
  - subst asked. unfold check.
    rewrite remaining_requests_same, prune_idem. simpl.
    rewrite !insert_insert_eq. done.
  - intros other Hne. by apply remaining_requests_other.
Qed.

(** Two limiter states that are configured alike and keep the same list for
    a key. *)
Lemma check_agree user_id k now rl rl' :
  _max_requests rl = _max_requests rl' →
  _window_seconds rl = _window_seconds rl' →
  requests_of rl user_id = requests_of rl' user_id →
  let r := check k now rl in
  (k = user_id →
   (check k now rl').2 = r.2
   ∧ requests_of (check k now rl').1 user_id = requests_of r.1 user_id)
  ∧ (k ≠ user_id → requests_of r.1 user_id = requests_of rl' user_id).
Proof.
  intros Hm Hw Hreq r. split.
  - intros ->. subst r. rewrite !check_answer, !check_requests_same,
      !check_answer. by rewrite Hm, Hw, Hreq.
  - intros Hne. subst r. by rewrite check_requests_other.
Qed.

Lemma isolation_from user_id calls rl rl' :
  _max_requests rl = _max_requests rl' →
  _window_seconds rl = _window_seconds rl' →
  requests_of rl user_id = requests_of rl' user_id →
  admitted user_id calls rl
  = admitted user_id (filter (λ c, c.1 = user_id) calls) rl'
  ∧ requests_of (run calls rl).1 user_id
    = requests_of (run (filter (λ c, c.1 = user_id) calls) rl').1 user_id.
Proof.
  revert rl rl'. induction calls as [|[k now] calls IH]; intros rl rl' Hm Hw Hreq.
  - done.
  - destruct (check_agree user_id k now rl rl' Hm Hw Hreq) as [Hsame Hother].
    pose proof (check_config k now rl) as [Hm1 Hw1].
    pose proof (check_config k now rl') as [Hm1' Hw1'].
    destruct (decide (k = user_id)) as [->|Hne].
    + rewrite filter_cons_True by done. simpl.
      destruct (Hsame eq_refl) as [Hans Hlist].
      destruct (check user_id now rl) as [rl1 ok] eqn:Hc.
      destruct (check user_id now rl') as [rl1' ok'] eqn:Hc'.
      simpl in *. subst ok'.
      destruct (IH rl1 rl1') as [IHa IHr]; [congruence..|].
      destruct (run calls rl1) as [rl2 oks].
      destruct (run (filter _ calls) rl1') as [rl2' oks'].
      simpl in *. by rewrite IHa, IHr.
    + rewrite filter_cons_False by done. simpl.
      specialize (Hother Hne).
      destruct (check k now rl) as [rl1 ok] eqn:Hc. simpl in *.
      destruct (IH rl1 rl') as [IHa IHr]; [congruence..|].
      destruct (run calls rl1) as [rl2 oks]. simpl in *.
      rewrite bool_decide_eq_false_2 by done. done.
Qed.

(** X2. The keys of the limiter do not interfere: the calls of a key that
    are admitted, and the timestamps kept for it, are those of a limiter
    that is only ever asked about this key. *)
Theorem limiter_keys_are_isolated
    (user_id : string) (calls : list (string * Z)) (rl : t) :
  let own := filter (λ c, c.1 = user_id) calls in
  admitted user_id calls rl = admitted user_id own rl
  ∧ requests_of (run calls rl).1 user_id = requests_of (run own rl).1 user_id.
Proof. intros own. by apply isolation_from. Qed.

Lemma step_config rl op :
  _max_requests (step rl op) = _max_requests rl
  ∧ _window_seconds (step rl op) = _window_seconds rl.
Proof. destruct op; [apply check_config|apply remaining_config]. Qed.

Lemma prune_length w l : (length (prune w l) ≤ length l)%nat.
Proof. apply length_filter. Qed.

Lemma step_bounded rl op user_id :
  Z.of_nat (length (requests_of rl user_id)) ≤ Z.max 0 (_max_requests rl) →
  Z.of_nat (length (requests_of (step rl op) user_id))
  ≤ Z.max 0 (_max_requests rl).
Proof.
  intros Hb. destruct op as [k now|k now]; unfold step.
  - destruct (decide (k = user_id)) as [->|Hne].
    + rewrite check_requests_same, length_app.
      pose proof (prune_length (now - _window_seconds rl) (requests_of rl user_id)).
      destruct (check user_id now rl).2 eqn:Hok; simpl; [|lia].
      rewrite check_answer in Hok. apply negb_true_iff, geb_false_iff in Hok. lia.
    + by rewrite check_requests_other.
  - destruct (decide (k = user_id)) as [->|Hne].
    + rewrite remaining_requests_same.
      pose proof (prune_length (now - _window_seconds rl) (requests_of rl user_id)).
      lia.
    + by rewrite remaining_requests_other.
Qed.

Lemma run_ops_bounded ops rl user_id :
  Z.of_nat (length (requests_of rl user_id)) ≤ Z.max 0 (_max_requests rl) →
  Z.of_nat (length (requests_of (run_ops ops rl) user_id))
  ≤ Z.max 0 (_max_requests rl)
  ∧ _max_requests (run_ops ops rl) = _max_requests rl
  ∧ _window_seconds (run_ops ops rl) = _window_seconds rl.
Proof.
  intros Hstart. induction ops as [|op ops IH] using rev_ind; [done|].
  unfold run_ops in *. rewrite foldl_app. simpl.
  destruct IH as (Hb & Hm & Hw).
  destruct (step_config (foldl step rl ops) op) as [Hm' Hw'].
  split_and!; [|congruence..].
  rewrite <- Hm. apply step_bounded. by rewrite Hm.
Qed.

(** X3. Whatever the clock does, and in whatever order [check] and
    [remaining] are called, a limiter never keeps more timestamps for a key
    than its cap (none when the cap is not positive), and its cap and window
    stay as they were configured. *)
Theorem limiter_lists_stay_within_cap
    (max_requests window : Z) (ops : list Op) (user_id : string) :
  let rl := run_ops ops (init max_requests window) in
  Z.of_nat (length (requests_of rl user_id)) ≤ Z.max 0 max_requests
  ∧ _max_requests rl = max_requests
  ∧ _window_seconds rl = window.
Proof.
  apply (run_ops_bounded ops (init max_requests window) user_id).
  rewrite requests_of_init. simpl. lia.
Qed.

End LimiterQueries.

(** * Further properties of the circuit breaker *)

Section BreakerCounting.

Import CircuitBreaker.

(** X4. After a success, whatever the state was, the breaker counts the
    failures that follow from zero: it is open once at least one failure and
    at least [threshold] failures have been recorded, and closed before
    that. A threshold below one acts as a threshold of one. *)
Theorem breaker_opens_at_threshold_only (cb : t) (nows : list Z) :
  let after := run (RecordSuccess :: (RecordFailure <$> nows)) cb in
  let count := Z.of_nat (length nows) in
  _failures after = count
  ∧ _state after
    = (if (1 <=? count) && (_threshold cb <=? count) then open else closed)
  ∧ (_state after = closed → ∀ now, can_execute now after = (after, true)).
Proof.
  intros after count.
  assert (_failures after = count
          ∧ _threshold after = _threshold cb
          ∧ _state after
            = (if (1 <=? count) && (_threshold cb <=? count)
               then open else closed)) as (Hf & Hth & Hs).
  { subst after count. induction nows as [|now nows IH] using rev_ind.
    - done.
    - rewrite fmap_app.
      change (RecordSuccess :: (RecordFailure <$> nows) ++ (RecordFailure <$> [now]))
        with ((RecordSuccess :: (RecordFailure <$> nows)) ++ [RecordFailure now]).
      rewrite run_snoc.
      set (prev := run (RecordSuccess :: (RecordFailure <$> nows)) cb) in *.
      destruct IH as (Hf & Hth & Hs).
      simpl. rewrite Hf, Hth, Hs, length_app. simpl.
      split_and!; [lia|done|].
      destruct (Z.geb_spec (Z.of_nat (length nows) + 1) (_threshold cb));
        repeat case_match;
        rewrite ?andb_true_iff, ?andb_false_iff, ?Z.leb_le, ?Z.leb_gt in *;
        try done; lia. }
  split_and!; [done..|].
  intros Hclosed now. unfold can_execute. by rewrite Hclosed.
Qed.

End BreakerCounting.

(** * Properties of the usage tracker *)

Section UsageQueries.

Import UsageTracker.

Lemma key_remaining_bounds (k : KeyUsage.t) :
  0 ≤ KeyUsage.remaining k
  ∧ (KeyUsage.limit k ≤ KeyUsage.usage k → KeyUsage.remaining k = 0)
  ∧ (KeyUsage.usage k ≤ KeyUsage.limit k →
     KeyUsage.remaining k = KeyUsage.limit k - KeyUsage.usage k).
Proof. unfold KeyUsage.remaining. lia. Qed.

(** X5. [can_use] grants [count] credits exactly when the key has that many
    left, where what is left is the limit minus the usage and never below
    zero. With a snapshot at hand it asks nothing of the endpoint; without
    one it fetches, keeps the snapshot and judges by it, and when the fetch
    fails it raises and gives no answer. A count that is not positive is
    always granted; a key that has used up its limit, or a document without
    a ["key"] member, grants no positive count. [get_remaining] reports the
    same amount for the key. *)
Theorem can_use_judges_by_remaining (operation : string) (count : Z) (ut : t) :
  (∀ snapshot resp,
     _cached ut = Some snapshot →
     can_use operation count resp ut
     = (ut, [],
        inr (bool_decide (count ≤ KeyUsage.remaining (TavilyUsage.key snapshot))))
     ∧ (get_remaining resp ut).1 = (ut, [])
     ∧ ∃ left, (get_remaining resp ut).2 = inr left
               ∧ key_remaining left
                 = KeyUsage.remaining (TavilyUsage.key snapshot)
               ∧ 0 ≤ key_remaining left
               ∧ 0 ≤ plan_remaining left
               ∧ 0 ≤ paygo_remaining left)
  ∧ (∀ data,
       _cached ut = None →
       can_use operation count (HttpJson data) ut
       = (mk (_api_key ut) (Some (snapshot_of data)), [EvUsageGet],
          inr (bool_decide
                 (count ≤ KeyUsage.remaining (TavilyUsage.key (snapshot_of data))))))
  ∧ (∀ msg,
       _cached ut = None →
       can_use operation count (HttpError msg) ut = (ut, [EvUsageGet], inl msg))
  ∧ (∀ k, count ≤ 0 → bool_decide (count ≤ KeyUsage.remaining k) = true)
  ∧ (∀ k, 0 < count → KeyUsage.limit k ≤ KeyUsage.usage k →
       bool_decide (count ≤ KeyUsage.remaining k) = false)
  ∧ (∀ data, 0 < count → data !! "key"%string = None →
       bool_decide
         (count ≤ KeyUsage.remaining (TavilyUsage.key (snapshot_of data)))
       = false).
Proof.
  assert (∀ k, negb (KeyUsage.remaining k <? count)
               = bool_decide (count ≤ KeyUsage.remaining k)) as Hdec.
  { intros k. destruct (Z.ltb_spec (KeyUsage.remaining k) count); simpl;
      [by rewrite bool_decide_eq_false_2 by lia
      |by rewrite bool_decide_eq_true_2 by lia]. }
  split_and!.
  - intros snapshot resp Hc. unfold can_use, get_remaining, fetch. rewrite Hc.
    split_and!; [by rewrite Hdec|done|].
    eexists. split; [done|]. simpl.
    unfold KeyUsage.remaining, AccountUsage.plan_remaining,
      AccountUsage.paygo_remaining. split_and!; [done|lia..].
  - intros data Hc. unfold can_use, fetch. rewrite Hc. by rewrite Hdec.
  - intros msg Hc. unfold can_use, fetch. by rewrite Hc.
  - intros k Hcount. apply bool_decide_eq_true_2.
    pose proof (key_remaining_bounds k). lia.
  - intros k Hcount Hused. apply bool_decide_eq_false_2.
    destruct (key_remaining_bounds k) as (_ & H0 & _). rewrite H0 by done. lia.
  - intros data Hcount Hkey. apply bool_decide_eq_false_2.
    unfold snapshot_of. rewrite Hkey. simpl.
    unfold KeyUsage.remaining, Json.get_int. simpl. rewrite !lookup_empty.
    simpl. lia.
Qed.

Lemma can_use_judges_by_remaining_witness :
  can_use "search" 5 (HttpError "unreachable")
    (mk "tvly-key" (Some (snapshot_of Scenario.quota)))
  = (mk "tvly-key" (Some (snapshot_of Scenario.quota)), [],
     inr (bool_decide
            (5 ≤ KeyUsage.remaining
                   (TavilyUsage.key (snapshot_of Scenario.quota))))).
Proof.
  exact (proj1 (proj1 (can_use_judges_by_remaining "search" 5
                         (mk "tvly-key" (Some (snapshot_of Scenario.quota))))
                  (snapshot_of Scenario.quota) (HttpError "unreachable")
                  eq_refl)).
Defined.

End UsageQueries.

(** * Properties of request validation *)

Section Validation.

Lemma lstrip_length s : (String.length (Py.lstrip s) ≤ String.length s)%nat.
Proof.
  induction s as [|c s IH]; simpl; [done|]. destruct (Py.isspace c); simpl; lia.
Qed.

Lemma rstrip_length s : (String.length (Py.rstrip s) ≤ String.length s)%nat.
Proof.
  induction s as [|c s IH]; simpl; [done|].
  destruct (Py.rstrip s); [destruct (Py.isspace c)|]; simpl in *; lia.
Qed.

Lemma strip_length s : Py.len (Py.strip s) ≤ Py.len s.
Proof.
  unfold Py.len, Py.strip.
  pose proof (lstrip_length (Py.rstrip s)). pose proof (rstrip_length s). lia.
Qed.

Lemma rstrip_idem s : Py.rstrip (Py.rstrip s) = Py.rstrip s.
Proof.
  induction s as [|c s IH]; simpl; [done|].
  destruct (Py.rstrip s) as [|d kept] eqn:Hr.
  - destruct (Py.isspace c) eqn:Hc; simpl; [done|]. by rewrite Hc.
  - simpl in *. by rewrite IH.
Qed.

Lemma lstrip_idem s : Py.lstrip (Py.lstrip s) = Py.lstrip s.
Proof.
  induction s as [|c s IH]; simpl; [done|].
  destruct (Py.isspace c) eqn:Hc; [done|]. simpl. by rewrite Hc.
Qed.

(** Stripping on the left keeps a string that is stripped on the right
    stripped on the right. *)
Lemma rstrip_lstrip s :
  Py.rstrip s = s → Py.rstrip (Py.lstrip s) = Py.lstrip s.
Proof.
  induction s as [|c s IH]; [done|]. intros Hr. simpl.
  destruct (Py.isspace c) eqn:Hc; [|done].
  apply IH. simpl in Hr. rewrite Hc in Hr.
  destruct (Py.rstrip s); [done|]. by injection Hr.
Qed.

Lemma strip_idem s : Py.strip (Py.strip s) = Py.strip s.
Proof.
  unfold Py.strip.
  rewrite (rstrip_lstrip (Py.rstrip s)) by apply rstrip_idem.
  apply lstrip_idem.
Qed.

Lemma lstrip_head s c rest : Py.lstrip s = String c rest → Py.isspace c = false.
Proof.
  induction s as [|d s IH]; simpl; [done|].
  destruct (Py.isspace d) eqn:Hd; [done|]. by intros [= <- _].
Qed.

(** A string that [rstrip] leaves as it is does not end with white space. *)
Lemma rstrip_fixed_last s c rest :
  Py.rstrip s = s → s = (rest +:+ String c EmptyString)%string →
  Py.isspace c = false.
Proof.
  revert s. induction rest as [|d rest IH]; intros s Hr ->.
  - rewrite append_nil_l in Hr. simpl in Hr. by destruct (Py.isspace c).
  - rewrite append_cons in Hr. simpl in Hr.
    destruct (Py.rstrip (rest +:+ String c "")) as [|e kept] eqn:Hk.
    + destruct (Py.isspace d); [done|]. injection Hr as Hr.
      destruct rest; rewrite ?append_nil_l, ?append_cons in Hr; done.
    + injection Hr as Hr.
      apply (IH (rest +:+ String c EmptyString)%string); [|done].
      by rewrite Hk.
Qed.

Lemma strip_rstrip_fixed s : Py.rstrip (Py.strip s) = Py.strip s.
Proof. unfold Py.strip. apply rstrip_lstrip, rstrip_idem. Qed.

Lemma query_accepted v q :
  query_not_empty v = inr q →
  q = Py.strip v
  ∧ q ≠ ""%string
  ∧ Py.len q ≤ Py.len v
  ∧ (∀ c rest, q = String c rest → Py.isspace c = false)
  ∧ (∀ c rest, q = (rest +:+ String c EmptyString)%string →
       Py.isspace c = false)
  ∧ query_not_empty q = inr q.
Proof.
  intros Hq. unfold query_not_empty in Hq.
  destruct (bool_decide (v = ""%string) || bool_decide (Py.strip v = ""%string))
    eqn:Hblank; [done|].
  apply orb_false_iff in Hblank as [_ Hs]. apply bool_decide_eq_false in Hs.
  destruct (Z.ltb_spec 10000 (Py.len v)) as [|Hlen]; [done|].
  injection Hq as <-.
  pose proof (strip_length v) as Hle.
  split_and!; try done.
  - intros c rest Heq. unfold Py.strip in Heq. by eapply lstrip_head.
  - intros c rest Heq.
    eapply rstrip_fixed_last; [apply strip_rstrip_fixed|done].
  - unfold query_not_empty. rewrite strip_idem.
    rewrite !(bool_decide_eq_false_2 (Py.strip v = ""%string)) by done. simpl.
    destruct (Z.ltb_spec 10000 (Py.len (Py.strip v))); [lia|done].
Qed.

(** X6. The [query] validator of the research and search requests accepts a
    query exactly when it is at most 10000 characters long, counted before
    stripping, and does not consist of white space only. What it returns is
    the stripped query: it is not empty, it neither starts nor ends with
    white space, it is no longer than the query given, and validating it
    again returns it unchanged. *)
Theorem query_validation_normalises (v : string) :
  (is_ok (query_not_empty v) = true
   ↔ Py.strip v ≠ ""%string ∧ Py.len v ≤ 10000)
  ∧ ∀ q, query_not_empty v = inr q →
      q = Py.strip v
      ∧ q ≠ ""%string
      ∧ Py.len q ≤ Py.len v
      ∧ (∀ c rest, q = String c rest → Py.isspace c = false)
      ∧ (∀ c rest, q = (rest +:+ String c EmptyString)%string →
           Py.isspace c = false)
      ∧ query_not_empty q = inr q.
Proof.
  assert (Py.strip ""%string = ""%string) as Hempty by done.
  split; [|apply query_accepted].
  unfold query_not_empty.
  destruct (decide (v = ""%string)) as [->|Hv].
  { simpl. split; [done|]. by intros [? _]. }
  rewrite (bool_decide_eq_false_2 (v = ""%string)) by done. simpl.
  case_bool_decide as Hs; simpl.
  { split; [done|]. by intros [? _]. }
  destruct (Z.ltb_spec 10000 (Py.len v)); simpl.
  - split; [done|]. intros [_ ?]. lia.
  - split; [|done]. intros _. split; [done|lia].
Qed.

Lemma query_validation_normalises_witness :
  "llm agents" = Py.strip "  llm agents "
  ∧ "llm agents" ≠ ""%string
  ∧ Py.len "llm agents" ≤ Py.len "  llm agents "
  ∧ (∀ c rest, "llm agents"%string = String c rest → Py.isspace c = false)
  ∧ (∀ c rest, "llm agents"%string = (rest +:+ String c EmptyString)%string →
       Py.isspace c = false)
  ∧ query_not_empty "llm agents" = inr "llm agents"%string.
Proof.
  exact (proj2 (query_validation_normalises "  llm agents ") "llm agents"
           eq_refl).
Defined.

(** X7. A valid research request stays the same when it is validated again:
    the request built from accepted arguments is accepted with its own
    fields and is returned unchanged. *)
Theorem research_request_validation_is_idempotent
    (query : string) (model : ResearchModel.t) (max_results : Z)
    (include_domains exclude_domains : list string) (req : ResearchRequest.t) :
  ResearchRequest.validate query model max_results include_domains
    exclude_domains = inr req →
  ResearchRequest.validate (ResearchRequest.query req) (ResearchRequest.model req)
    (ResearchRequest.max_results req) (ResearchRequest.include_domains req)
    (ResearchRequest.exclude_domains req) = inr req
  ∧ 1 ≤ ResearchRequest.max_results req ≤ 50
  ∧ ResearchRequest.query req = Py.strip query.
Proof.
  unfold ResearchRequest.validate.
  destruct (query_not_empty query) as [msg|q] eqn:Hq;
    [by unfold failed_fields; simpl; repeat case_match|].
  destruct (query_accepted query q Hq) as (-> & _ & _ & _ & _ & Hagain).
  unfold failed_fields, in_range. simpl.
  destruct (Z.leb_spec 1 max_results), (Z.leb_spec max_results 50);
    simpl; rewrite ?filter_cons_True, ?filter_cons_False, ?filter_nil by done;
    simpl; try done.
  intros [= <-]. simpl. rewrite Hagain. simpl.
  destruct (Z.leb_spec 1 max_results), (Z.leb_spec max_results 50); try lia.
  simpl. rewrite ?filter_cons_False, ?filter_nil by done. simpl.
  split_and!; (done || lia).
Qed.

Lemma research_request_validation_is_idempotent_witness :
  let req := ResearchRequest.mk "llm agents" ResearchModel.PRO 10 [] [] in
  ResearchRequest.validate (ResearchRequest.query req) (ResearchRequest.model req)
    (ResearchRequest.max_results req) (ResearchRequest.include_domains req)
    (ResearchRequest.exclude_domains req) = inr req
  ∧ 1 ≤ ResearchRequest.max_results req ≤ 50
  ∧ ResearchRequest.query req = Py.strip "  llm agents ".
Proof.
  exact (research_request_validation_is_idempotent "  llm agents "
           ResearchModel.PRO 10 [] []
           (ResearchRequest.mk "llm agents" ResearchModel.PRO 10 [] [])
           eq_refl).
Defined.

Lemma urls_valid_ok v :
  Forall (λ url, ExtractRequest.has_scheme url = true) v →
  ExtractRequest.urls_valid v = inr v.
Proof.
  induction 1 as [|url v Hurl _ IH]; [done|]. simpl.
  unfold ExtractRequest.has_scheme in Hurl. by rewrite Hurl, IH.
Qed.

Lemma urls_valid_first_offender pre url post :
  Forall (λ u, ExtractRequest.has_scheme u = true) pre →
  ExtractRequest.has_scheme url = false →
  ExtractRequest.urls_valid (pre ++ url :: post)
  = inl ("invalid URL: " +:+ url)%string.
Proof.
  intros Hpre Hurl. induction Hpre as [|u pre Hu _ IH]; simpl.
  - unfold ExtractRequest.has_scheme in Hurl. by rewrite Hurl.
  - unfold ExtractRequest.has_scheme in Hu. by rewrite Hu, IH.
Qed.

Lemma urls_offender v :
  ¬ Forall (λ url, ExtractRequest.has_scheme url = true) v →
  ∃ pre url post,
    v = pre ++ url :: post
    ∧ Forall (λ u, ExtractRequest.has_scheme u = true) pre
    ∧ ExtractRequest.has_scheme url = false.
Proof.
  induction v as [|u v IH]; intros Hnot.
  - destruct Hnot. constructor.
  - destruct (ExtractRequest.has_scheme u) eqn:Hu.
    + destruct IH as (pre & url & post & -> & Hpre & Hurl).
      { intros Hall. apply Hnot. by constructor. }
      exists (u :: pre), url, post. split_and!; [done| |done]. by constructor.
    + exists [], u, v. split_and!; [done|constructor|done].
Qed.

(** X8. The [urls] validator returns the list as it is when every URL
    starts with [http://] or [https://], and otherwise raises with the first
    URL that does not. An extract request is accepted exactly when it has
    between 1 and 20 URLs and all of them have one of the two schemes; the
    request accepted holds the arguments unchanged. *)
Theorem extract_urls_validation (urls : list string) (include_images : bool) :
  let well_formed := Forall (λ url, ExtractRequest.has_scheme url = true) urls in
  (well_formed → ExtractRequest.urls_valid urls = inr urls)
  ∧ (¬ well_formed →
     ∃ pre url post,
       urls = pre ++ url :: post
       ∧ Forall (λ u, ExtractRequest.has_scheme u = true) pre
       ∧ ExtractRequest.has_scheme url = false
       ∧ ExtractRequest.urls_valid urls = inl ("invalid URL: " +:+ url)%string)
  ∧ (ExtractRequest.validate urls include_images
     = inr (ExtractRequest.mk urls include_images)
     ↔ (1 ≤ length urls ≤ 20)%nat ∧ well_formed)
  ∧ (ExtractRequest.validate urls include_images
     ≠ inr (ExtractRequest.mk urls include_images) →
     ExtractRequest.validate urls include_images
     = inl (ValidationError ["urls"%string])).
Proof.
  intros well_formed. split_and!.
  - apply urls_valid_ok.
  - intros Hnot. destruct (urls_offender urls Hnot) as (pre & url & post & -> & Hpre & Hurl).
    exists pre, url, post. split_and!; try done.
    by apply urls_valid_first_offender.
  - unfold ExtractRequest.validate, in_range.
    destruct (decide well_formed) as [Hwf|Hnot].
    + rewrite (urls_valid_ok urls Hwf). simpl. rewrite andb_true_r.
      destruct (Z.leb_spec 1 (Z.of_nat (length urls))),
        (Z.leb_spec (Z.of_nat (length urls)) 20); simpl;
        split; try done; try (intros [? _]; lia). intros _. split; [lia|done].
    + pose proof (urls_offender urls Hnot) as (pre & url & post & Heq & Hpre & Hurl).
      pose proof (urls_valid_first_offender pre url post Hpre Hurl) as Hbad.
      rewrite <- Heq in Hbad. rewrite Hbad.
      simpl. rewrite andb_false_r. split; [done|]. by intros [_ ?].
  - unfold ExtractRequest.validate. by case_match.
Qed.

End Validation.

(** * Further properties of the gateway *)

Section GatewayComposition.

Import ResearchTool Gateway.

Local Opaque _cache_key.

Lemma runs_start c : ∃ rest, runs c = EvUpstream 1 :: rest.
Proof.
  assert (∀ (up : nat → Sdk.Outcome unit),
            ∃ rest, (with_retry up).1 = EvUpstream 1 :: rest) as Hretry.
  { intros up. unfold with_retry. simpl.
    destruct (up 1%nat) as [|e]; [by eexists|].
    destruct (Sdk.transient e); [|by eexists].
    destruct (up 2%nat) as [|e2]; [by eexists|].
    destruct (Sdk.transient e2); [|by eexists].
    destruct (up 3%nat) as [|e3]; [by eexists|].
    destruct (Sdk.transient e3); by eexists. }
  destruct c; simpl; try apply Hretry; by eexists.
Qed.

Lemma upstream_in_runs c : EvUpstream 1 ∈ runs c.
Proof. destruct (runs_start c) as [rest ->]. apply list_elem_of_here. Qed.

Lemma lookup_valid_insert cache key d stored_at now :
  lookup_valid (<[key := mk_entry d stored_at]> cache) key now
  = if now - stored_at <? 3600 then Some d else None.
Proof. unfold lookup_valid. by rewrite lookup_insert_eq. Qed.

(** The kind of reply of each operation. *)
Lemma invoke_reply_kind c user_id session_id clk st st' tr r :
  invoke c user_id session_id clk st = (st', tr, inr r) →
  match c with
  | Research _ _ _ _ _ _ | Search _ _ _ _ _ _ _ _ => ∃ d, r = Result d
  | Extract _ _ _ => ∃ x, r = Extracted x
  | GetContext _ _ _ | Qna _ _ => ∃ text, r = Text text
  | ResearchStream _ _ _ => r = Exhausted
  | ResearchStreamStopped _ _ _ _ => r = Exhausted ∨ r = Stopped
  end.
Proof.
  intros Hinv. apply invoke_path_eq in Hinv.
  remember (inr r) as res eqn:Hres.
  destruct Hinv as [| | |key hit ? ? ? Hkey|r0 ? ? ? ? ? ? Hstop Hanswer|
                   |events ? ? ? ? ? ? Hstop]; simplify_eq.
  - destruct c; simpl in Hkey; try done; by eexists.
  - destruct c; simpl in Hanswer; repeat case_match; simplify_eq;
      eauto.
  - destruct c; simpl in Hstop; try done. by right.
Qed.

(** X9. A result stored by a cached operation is served for 3600 seconds
    and not after. Once another call with the same key has passed admission:
    if fewer than 3600 seconds have passed since the result was stored, the
    call returns it with the cached flag set and runs no SDK call; if 3600
    seconds or more have passed, the SDK is called again, and the result it
    returns replaces the entry together with the time it is stored at. *)
Theorem cached_result_expires
    (first second : Call) (key : string)
    (user1 session1 user2 session2 : string) (clk1 clk2 : Clock)
    (st st1 : t) (tr1 : list Event) (d : Cached) :
  cache_key first = Some key →
  cache_key second = Some key →
  invoke first user1 session1 clk1 st = (st1, tr1, inr (Result d)) →
  cached_flag d = false →
  valid second = true →
  limiter_lets user2 clk2 st1 = true →
  let out := invoke second user2 session2 clk2 st1 in
  (at_get_cached clk2 - at_set_cached clk1 < 3600 →
   out.2 = inr (Result (mark d))
   ∧ out.1.2 = [EvCanExecute; EvCheck user2])
  ∧ (3600 ≤ at_get_cached clk2 - at_set_cached clk1 →
     EvUpstream 1 ∈ out.1.2
     ∧ ∀ r, out.2 = inr r →
         ∃ fresh_result,
           r = Result fresh_result
           ∧ cached_flag fresh_result = false
           ∧ _cache out.1.1 !! key
             = Some (mk_entry fresh_result (at_set_cached clk2))).
Proof.
  intros Hkey1 Hkey2 Hfirst Hfresh Hv Hl out.
  apply invoke_path_eq in Hfirst.
  remember (inr (Result d)) as res eqn:Hres.
  destruct Hfirst as [| | |key' hit| | |]; simplify_eq.
  { by rewrite mark_cached_flag in Hfresh. }
  set (st1 := mk _ _ _ _) in *.
  assert (breaker_lets clk2 st1 = true) as Hb by done.
  assert (cache_hit second clk2 st1
          = if at_get_cached clk2 - at_set_cached clk1 <? 3600
            then Some d else None) as Hhit.
  { unfold cache_hit. rewrite Hkey2. subst st1. unfold stored. simpl.
    rewrite Hkey1. apply lookup_valid_insert. }
  pose proof (invoke_path second user2 session2 clk2 st1) as HP.
  pose proof (invoke_reply_kind second user2 session2 clk2 st1) as Hkind.
  fold out in HP, Hkind. destruct out as [[st2 tr2] res2]. simpl in HP. simpl.
  split.
  - intros Hyoung.
    destruct (Z.ltb_spec (at_get_cached clk2 - at_set_cached clk1) 3600);
      [|lia].
    destruct HP; try congruence.
    assert (hit = d) as -> by congruence. done.
  - intros Hold.
    destruct (Z.ltb_spec (at_get_cached clk2 - at_set_cached clk1) 3600);
      [lia|].
    destruct HP as [| | |key' hit|r Hv' Hb' Hl' Hmiss Hok Hnew| |];
      try congruence.
    + split.
      { rewrite !elem_of_app. right. left. apply upstream_in_runs. }
      intros r0 [= <-].
      assert (∃ x, r = Result x) as [x ->].
      { specialize (Hkind _ _ r eq_refl).
        destruct second; simpl in Hkey2; done. }
      exists x. split_and!; [done|by apply negb_true_iff|].
      simpl. unfold stored. rewrite Hkey2. apply lookup_insert_eq.
    + split; [|done].
      rewrite !elem_of_app. right. left. apply upstream_in_runs.
Qed.

Lemma cached_result_expires_witness :
  let st1 := Scenario.after Scenario.research_x 0
               (create Scenario.defaults) in
  let out := invoke Scenario.research_x "u1" "s1" (Scenario.at_time 3600) st1 in
  (at_get_cached (Scenario.at_time 3600) - at_set_cached (Scenario.at_time 0)
   < 3600 →
   out.2 = inr (Result (mark Scenario.findings))
   ∧ out.1.2 = [EvCanExecute; EvCheck "u1"])
  ∧ (3600 ≤ at_get_cached (Scenario.at_time 3600)
            - at_set_cached (Scenario.at_time 0) →
     EvUpstream 1 ∈ out.1.2
     ∧ ∀ r, out.2 = inr r →
         ∃ fresh_result,
           r = Result fresh_result
           ∧ cached_flag fresh_result = false
           ∧ _cache out.1.1
             !! "241364e9c5ad3ab5affb4f2247ee40fc303e7af837044c648ab852d84362dc44"%string
             = Some (mk_entry fresh_result
                       (at_set_cached (Scenario.at_time 3600)))).
Proof.
  refine (cached_result_expires Scenario.research_x Scenario.research_x
            "241364e9c5ad3ab5affb4f2247ee40fc303e7af837044c648ab852d84362dc44"
            "u1" "s1" "u1" "s1" (Scenario.at_time 0) (Scenario.at_time 3600)
            (create Scenario.defaults)
            (Scenario.after Scenario.research_x 0 (create Scenario.defaults))
            (invoke Scenario.research_x "u1" "s1" (Scenario.at_time 0)
               (create Scenario.defaults)).1.2
            Scenario.findings _ _ _ _ _ _);
    by_computation.
Defined.

(** X10. No operation removes or replaces a cache entry of another key:
    every key that has an entry keeps one, and the entries of all keys other
    than the call's own are exactly as they were. The operations that are
    not cached ([extract], [get_context], [qna], the stream) leave the whole
    cache as it was. *)
Theorem cache_is_never_evicted
    (c : Call) (user_id session_id : string) (clk : Clock) (st : t) :
  let st' := (invoke c user_id session_id clk st).1.1 in
  (∀ k, is_Some (_cache st !! k) → is_Some (_cache st' !! k))
  ∧ (∀ k, cache_key c ≠ Some k → _cache st' !! k = _cache st !! k)
  ∧ (cache_key c = None → _cache st' = _cache st).
Proof.
  intros st'. subst st'.
  pose proof (invoke_path c user_id session_id clk st) as HP.
  destruct (invoke c user_id session_id clk st) as [[st' tr] res].
  simpl in HP. simpl.
  assert ((∀ k, is_Some (_cache st !! k) → is_Some (_cache st' !! k))
          ∧ (∀ k, cache_key c ≠ Some k → _cache st' !! k = _cache st !! k))
    as [Hkeep Hother].
  { destruct HP as [| | |key hit Hv Hb Hl Hkey Hhit|r| |]; simpl; try done.
    - split.
      + intros k. unfold marked. rewrite lookup_alter.
        case_decide; [subst k|done]. by rewrite fmap_is_Some.
      + intros k Hne. unfold marked. rewrite lookup_alter_ne; [done|].
        congruence.
    - unfold stored. destruct (cache_key c) as [key|]; [|done].
      destruct r; try done. split.
      + intros k. destruct (decide (key = k)) as [->|Hne].
        * by rewrite lookup_insert_eq.
        * by rewrite lookup_insert_ne.
      + intros k Hne. rewrite lookup_insert_ne; [done|]. congruence. }
  split_and!; [done..|].
  intros Hnone. apply map_eq. intros k. apply Hother. by rewrite Hnone.
Qed.

(** X11. Every call that gets through validation, the breaker and the
    limiter uses up one slot of the caller's rate limit, whether it is then
    served from the cache, answered by the SDK or fails: the caller's list is
    the pruned list with the clock value of the check appended. The lists of
    the other callers are as they were. *)
Theorem admitted_call_uses_one_slot
    (c : Call) (user_id session_id : string) (clk : Clock) (st : t) :
  valid c = true →
  breaker_lets clk st = true →
  limiter_lets user_id clk st = true →
  let st' := (invoke c user_id session_id clk st).1.1 in
  RateLimiter.requests_of (_rate_limiter st') user_id
  = RateLimiter.prune
      (at_check clk - RateLimiter._window_seconds (_rate_limiter st))
      (RateLimiter.requests_of (_rate_limiter st) user_id)
    ++ [at_check clk]
  ∧ ∀ other, other ≠ user_id →
      RateLimiter.requests_of (_rate_limiter st') other
      = RateLimiter.requests_of (_rate_limiter st) other.
Proof.
  intros Hv Hb Hl st'.
  pose proof (invoke_path c user_id session_id clk st) as HP.
  fold st' in HP.
  assert (_rate_limiter st' = _rate_limiter (admitted user_id clk st)) as ->.
  { destruct HP; simpl; congruence. }
  simpl. split.
  - rewrite check_requests_same. unfold limiter_lets in Hl. by rewrite Hl.
  - intros other Hne. by apply check_requests_other.
Qed.

Lemma admitted_call_uses_one_slot_witness :
  let st := Scenario.after Scenario.research_x 0 (create Scenario.defaults) in
  let st' := (invoke Scenario.research_x "u1" "s1" (Scenario.at_time 5) st).1.1 in
  RateLimiter.requests_of (_rate_limiter st') "u1"
  = RateLimiter.prune
      (at_check (Scenario.at_time 5)
       - RateLimiter._window_seconds (_rate_limiter st))
      (RateLimiter.requests_of (_rate_limiter st) "u1")
    ++ [at_check (Scenario.at_time 5)]
  ∧ ∀ other, other ≠ "u1"%string →
      RateLimiter.requests_of (_rate_limiter st') other
      = RateLimiter.requests_of (_rate_limiter st) other.
Proof.
  refine (admitted_call_uses_one_slot Scenario.research_x "u1" "s1"
            (Scenario.at_time 5)
            (Scenario.after Scenario.research_x 0 (create Scenario.defaults))
            _ _ _);
    by_computation.
Defined.

(** X12. The retry policy runs the decorated function one to three times,
    numbered from 1 without gaps; every run but the last raised a transient
    error; the outcome is that of the last run; and the policy stops before
    the third run only on a result or on an error that is not transient. A
    function that fails transiently twice and returns on the third run
    returns that result. *)
Theorem retry_policy_runs (A : Type) (body : nat → Sdk.Outcome A) :
  (∃ n : nat,
     (1 ≤ n ≤ 3)%nat
     ∧ with_retry body = (EvUpstream <$> seq 1 n, body n)
     ∧ (∀ k, (1 ≤ k < n)%nat →
          ∃ e, body k = Sdk.Raised e ∧ Sdk.transient e = true)
     ∧ ((n < 3)%nat →
        ∀ e, body n = Sdk.Raised e → Sdk.transient e = false))
  ∧ (∀ e1 e2 a,
       body 1%nat = Sdk.Raised e1 → Sdk.transient e1 = true →
       body 2%nat = Sdk.Raised e2 → Sdk.transient e2 = true →
       body 3%nat = Sdk.Returned a →
       with_retry body
       = ([EvUpstream 1; EvUpstream 2; EvUpstream 3], Sdk.Returned a)).
Proof.
  split.
  - unfold with_retry. simpl.
    destruct (body 1%nat) as [a1|e1] eqn:H1.
    { exists 1%nat. rewrite H1. split_and!; [lia|lia|done|intros; lia|done]. }
    destruct (Sdk.transient e1) eqn:Ht1.
    2:{ exists 1%nat. rewrite H1.
        split_and!; [lia|lia|done|intros; lia|congruence]. }
    assert (∀ k, (1 ≤ k < 2)%nat →
              ∃ e, body k = Sdk.Raised e ∧ Sdk.transient e = true) as Hone.
    { intros k Hk. assert (k = 1%nat) as -> by lia. eauto. }
    destruct (body 2%nat) as [a2|e2] eqn:H2.
    { exists 2%nat. rewrite H2. split_and!; [lia|lia|done|done|done]. }
    destruct (Sdk.transient e2) eqn:Ht2.
    2:{ exists 2%nat. rewrite H2. split_and!; [lia|lia|done|done|congruence]. }
    exists 3%nat. split_and!; [lia|lia| | |lia].
    + destruct (body 3%nat) as [a3|e3]; [done|]. by destruct (Sdk.transient e3).
    + intros k Hk. destruct (decide (k = 1%nat)) as [->|]; [eauto|].
      assert (k = 2%nat) as -> by lia. eauto.
  - intros e1 e2 a H1 Ht1 H2 Ht2 H3. unfold with_retry. simpl.
    by rewrite H1, Ht1, H2, Ht2, H3.
Qed.

(** X13. When the SDK call of an admitted call ends with a result, after
    however many transient failures the retry policy has absorbed, the
    caller gets the result built from what the SDK delivered: [research]
    the SDK's request id, status, content and sources with the model of the
    request, [search] the SDK's answer, results and response time with the
    SDK's query or else the stripped query of the request, [extract],
    [get_context] and [qna] what the SDK returned, and the stream its end.
    [research] and [search] store that result under the call's key with
    the cached flag off and the time of the store; the other operations
    leave the cache as it was. [clear_cache] and [record_success] are
    called once each and [record_failure] is not called: the breaker is
    closed with a count of zero whatever state it was in, and it lets the
    next call through. *)
Theorem upstream_success_closes_breaker
    (c : Call) (user_id session_id : string) (clk : Clock) (st : t) :
  valid c = true →
  breaker_lets clk st = true →
  limiter_lets user_id clk st = true →
  cache_hit c clk st = None →
  failure c = None →
  stopped c = None →
  let out := invoke c user_id session_id clk st in
  match c with
  | Research _ m _ _ _ up =>
      ∃ sdk, (with_retry up).2 = Sdk.Returned sdk
             ∧ out.2 = inr (Result (CachedResearch
                              (ResearchResult.mk (sdk_request_id sdk)
                                 (sdk_status sdk) (sdk_content sdk)
                                 (sdk_sources sdk) (ResearchModel.value m)
                                 false)))
  | Search q _ _ _ _ _ _ up =>
      ∃ sdk, (with_retry up).2 = Sdk.Returned sdk
             ∧ out.2 = inr (Result (CachedSearch
                              (SearchResult.mk
                                 (default (Py.strip q) (sdk_query sdk))
                                 (sdk_answer sdk) (sdk_results sdk)
                                 (sdk_response_time sdk) false)))
  | Extract _ _ up =>
      ∃ result, (with_retry up).2 = Sdk.Returned result
                ∧ out.2 = inr (Extracted result)
  | GetContext _ _ up | Qna _ up =>
      ∃ text, up = Sdk.Returned text ∧ out.2 = inr (Text text)
  | ResearchStream _ _ _ | ResearchStreamStopped _ _ _ _ =>
      out.2 = inr Exhausted
  end
  ∧ (∀ key, cache_key c = Some key →
       ∃ d, out.2 = inr (Result d)
            ∧ cached_flag d = false
            ∧ _cache out.1.1
              = <[key := mk_entry d (at_set_cached clk)]> (_cache st))
  ∧ (cache_key c = None → _cache out.1.1 = _cache st)
  ∧ out.1.2 = [EvCanExecute; EvCheck user_id] ++ runs c ++ store_events c
              ++ [EvClearCache; EvRecordSuccess]
  ∧ filter (λ ev, ev = EvRecordFailure) out.1.2 = []
  ∧ filter (λ ev, ev = EvRecordSuccess) out.1.2 = [EvRecordSuccess]
  ∧ CircuitBreaker._failures (_circuit_breaker out.1.1) = 0
  ∧ CircuitBreaker._state (_circuit_breaker out.1.1) = CircuitBreaker.closed
  ∧ ∀ clk', breaker_lets clk' out.1.1 = true.
Proof.
  intros Hv Hb Hl Hmiss Hok Hrun out.
  pose proof (invoke_path c user_id session_id clk st) as HP.
  fold out in HP. destruct out as [[st' tr] res]. simpl in HP.
  change ((st', tr, res).2) with res. change ((st', tr, res).1.1) with st'.
  change ((st', tr, res).1.2) with tr.
  destruct HP as [| | | |r _ _ _ _ _ Hfresh _ Hanswer| |]; try congruence.
  assert (filter (λ ev, ev = EvRecordFailure) (store_events c) = []
          ∧ filter (λ ev, ev = EvRecordSuccess) (store_events c) = [])
    as [Hsf Hss].
  { unfold store_events. by destruct (cache_key c). }
  split_and!; try done.
  - destruct c as [q m n incl excl up|q m up|q d n incl excl ans raw up
                  |urls images up|q n up|q up|q m up stop];
      simpl in Hanswer.
    + destruct (with_retry up).2 as [sdk|e]; [|done].
      exists sdk. split; [done|]. congruence.
    + by case_match; simplify_eq.
    + destruct (with_retry up).2 as [sdk|e]; [|done].
      exists sdk. split; [done|]. congruence.
    + destruct (with_retry up).2 as [result|e]; [|done].
      exists result. split; [done|]. congruence.
    + destruct up as [text|e]; [|done]. exists text. split; [done|]. congruence.
    + destruct up as [text|e]; [|done]. exists text. split; [done|]. congruence.
    + by case_match; simplify_eq.
  - intros key Hkey. simpl. unfold stored. rewrite Hkey.
    destruct r as [d| | | |]; simpl in Hfresh.
    + exists d. split_and!; [done|by apply negb_true_iff|done].
    + destruct c; simpl in Hanswer, Hkey; repeat case_match; simplify_eq.
    + destruct c; simpl in Hanswer, Hkey; repeat case_match; simplify_eq.
    + destruct c; simpl in Hanswer, Hkey; repeat case_match; simplify_eq.
    + done.
  - intros Hkey. simpl. unfold stored. by rewrite Hkey.
  - rewrite !filter_app, (count_in_runs c EvRecordFailure), Hsf by done. done.
  - rewrite !filter_app, (count_in_runs c EvRecordSuccess), Hss by done. done.
Qed.

Lemma upstream_success_closes_breaker_witness :
  let up := λ n, match n with
                 | 3%nat => Sdk.Returned (ExtractResult.mk [] ["https://example.org"%string])
                 | _ => Sdk.Raised (Sdk.ConnectionError "reset")
                 end in
  let c := Extract ["https://example.org"%string] false up in
  let st := Scenario.after (Qna "q" Scenario.breaks) 0
              (create Scenario.defaults) in
  let out := invoke c "u1" "s1" (Scenario.at_time 1) st in
  (∃ result, (with_retry up).2 = Sdk.Returned result
             ∧ out.2 = inr (Extracted result))
  ∧ (∀ key, cache_key c = Some key →
       ∃ d, out.2 = inr (Result d)
            ∧ cached_flag d = false
            ∧ _cache out.1.1
              = <[key := mk_entry d (at_set_cached (Scenario.at_time 1))]>
                  (_cache st))
  ∧ (cache_key c = None → _cache out.1.1 = _cache st)
  ∧ out.1.2 = [EvCanExecute; EvCheck "u1"] ++ runs c ++ store_events c
              ++ [EvClearCache; EvRecordSuccess]
  ∧ filter (λ ev, ev = EvRecordFailure) out.1.2 = []
  ∧ filter (λ ev, ev = EvRecordSuccess) out.1.2 = [EvRecordSuccess]
  ∧ CircuitBreaker._failures (_circuit_breaker out.1.1) = 0
  ∧ CircuitBreaker._state (_circuit_breaker out.1.1) = CircuitBreaker.closed
  ∧ ∀ clk', breaker_lets clk' out.1.1 = true.
Proof.
  refine (upstream_success_closes_breaker
            (Extract ["https://example.org"%string] false
               (λ n, match n with
                     | 3%nat => Sdk.Returned
                                  (ExtractResult.mk []
                                     ["https://example.org"%string])
                     | _ => Sdk.Raised (Sdk.ConnectionError "reset")
                     end))
            "u1" "s1" (Scenario.at_time 1)
            (Scenario.after (Qna "q" Scenario.breaks) 0
               (create Scenario.defaults))
            _ _ _ _ _ _);
    by_computation.
Defined.

(** X14. The failure that brings the count to the threshold opens the
    breaker: when an admitted call fails at the SDK and the count was one
    below the threshold or more, the breaker is open afterwards, and every
    valid call made less than [timeout] seconds after that failure is
    refused with the circuit-open error before the limiter is asked and
    before any SDK call, and leaves the tool as it is. *)
Theorem failing_call_at_threshold_opens_breaker
    (c : Call) (user_id session_id : string) (clk : Clock) (st : t)
    (e : Sdk.Error) :
  valid c = true →
  breaker_lets clk st = true →
  limiter_lets user_id clk st = true →
  cache_hit c clk st = None →
  failure c = Some e →
  CircuitBreaker._threshold (_circuit_breaker st)
  ≤ CircuitBreaker._failures (_circuit_breaker st) + 1 →
  let st1 := (invoke c user_id session_id clk st).1.1 in
  CircuitBreaker._state (_circuit_breaker st1) = CircuitBreaker.open
  ∧ CircuitBreaker._last_failure (_circuit_breaker st1) = at_record_failure clk
  ∧ ∀ next user_next session_next clk_next,
      valid next = true →
      at_can_execute clk_next - at_record_failure clk
      < CircuitBreaker._timeout (_circuit_breaker st) →
      invoke next user_next session_next clk_next st1
      = (st1, [EvCanExecute],
         inl (CircuitOpenError "Service temporarily unavailable")).
Proof.
  intros Hv Hb Hl Hmiss Hfail Hth st1.
  pose proof (invoke_path c user_id session_id clk st) as HP.
  fold st1 in HP.
  destruct (admitted_breaker user_id clk st) as (Hth' & Hto' & Hf' & _ & _).
  assert (_circuit_breaker st1
          = CircuitBreaker.record_failure (at_record_failure clk)
              (_circuit_breaker (admitted user_id clk st))) as Hcb.
  { destruct HP; simpl; congruence. }
  assert (CircuitBreaker._state (_circuit_breaker st1) = CircuitBreaker.open)
    as Hopen.
  { rewrite Hcb. unfold CircuitBreaker.record_failure. simpl in *.
    rewrite Hth', Hf'.
    destruct (Z.geb_spec
                (CircuitBreaker._failures (_circuit_breaker st) + 1)
                (CircuitBreaker._threshold (_circuit_breaker st)));
      [done|lia]. }
  split_and!; [done|by rewrite Hcb|].
  intros next user_next session_next clk_next Hvn Hsoon.
  assert (breaker_lets clk_next st1 = false) as Hrefuse.
  { unfold breaker_lets, CircuitBreaker.can_execute. rewrite Hopen.
    rewrite Hcb at 1 2. simpl in *. rewrite Hto'.
    destruct (Z.geb_spec (at_can_execute clk_next - at_record_failure clk)
                (CircuitBreaker._timeout (_circuit_breaker st))); [lia|done]. }
  pose proof (invoke_path next user_next session_next clk_next st1) as HPn.
  destruct (invoke next user_next session_next clk_next st1) as [[st2 tr2] r2].
  simpl in HPn. destruct HPn; congruence.
Qed.

Lemma failing_call_at_threshold_opens_breaker_witness :
  let st1 := (invoke (Qna "q" Scenario.breaks) "u1" "s1" (Scenario.at_time 0)
                (create Scenario.one_strike)).1.1 in
  CircuitBreaker._state (_circuit_breaker st1) = CircuitBreaker.open
  ∧ CircuitBreaker._last_failure (_circuit_breaker st1)
    = at_record_failure (Scenario.at_time 0)
  ∧ ∀ next user_next session_next clk_next,
      valid next = true →
      at_can_execute clk_next - at_record_failure (Scenario.at_time 0)
      < CircuitBreaker._timeout (_circuit_breaker (create Scenario.one_strike)) →
      invoke next user_next session_next clk_next st1
      = (st1, [EvCanExecute],
         inl (CircuitOpenError "Service temporarily unavailable")).
Proof.
  refine (failing_call_at_threshold_opens_breaker (Qna "q" Scenario.breaks)
            "u1" "s1" (Scenario.at_time 0) (create Scenario.one_strike)
            (Sdk.OtherError "boom") _ _ _ _ _ _);
    first [by_computation | vm_compute; discriminate].
Defined.

End GatewayComposition.

(** * Reporting to the breaker, streams and sequences of calls *)

Section GatewayReports.

Import ResearchTool Gateway.

Local Opaque _cache_key.

Lemma reports_in_runs c :
  filter (λ ev, ev = EvRecordSuccess ∨ ev = EvRecordFailure) (runs c) = [].
Proof.
  pose proof (runs_sdk c) as Hsdk.
  induction Hsdk as [|x l Hx _ IH]; [done|].
  rewrite filter_cons_False; [done|]. intros [-> | ->]; done.
Qed.

Lemma reports_in_store c :
  filter (λ ev, ev = EvRecordSuccess ∨ ev = EvRecordFailure) (store_events c)
  = [].
Proof.
  unfold store_events. destruct (cache_key c); [|done].
  rewrite filter_cons_False; [done|]. intros [?|?]; done.
Qed.

Lemma upstream_after_admission user_id (l : list Event) :
  EvUpstream 1 ∈ EvCanExecute :: EvCheck user_id :: l ↔ EvUpstream 1 ∈ l.
Proof.
  rewrite !elem_of_cons. split; [|by right; right].
  intros [?|[?|?]]; done.
Qed.

(** X15. A call reports to the breaker at most once, and only when it got
    to the SDK. A call that runs to its end and got to the SDK reports
    exactly once: [record_success] when it returns a result that is not
    taken from the cache, [record_failure] when it raises the error that
    wraps an SDK exception; a call that fails validation, is refused by the
    breaker or the limiter, or is served from the cache reports nothing. A
    stream that its consumer stops reports nothing either, although it has
    passed admission and, unless it was cancelled before a worker took the
    call, has got to the SDK: [record_success], [record_failure] and
    [clear_cache] are not called, and the breaker and the usage snapshot
    stay as admission left them. A stream closed at a chunk has handed over
    the chunks up to that one. *)
Theorem breaker_outcome_reported_once
    (c : Call) (user_id session_id : string) (clk : Clock) (st : t) :
  let out := invoke c user_id session_id clk st in
  let reports :=
    filter (λ ev, ev = EvRecordSuccess ∨ ev = EvRecordFailure) out.1.2 in
  (length reports ≤ 1)%nat
  ∧ (length reports = 1%nat → EvUpstream 1 ∈ out.1.2)
  ∧ (EvUpstream 1 ∈ out.1.2 → length reports = 1%nat ∨ out.2 = inr Stopped)
  ∧ (reports = [EvRecordSuccess]
     ↔ ∃ r, out.2 = inr r
            ∧ r ≠ Stopped
            ∧ ∀ d, r = Result d → cached_flag d = false)
  ∧ (reports = [EvRecordFailure]
     ↔ ∃ msg e, out.2 = inl (ResearchToolError msg (Some e)))
  ∧ (out.2 = inr Stopped →
     reports = []
     ∧ filter (λ ev, ev = EvClearCache) out.1.2 = []
     ∧ out.1.1 = admitted user_id clk st
     ∧ ∃ q m up stop, c = ResearchStreamStopped q m up stop)
  ∧ (∀ q m up stop,
       c = ResearchStreamStopped q m up stop →
       valid c = true →
       breaker_lets clk st = true →
       limiter_lets user_id clk st = true →
       (∀ started,
          stop = AtCall started →
          out = (admitted user_id clk st,
                 [EvCanExecute; EvCheck user_id]
                 ++ (if started then [EvUpstream 1] else []),
                 inr Stopped))
       ∧ (∀ index stream,
            stop = AtChunk index →
            up = Sdk.Returned stream →
            (index < length (sdk_chunks stream))%nat →
            out = (admitted user_id clk st,
                   [EvCanExecute; EvCheck user_id; EvUpstream 1]
                   ++ (EvYield <$> take (S index) (sdk_chunks stream)),
                   inr Stopped))).
Proof.
  intros out reports.
  pose proof (invoke_path c user_id session_id clk st) as HP.
  fold out in HP. subst reports. destruct out as [[st' tr] res].
  change ((st', tr, res).2) with res. change ((st', tr, res).1.1) with st'.
  change ((st', tr, res).1.2) with tr. simpl in HP.
  assert (∀ events,
            stopped c = Some events →
            filter (λ ev, ev = EvRecordSuccess ∨ ev = EvRecordFailure) events
            = []
            ∧ filter (λ ev, ev = EvClearCache) events = []
            ∧ (EvUpstream 1 ∈ [EvCanExecute; EvCheck user_id] ++ events →
               EvUpstream 1 ∈ events)
            ∧ ∃ q m up stop, c = ResearchStreamStopped q m up stop)
    as Hstopped.
  { intros events Hev.
    assert (Forall (λ ev, is_sdk_event ev = true) events) as Hsdk.
    { destruct c as [| | | | | |q m up [started|index]]; simpl in Hev;
        try done.
      - injection Hev as <-. destruct started; by repeat constructor.
      - destruct up as [stream|e]; [|done].
        case_bool_decide; [|done]. injection Hev as <-.
        constructor; [done|]. apply Forall_fmap. by apply Forall_true. }
    split_and!.
    - clear Hev. induction Hsdk as [|x l Hx _ IH]; [done|].
      rewrite filter_cons_False; [done|]. intros [-> | ->]; done.
    - clear Hev. induction Hsdk as [|x l Hx _ IH]; [done|].
      rewrite filter_cons_False; [done|]. intros ->; done.
    - rewrite elem_of_app, !elem_of_cons, elem_of_nil.
      intros [[?|[?|?]]|?]; done.
    - destruct c; try done. by eexists _, _, _, _. }
  assert (∀ q m up stop,
            c = ResearchStreamStopped q m up stop →
            valid c = true →
            breaker_lets clk st = true →
            limiter_lets user_id clk st = true →
            (∀ started,
               stop = AtCall started →
               (st', tr, res)
               = (admitted user_id clk st,
                  [EvCanExecute; EvCheck user_id]
                  ++ (if started then [EvUpstream 1] else []),
                  inr Stopped))
            ∧ (∀ index stream,
                 stop = AtChunk index →
                 up = Sdk.Returned stream →
                 (index < length (sdk_chunks stream))%nat →
                 (st', tr, res)
                 = (admitted user_id clk st,
                    [EvCanExecute; EvCheck user_id; EvUpstream 1]
                    ++ (EvYield <$> take (S index) (sdk_chunks stream)),
                    inr Stopped))) as Hclosed.
  { intros q m up stop -> Hv Hb Hl. split.
    - intros started ->.
      destruct HP as [| | |key hit ? ? ? Hkey|r ? ? ? ? ? ? Hrun
                     |e ? ? ? ? Hfail|events ? ? ? ? ? ? Hev];
        try congruence; try done.
      simpl in Hev. by injection Hev as <-.
    - intros index stream -> -> Hindex.
      assert (stopped (ResearchStreamStopped q m (Sdk.Returned stream)
                         (AtChunk index))
              = Some (EvUpstream 1
                      :: (EvYield <$> take (S index) (sdk_chunks stream))))
        as Hev.
      { simpl. by rewrite bool_decide_eq_true_2. }
      assert (failure (ResearchStreamStopped q m (Sdk.Returned stream)
                         (AtChunk index)) = None) as Hnone.
      { unfold failure. by rewrite Hev. }
      destruct HP as [| | |key hit ? ? ? Hkey|r ? ? ? ? ? ? Hrun
                     |e ? ? ? ? Hfail|events ? ? ? ? ? ? Hev'];
        try congruence; try done.
      rewrite Hev in Hev'. by injection Hev' as <-. }
  destruct HP as [e Hv Hval| | |key hit|r ? ? ? ? ? Hfresh|e
                 |events ? ? ? ? ? ? Hev].
  - simpl. split_and!; [lia|done| | | |done|done].
    + by intros ?%elem_of_nil.
    + split; [done|]. by intros (r & ? & _).
    + split; [done|]. intros (msg & e' & [= ->]). done.
  - rewrite filter_cons_False by (intros [?|?]; done). simpl.
    split_and!; [lia|done| | | |done|done].
    + rewrite !elem_of_cons, elem_of_nil. intros [?|?]; done.
    + split; [done|]. by intros (r & ? & _).
    + split; [done|]. by intros (msg & e' & ?).
  - rewrite !filter_cons_False by (intros [?|?]; done). simpl.
    split_and!; [lia|done| | | |done|done].
    + rewrite !elem_of_cons, elem_of_nil. intros [?|[?|?]]; done.
    + split; [done|]. by intros (r & ? & _).
    + split; [done|]. by intros (msg & e' & ?).
  - rewrite !filter_cons_False by (intros [?|?]; done). simpl.
    split_and!; [lia|done| | | |done|done].
    + rewrite !elem_of_cons, elem_of_nil. intros [?|[?|?]]; done.
    + split; [done|]. intros (r & [= <-] & _ & Hf).
      specialize (Hf _ eq_refl). by rewrite mark_cached_flag in Hf.
    + split; [done|]. by intros (msg & e' & ?).
  - rewrite !filter_app, reports_in_runs, reports_in_store. simpl.
    rewrite ?filter_cons_False by (intros [?|?]; done).
    rewrite ?filter_cons_True by (by left). simpl.
    split_and!; [lia| | | | | |done].
    + intros _. rewrite upstream_after_admission, elem_of_app.
      left. apply upstream_in_runs.
    + intros _. by left.
    + split; [|done]. intros _. exists r. split_and!; [done| |].
      * by intros ->.
      * intros d ->. by apply negb_true_iff.
    + split; [done|]. by intros (msg & e' & ?).
    + intros [= ->]. done.
  - rewrite !filter_app, reports_in_runs. simpl.
    rewrite ?filter_cons_False by (intros [?|?]; done).
    rewrite ?filter_cons_True by (by right). simpl.
    split_and!; [lia| | | | |done|done].
    + intros _. rewrite upstream_after_admission, elem_of_app.
      left. apply upstream_in_runs.
    + intros _. by left.
    + split; [done|]. by intros (r & ? & _).
    + split; [|done]. intros _. by eexists _, _.
  - destruct (Hstopped events Hev) as (Hnone & Hclear & Hup & Hc).
    rewrite !filter_app, Hnone, Hclear. simpl.
    rewrite ?filter_cons_False by (intros [?|?]; done).
    rewrite ?filter_cons_False by done. simpl.
    split_and!; [lia|done| | | | |done].
    + intros _. by right.
    + split; [done|]. by intros (r & [= <-] & ? & _).
    + split; [done|]. by intros (msg & e' & ?).
    + intros _. done.
Qed.

(** X16. The stream runs the SDK call once and never again, whatever the
    error: an admitted [research_stream] hands every chunk to its consumer
    in the order the SDK yields them, after the one SDK call and before it
    reports to the breaker; chunks yielded before a failure have been handed
    over when [record_failure] is called. The stream neither reads nor
    writes the result cache, and it ends normally exactly when the SDK
    iteration ends without an exception. *)
Theorem stream_forwards_chunks_in_order
    (query : string) (model : ResearchModel.t)
    (upstream : Sdk.Outcome SdkStream)
    (user_id session_id : string) (clk : Clock) (st : t) :
  valid (ResearchStream query model upstream) = true →
  breaker_lets clk st = true →
  limiter_lets user_id clk st = true →
  let out := invoke (ResearchStream query model upstream)
               user_id session_id clk st in
  let chunks := match upstream with
                | Sdk.Returned stream => sdk_chunks stream
                | Sdk.Raised _ => []
                end in
  let error := match upstream with
               | Sdk.Returned stream => sdk_failure stream
               | Sdk.Raised e => Some e
               end in
  out.1.2 = [EvCanExecute; EvCheck user_id; EvUpstream 1]
            ++ (EvYield <$> chunks)
            ++ match error with
               | None => [EvClearCache; EvRecordSuccess]
               | Some _ => [EvRecordFailure]
               end
  ∧ _cache out.1.1 = _cache st
  ∧ (out.2 = inr Exhausted ↔ error = None)
  ∧ ∀ e, error = Some e →
      out.2 = inl (ResearchToolError ("Research stream failed: " +:+ Sdk.str e)
                     (Some e)).
Proof.
  intros Hv Hb Hl out chunks error.
  pose proof (invoke_path (ResearchStream query model upstream)
                user_id session_id clk st) as HP.
  pose proof (invoke_reply_kind (ResearchStream query model upstream)
                user_id session_id clk st) as Hkind.
  fold out in HP, Hkind. destruct out as [[st' tr] res]. simpl in HP. simpl.
  assert (failure (ResearchStream query model upstream) = error) as Hfail
    by done.
  assert (runs (ResearchStream query model upstream)
          = EvUpstream 1 :: (EvYield <$> chunks)) as Hruns.
  { subst chunks. simpl. by destruct upstream. }
  destruct HP as [| | |key hit ? ? ? Hkey|r|e|events ? ? ? ? ? ? Hstopped];
    try congruence.
  - done.
  - rewrite Hruns. assert (error = None) as -> by congruence.
    specialize (Hkind _ _ r eq_refl). simpl in Hkind. subst r.
    split_and!; done.
  - rewrite Hruns. assert (error = Some e) as -> by congruence.
    split_and!; [done|done|done|].
    intros e' [= <-]. done.
  - done.
Qed.

Lemma stream_forwards_chunks_in_order_witness :
  let upstream :=
    Sdk.Returned (mk_sdk_stream ["a"; "b"]%string
                    (Some (Sdk.ConnectionError "reset"))) in
  let out := invoke (ResearchStream "x" ResearchModel.PRO upstream)
               "u1" "s1" (Scenario.at_time 0) (create Scenario.defaults) in
  out.1.2 = [EvCanExecute; EvCheck "u1"; EvUpstream 1]
            ++ (EvYield <$> ["a"; "b"]%string)
            ++ [EvRecordFailure]
  ∧ _cache out.1.1 = _cache (create Scenario.defaults)
  ∧ (out.2 = inr Exhausted ↔ Some (Sdk.ConnectionError "reset") = None)
  ∧ ∀ e, Some (Sdk.ConnectionError "reset") = Some e →
      out.2 = inl (ResearchToolError ("Research stream failed: " +:+ Sdk.str e)
                     (Some e)).
Proof.
  refine (stream_forwards_chunks_in_order "x" ResearchModel.PRO
            (Sdk.Returned (mk_sdk_stream ["a"; "b"]%string
                             (Some (Sdk.ConnectionError "reset"))))
            "u1" "s1" (Scenario.at_time 0) (create Scenario.defaults) _ _ _);
    by_computation.
Defined.

Lemma breaker_run_app ops1 ops2 cb :
  CircuitBreaker.run (ops1 ++ ops2) cb
  = CircuitBreaker.run ops2 (CircuitBreaker.run ops1 cb).
Proof. unfold CircuitBreaker.run. apply foldl_app. Qed.

Lemma breaker_run_config ops cb :
  CircuitBreaker._threshold (CircuitBreaker.run ops cb)
  = CircuitBreaker._threshold cb
  ∧ CircuitBreaker._timeout (CircuitBreaker.run ops cb)
    = CircuitBreaker._timeout cb.
Proof.
  revert cb. induction ops as [|op ops IH]; intros cb; [done|].
  change (CircuitBreaker.run (op :: ops) cb)
    with (CircuitBreaker.run ops (CircuitBreaker.step cb op)).
  destruct (IH (CircuitBreaker.step cb op)) as [-> ->].
  destruct op as [now| |now]; simpl; [|done..].
  unfold CircuitBreaker.can_execute.
  destruct (CircuitBreaker._state cb); try done.
  by destruct (_ >=? _).
Qed.

Lemma limiter_run_ops_app ops1 ops2 rl :
  RateLimiter.run_ops (ops1 ++ ops2) rl
  = RateLimiter.run_ops ops2 (RateLimiter.run_ops ops1 rl).
Proof. unfold RateLimiter.run_ops. apply foldl_app. Qed.

(** What one call does to the collaborators: it drives the breaker and the
    limiter through their own operations only. *)
Lemma invoke_drives c user_id session_id clk st :
  let st' := (invoke c user_id session_id clk st).1.1 in
  (∃ ops, _circuit_breaker st'
          = CircuitBreaker.run ops (_circuit_breaker st))
  ∧ (∃ ops, _rate_limiter st' = RateLimiter.run_ops ops (_rate_limiter st))
  ∧ UsageTracker._api_key (_usage_tracker st')
    = UsageTracker._api_key (_usage_tracker st).
Proof.
  intros st'. subst st'.
  pose proof (invoke_path c user_id session_id clk st) as HP.
  destruct (invoke c user_id session_id clk st) as [[st' tr] res].
  simpl in HP. simpl.
  destruct HP; simpl.
  - split_and!; [by exists []|by exists []|done].
  - split_and!; [by exists []|by exists []|done].
  - split_and!; [|by exists [RateLimiter.Check user_id (at_check clk)]|done].
    by exists [CircuitBreaker.CanExecute (at_can_execute clk)].
  - split_and!; [|by exists [RateLimiter.Check user_id (at_check clk)]|done].
    by exists [CircuitBreaker.CanExecute (at_can_execute clk)].
  - split_and!; [|by exists [RateLimiter.Check user_id (at_check clk)]|done].
    by exists [CircuitBreaker.CanExecute (at_can_execute clk);
               CircuitBreaker.RecordSuccess].
  - split_and!; [|by exists [RateLimiter.Check user_id (at_check clk)]|done].
    by exists [CircuitBreaker.CanExecute (at_can_execute clk);
               CircuitBreaker.RecordFailure (at_record_failure clk)].
  - split_and!; [|by exists [RateLimiter.Check user_id (at_check clk)]|done].
    by exists [CircuitBreaker.CanExecute (at_can_execute clk)].
Qed.

Lemma serve_drives reqs st :
  let served := serve reqs st in
  (∃ ops, _circuit_breaker served.1
          = CircuitBreaker.run ops (_circuit_breaker st))
  ∧ (∃ ops, _rate_limiter served.1
            = RateLimiter.run_ops ops (_rate_limiter st))
  ∧ UsageTracker._api_key (_usage_tracker served.1)
    = UsageTracker._api_key (_usage_tracker st)
  ∧ length served.2 = length reqs.
Proof.
  revert st. induction reqs as [|r reqs IH]; intros st.
  - simpl. split_and!; [by exists []|by exists []|done|done].
  - simpl.
    pose proof (invoke_drives (req_call r) (req_user r) (req_session r)
                  (req_clock r) st) as Hone.
    destruct (invoke (req_call r) (req_user r) (req_session r) (req_clock r) st)
      as [[st1 tr] res].
    simpl in Hone. destruct Hone as ((ops1 & Hcb1) & (rops1 & Hrl1) & Hkey1).
    specialize (IH st1). destruct (serve reqs st1) as [st2 results].
    simpl in IH. destruct IH as ((ops2 & Hcb2) & (rops2 & Hrl2) & Hkey2 & Hlen).
    simpl. split_and!.
    + exists (ops1 ++ ops2). by rewrite breaker_run_app, <- Hcb1.
    + exists (rops1 ++ rops2). by rewrite limiter_run_ops_app, <- Hrl1.
    + congruence.
    + by rewrite Hlen.
Qed.

(** X17. Whatever calls a tool built from a configuration has served, with
    whatever clock values: every call has got its result or its error; the
    limiter and the breaker still have the configured settings, and the
    tracker the configured key; the breaker is in a state its own three
    operations reach from the initial one, so that it is closed unless it
    has counted [threshold] failures; and no caller has more timestamps on
    record than the cap. *)
Theorem served_tool_keeps_settings (config : Config.t) (reqs : list Request)
    (user_id : string) :
  let served := serve reqs (create config) in
  let rl := _rate_limiter served.1 in
  let cb := _circuit_breaker served.1 in
  length served.2 = length reqs
  ∧ RateLimiter._max_requests rl = Config.research_rate_limit_per_minute config
  ∧ RateLimiter._window_seconds rl = 60
  ∧ CircuitBreaker._threshold cb = Config.circuit_breaker_threshold config
  ∧ CircuitBreaker._timeout cb = Config.circuit_breaker_timeout config
  ∧ UsageTracker._api_key (_usage_tracker served.1)
    = Config.tavily_api_key config
  ∧ CircuitBreaker.reachable cb
  ∧ CircuitBreaker.tripped_implies_threshold cb
  ∧ Z.of_nat (length (RateLimiter.requests_of rl user_id))
    ≤ Z.max 0 (Config.research_rate_limit_per_minute config).
Proof.
  intros served rl cb. subst rl cb.
  destruct (serve_drives reqs (create config))
    as ((ops & Hcb) & (rops & Hrl) & Hkey & Hlen).
  fold served in Hcb, Hrl, Hkey, Hlen.
  destruct (breaker_run_config ops (_circuit_breaker (create config)))
    as [Hth Hto].
  destruct (run_ops_bounded rops (_rate_limiter (create config)) user_id)
    as (Hbound & Hmax & Hwin).
  { simpl. rewrite requests_of_init. simpl. lia. }
  assert (CircuitBreaker.reachable (_circuit_breaker served.1)) as Hreach.
  { rewrite Hcb.
    exists (Config.circuit_breaker_threshold config),
      (Config.circuit_breaker_timeout config), ops. done. }
  split_and!; [done| | | | |done|done|by apply reachable_tripped|].
  - by rewrite Hrl, Hmax.
  - by rewrite Hrl, Hwin.
  - by rewrite Hcb, Hth.
  - by rewrite Hcb, Hto.
  - by rewrite Hrl.
Qed.

End GatewayReports.

(** * Usage queries, construction and search requests *)

Section ToolQueries.

Import ResearchTool.

(** X18. The usage queries of the tool go past admission: [get_usage] and
    [get_remaining_credits] ask neither the breaker nor the limiter, make no
    SDK call and at most one request to the usage endpoint, and leave the
    result cache, the limiter and the breaker as they are, also when the
    breaker is open. [get_remaining_credits] is [get_usage] without force:
    it leaves the same tool, makes the same request and raises the same
    error, and what it reports is never negative. *)
Theorem usage_queries_bypass_admission
    (force : bool) (resp : UsageTracker.Response) (st : t) :
  let asked := get_usage force resp st in
  let credits := get_remaining_credits resp st in
  (_cache asked.1.1 = _cache st
   ∧ _rate_limiter asked.1.1 = _rate_limiter st
   ∧ _circuit_breaker asked.1.1 = _circuit_breaker st
   ∧ (asked.1.2 = [] ∨ asked.1.2 = [EvUsageGet]))
  ∧ credits.1 = (get_usage false resp st).1
  ∧ (∀ msg, (get_usage false resp st).2 = inl msg → credits.2 = inl msg)
  ∧ (∀ usage, (get_usage false resp st).2 = inr usage →
       ∃ left,
         credits.2 = inr left
         ∧ UsageTracker.key_remaining left
           = Z.max 0 (KeyUsage.limit (TavilyUsage.key usage)
                      - KeyUsage.usage (TavilyUsage.key usage))
         ∧ 0 ≤ UsageTracker.plan_remaining left
         ∧ 0 ≤ UsageTracker.paygo_remaining left).
Proof.
  intros asked credits. subst asked credits.
  unfold get_usage, get_remaining_credits, UsageTracker.get_remaining.
  split; [|split; [|split]].
  - unfold UsageTracker.fetch.
    destruct (UsageTracker._cached (_usage_tracker st)), force, resp; simpl;
      (split; [done|split; [done|split; [done|]]]); by (left + right).
  - by destruct (UsageTracker.fetch false resp (_usage_tracker st))
      as [[ut tr] [msg|usage]].
  - intros msg.
    destruct (UsageTracker.fetch false resp (_usage_tracker st))
      as [[ut tr] [msg'|usage]]; simpl; congruence.
  - intros usage.
    destruct (UsageTracker.fetch false resp (_usage_tracker st))
      as [[ut tr] [msg'|usage']]; simpl; [done|].
    intros [= ->]. eexists. split; [done|]. simpl.
    unfold KeyUsage.remaining, AccountUsage.plan_remaining,
      AccountUsage.paygo_remaining. lia.
Qed.

(** X19. The tool takes its limiter, breaker and usage tracker from
    accessors that create an object on the first call only. In a process
    that has made none of them, constructing a tool with a key gives the
    tool of the configuration. Once the objects exist, constructing a tool
    again gives the objects in the state they are in, with their counts, time
    stamps and cached results, and the settings of the configuration given
    are not applied. Without a key the constructor raises and creates no
    object. *)
Theorem construction_shares_process_objects
    (config other : Config.t) (st : t) (p : Process.t) :
  Config.tavily_api_key other ≠ ""%string →
  (Config.tavily_api_key config ≠ ""%string →
   Process.construct config Process.start
   = (Process.holding (create config), inr (create config))
   ∧ (Process.construct config Process.start).2 = init config)
  ∧ Process.construct other (Process.holding st) = (Process.holding st, inr st)
  ∧ (let first := Process.construct config p in
     ∀ tool, first.2 = inr tool →
       Process.construct other first.1 = (first.1, inr tool))
  ∧ (Config.tavily_api_key config = ""%string →
     Process.construct config p
     = (p, inl (ResearchToolError "TAVILY_API_KEY is required" None))).
Proof.
  intros Hother. split_and!.
  - intros Hkey. unfold Process.construct, init.
    rewrite !bool_decide_eq_false_2 by done. done.
  - unfold Process.construct. rewrite bool_decide_eq_false_2 by done.
    simpl. by destruct st.
  - simpl. unfold Process.construct.
    rewrite (bool_decide_eq_false_2 _ Hother).
    case_bool_decide; [done|].
    intros tool.
    unfold Process.get_rate_limiter, Process.get_circuit_breaker,
      Process.get_usage_tracker.
    destruct p as [[rl|] [cb|] [ut|] cache]; simpl; by intros [= <-].
  - intros Hkey. unfold Process.construct.
    by rewrite bool_decide_eq_true_2.
Qed.

Lemma construction_shares_process_objects_witness :
  (Config.tavily_api_key Scenario.defaults ≠ ""%string →
   Process.construct Scenario.defaults Process.start
   = (Process.holding (create Scenario.defaults),
      inr (create Scenario.defaults))
   ∧ (Process.construct Scenario.defaults Process.start).2
     = init Scenario.defaults)
  ∧ Process.construct Scenario.tight
      (Process.holding
         (Scenario.after (Gateway.Qna "q" Scenario.breaks) 0
            (create Scenario.one_strike)))
    = (Process.holding
         (Scenario.after (Gateway.Qna "q" Scenario.breaks) 0
            (create Scenario.one_strike)),
       inr (Scenario.after (Gateway.Qna "q" Scenario.breaks) 0
              (create Scenario.one_strike)))
  ∧ (let first := Process.construct Scenario.defaults Process.start in
     ∀ tool, first.2 = inr tool →
       Process.construct Scenario.tight first.1 = (first.1, inr tool))
  ∧ (Config.tavily_api_key Scenario.defaults = ""%string →
     Process.construct Scenario.defaults Process.start
     = (Process.start,
        inl (ResearchToolError "TAVILY_API_KEY is required" None))).
Proof.
  refine (construction_shares_process_objects Scenario.defaults Scenario.tight
            (Scenario.after (Gateway.Qna "q" Scenario.breaks) 0
               (create Scenario.one_strike))
            Process.start _).
  vm_compute. discriminate.
Defined.

(** X20. A search request is accepted exactly when its query passes the
    query validator, its depth is [basic] or [advanced] and its number of
    results is between 1 and 50. The request accepted holds the stripped
    query and the other arguments unchanged. A request that is refused is
    refused with the fields that failed, all of them, in the order query,
    depth, number of results. *)
Theorem search_request_validation
    (query search_depth : string) (max_results : Z)
    (include_domains exclude_domains : list string)
    (include_answer include_raw_content : bool) :
  let checked :=
    SearchRequest.validate query search_depth max_results include_domains
      exclude_domains include_answer include_raw_content in
  let query_ok := is_ok (query_not_empty query) in
  let depth_ok :=
    bool_decide (search_depth = "basic"%string
                 ∨ search_depth = "advanced"%string) in
  let count_ok := bool_decide (1 ≤ max_results ≤ 50) in
  (is_ok checked = query_ok && depth_ok && count_ok)
  ∧ (∀ req, checked = inr req →
       req = SearchRequest.mk (Py.strip query) search_depth max_results
               include_domains exclude_domains include_answer
               include_raw_content)
  ∧ (∀ e, checked = inl e →
       e = ValidationError
             ((if query_ok then [] else ["query"%string])
              ++ (if depth_ok then [] else ["search_depth"%string])
              ++ (if count_ok then [] else ["max_results"%string]))).
Proof.
  intros checked query_ok depth_ok count_ok.
  subst checked query_ok depth_ok count_ok.
  unfold SearchRequest.validate.
  assert (SearchRequest.depth_ok search_depth
          = bool_decide (search_depth = "basic"%string
                         ∨ search_depth = "advanced"%string)) as ->.
  { unfold SearchRequest.depth_ok.
    repeat case_bool_decide; simpl; try done; tauto. }
  assert (in_range 1 50 max_results = bool_decide (1 ≤ max_results ≤ 50)) as ->.
  { unfold in_range.
    destruct (Z.leb_spec 1 max_results), (Z.leb_spec max_results 50);
      case_bool_decide; simpl; try done; lia. }
  assert (∀ q, query_not_empty query = inr q → q = Py.strip query) as Hstrip.
  { intros q. unfold query_not_empty. repeat case_match; congruence. }
  unfold failed_fields.
  destruct (query_not_empty query) as [msg|q] eqn:Hq;
    destruct (bool_decide (search_depth = "basic"%string
                           ∨ search_depth = "advanced"%string));
    destruct (bool_decide (1 ≤ max_results ≤ 50)); simpl;
    rewrite ?filter_cons_True, ?filter_cons_False, ?filter_nil by done;
    simpl; split_and!; try done; try (by intros ? [= <-]).
  intros req [= <-]. by rewrite (Hstrip q).
Qed.

End ToolQueries.
